(** * Angular-Slickgrid: the GraphQL query-building service

  A shallow embedding of [services/graphql.service.ts] (class
  [GraphqlService]): the option store ([initOptions], [updateOptions],
  [resetPaginationOptions]), the query assembler ([buildQuery],
  [onPaginationChanged], [onSortChanged]) and the enum fixer
  ([trimDoubleQuotesOnEnumField]).

  Conventions of the embedding.
  - A JavaScript string is a [string]: its characters are the code units
    below 256.  Among those the line terminators are LF and CR.
  - A JavaScript number is a [Z]: the service only handles page sizes,
    page numbers and offsets, and integer arithmetic is exact while the
    values stay safe integers ([safe_integer]).
  - An object whose keys are enumerated ([for .. in]) is an association
    list in insertion order; the one object that is written through an
    alias (the pagination arguments) lives in a store and is named by a
    reference.
  - A thrown exception is the [Throw] outcome. *)

From Stdlib Require Import ZArith List Bool Arith Lia.
From Stdlib Require Import Ascii String DecimalString.
From stdpp Require Import base option gmap.
Import ListNotations.
Local Open Scope string_scope.
Set Warnings "-register-all".
#[local] Arguments String.append !s1 s2.

(** ** Strings *)

Module Str.

(** The double quote character and the one-character string holding it. *)
Definition dq : ascii := "034"%char.
Definition q : string := String dq EmptyString.

Definition is_dq (c : ascii) : bool := Ascii.eqb c dq.

(** [Array.prototype.join] on strings. *)
Fixpoint join (sep : string) (l : list string) : string :=
  match l with
  | [] => ""
  | [x] => x
  | x :: l' => x ++ sep ++ join sep l'
  end.

(** What follows the first item of a join, and what precedes a later one. *)
Definition join_rest (sep : string) (l : list string) : string :=
  match l with
  | [] => ""
  | _ => sep ++ join sep l
  end.

Definition join_before (sep : string) (l : list string) : string :=
  fold_right (fun x acc => x ++ sep ++ acc) "" l.

(** The first [n] characters of [s]. *)
Fixpoint take (n : nat) (s : string) : string :=
  match n, s with
  | S n', String c s' => String c (take n' s')
  | _, _ => ""
  end.

(** [starts w s]: [s] begins with [w]; the remainder when it does. *)
Fixpoint strip_prefix (w s : string) : option string :=
  match w with
  | EmptyString => Some s
  | String c w' =>
      match s with
      | String d s' => if Ascii.eqb c d then strip_prefix w' s' else None
      | EmptyString => None
      end
  end.

(** [String.prototype.includes]. *)
Fixpoint includes (w s : string) : bool :=
  match strip_prefix w s with
  | Some _ => true
  | None =>
      match s with
      | EmptyString => false
      | String _ s' => includes w s'
      end
  end.

(** Every character of [s] satisfies [p]. *)
Fixpoint all (p : ascii -> bool) (s : string) : bool :=
  match s with
  | EmptyString => true
  | String c s' => p c && all p s'
  end.

Definition quote_free (s : string) : bool := all (fun c => negb (is_dq c)) s.

End Str.

(** ** Regular expressions

  The fragment of ECMAScript patterns that the service builds, with the
  backtracking semantics of the language: alternatives are tried left to
  right, [?] is greedy, [*?] is lazy, and an iteration that consumes
  nothing is rejected. *)

Module Regex.

Inductive regex : Type :=
| Chr (c : ascii)            (* a literal character *)
| Dot                        (* [.]: any character but a line terminator *)
| Eps                        (* the empty pattern *)
| Cat (r1 r2 : regex)        (* r1 r2 *)
| Alt (r1 r2 : regex)        (* r1|r2 *)
| Opt (r : regex)            (* r? *)
| LazyStar (r : regex)       (* r*? *)
| Group (r : regex).         (* (r) *)

Definition is_line_terminator (c : ascii) : bool :=
  Ascii.eqb c "010"%char || Ascii.eqb c "013"%char.

(** [run r s k]: match [r] at the start of [s], then hand what is left
    to the continuation [k]; the answer is the text left after the whole
    match. *)
Fixpoint run (r : regex) (s : string) (k : string -> option string)
  : option string :=
  match r with
  | Chr c =>
      match s with
      | String d s' => if Ascii.eqb c d then k s' else None
      | EmptyString => None
      end
  | Dot =>
      match s with
      | String d s' => if is_line_terminator d then None else k s'
      | EmptyString => None
      end
  | Eps => k s
  | Cat r1 r2 => run r1 s (fun s1 => run r2 s1 k)
  | Alt r1 r2 =>
      match run r1 s k with
      | Some rest => Some rest
      | None => run r2 s k
      end
  | Opt r1 =>
      match run r1 s (fun s1 =>
              if (String.length s1 <? String.length s)%nat then k s1 else None) with
      | Some rest => Some rest
      | None => k s
      end
  | LazyStar r1 =>
      (fix iter (n : nat) (s0 : string) : option string :=
         match k s0 with
         | Some rest => Some rest
         | None =>
             match n with
             | O => None
             | S n' =>
                 run r1 s0 (fun s1 =>
                   if (String.length s1 <? String.length s0)%nat
                   then iter n' s1 else None)
             end
         end) (String.length s) s
  | Group r1 => run r1 s k
  end.

(** The match of [r] at the start of [s], if any: the matched text and
    the text after it. *)
Definition exec (r : regex) (s : string) : option (string * string) :=
  match run r s Some with
  | Some rest => Some (Str.take (String.length s - String.length rest) s, rest)
  | None => None
  end.

(** [s.replace(reg, f)] for a pattern with the [g] flag: scan from the
    left, replace every match by [f] of the matched text and go on after
    it; after an empty match the scan moves one character on. *)
Fixpoint replace_loop (fuel : nat) (r : regex) (f : string -> string)
  (s : string) : string :=
  match fuel with
  | O => s
  | S fuel' =>
      let step :=
        match s with
        | EmptyString => ""
        | String c s' => String c (replace_loop fuel' r f s')
        end in
      match exec r s with
      | Some (EmptyString, _) => f "" ++ step
      | Some (m, rest) => f m ++ replace_loop fuel' r f rest
      | None => step
      end
  end.

Definition replace (r : regex) (f : string -> string) (s : string) : string :=
  replace_loop (S (String.length s)) r f s.

(** The pattern of a text without pattern syntax: its characters in a row. *)
Fixpoint literal (w : string) : regex :=
  match w with
  | EmptyString => Eps
  | String c w' => Cat (Chr c) (literal w')
  end.

End Regex.

(** ** The enum fixer *)

Module Fixer.
Import Regex.

(** The template literal of the source, backslash-s, question mark, then
    the group of a quote, a lazy run of any characters and a quote.  In a
    template literal backslash-s is the letter s, so the pattern text starts
    with an optional letter s, as the comment next to it in the source
    shows. *)
Definition patternWordInQuotes_source : string :=
  "s?(" ++ Str.q ++ ".*?" ++ Str.q ++ ")".

(** [enumSearchWords.join(patternWordInQuotes + '|') + patternWordInQuotes] *)
Definition patternRegex_source (enumSearchWords : list string) : string :=
  Str.join (patternWordInQuotes_source ++ "|") enumSearchWords
    ++ patternWordInQuotes_source.

(** What [new RegExp] makes of that text. *)
Definition patternWordInQuotes : regex :=
  Cat (Opt (Chr "s"))
      (Group (Cat (Chr Str.dq) (Cat (LazyStar Dot) (Chr Str.dq)))).

(** A search word is spliced into the pattern as it is.  The embedding
    reads it as literal text, which is what [new RegExp] does when the
    word holds none of the characters of the pattern syntax. *)
Definition syntax_char (c : ascii) : bool :=
  existsb (Ascii.eqb c)
    ["\"; "^"; "$"; "."; "|"; "?"; "*"; "+"; "("; ")"; "["; "]"; "{"; "}"]%char.

Definition plain_word (w : string) : bool :=
  Str.all (fun c => negb (syntax_char c)) w.

Definition clause (word : string) : regex :=
  Cat (literal word) patternWordInQuotes.

(** What [new RegExp(patternRegex, 'g')] makes of the joined source. *)
Fixpoint patternRegex (enumSearchWords : list string) : regex :=
  match enumSearchWords with
  | [] => clause ""
  | [w] => clause w
  | w :: ws => Alt (clause w) (patternRegex ws)
  end.

(** The replacer callback: every double quote of the matched text
    [group1] is replaced by the empty text. *)
Definition removeQuotes (group1 : string) : string :=
  replace (Chr Str.dq) (fun _ => "") group1.

Definition trimDoubleQuotesOnEnumField (inputStr : string)
  (enumSearchWords : list string) : string :=
  replace (patternRegex enumSearchWords) removeQuotes inputStr.

End Fixer.

(** ** JavaScript values *)

Module JS.

Inductive JSValue : Type :=
| VUndefined
| VNumber (n : Z)
| VString (s : string)
| VArray (items : list JSValue)
| VObject (props : list (string * JSValue)).

(** An object as the list of its own enumerable properties, in the order
    [for .. in] visits them. *)
Definition Obj : Type := list (string * JSValue).

Fixpoint obj_get (o : Obj) (k : string) : option JSValue :=
  match o with
  | [] => None
  | (k', v) :: o' => if String.eqb k' k then Some v else obj_get o' k
  end.

(** [o.k = v]: an existing key keeps its place, a new key goes last. *)
Fixpoint obj_set (o : Obj) (k : string) (v : JSValue) : Obj :=
  match o with
  | [] => [(k, v)]
  | (k', v') :: o' =>
      if String.eqb k' k then (k', v) :: o' else (k', v') :: obj_set o' k v
  end.

Definition obj_keys (o : Obj) : list string := map fst o.

(** Numbers that JavaScript holds exactly. *)
Definition safe_integer (n : Z) : Prop := (Z.abs n <= 2 ^ 53 - 1)%Z.

Definition number_text (n : Z) : string :=
  NilZero.string_of_int (Z.to_int n).

(** [Array.prototype.join] turns an undefined item into the empty text. *)
Definition item_text (toStr : JSValue -> string) (v : JSValue) : string :=
  match v with
  | VUndefined => ""
  | _ => toStr v
  end.

(** ToString, as a template literal applies it. *)
Fixpoint toStr (v : JSValue) : string :=
  match v with
  | VUndefined => "undefined"
  | VNumber n => number_text n
  | VString s => s
  | VArray items => Str.join "," (map (item_text toStr) items)
  | VObject _ => "[object Object]"
  end.

Definition hex_digit (n : nat) : string :=
  String.substring n 1 "0123456789abcdef".

(** The escape of one character inside [JSON.stringify] of a string. *)
Definition json_escape (c : ascii) : string :=
  if Str.is_dq c then "\" ++ Str.q
  else if Ascii.eqb c "\"%char then "\\"
  else
    let n := nat_of_ascii c in
    if (n =? 8)%nat then "\b"
    else if (n =? 9)%nat then "\t"
    else if (n =? 10)%nat then "\n"
    else if (n =? 12)%nat then "\f"
    else if (n =? 13)%nat then "\r"
    else if (n <? 32)%nat
         then "\u00" ++ hex_digit (n / 16) ++ hex_digit (n mod 16)
         else String c "".

Fixpoint json_body (s : string) : string :=
  match s with
  | EmptyString => ""
  | String c s' => json_escape c ++ json_body s'
  end.

Definition JSON_stringify (s : string) : string :=
  Str.q ++ json_body s ++ Str.q.

Inductive JSError : Type :=
| Error (message : string)
| TypeError
| ReferenceError (message : string).

Inductive Outcome (A : Type) : Type :=
| Ok (a : A)
| Throw (e : JSError).
Arguments Ok {A} a.
Arguments Throw {A} e.

Definition obind {A B} (x : Outcome A) (f : A -> Outcome B) : Outcome B :=
  match x with
  | Ok a => f a
  | Throw e => Throw e
  end.

End JS.

(** ** The query builder *)

Module QueryBuilder.
Import JS.

(** Modelled from the spec: the class [QueryBuilder] of the package
    graphql-query-builder, which the service imports and which is not part
    of the sources at hand.  The specification describes it as a generic
    builder that nests selections, attaches call arguments and writes every
    scalar string value between double quotes; the comments of the service
    show the shape of the text.  The embedding follows the package: [find]
    renders its selections at once and joins them with a comma, [filter]
    appends one [key:value] text per enumerable key, objects and arrays are
    written without blanks, and [toString] lays the node out as alias, name,
    arguments in parentheses and the selection in braces. *)
Record Query : Type := {
  fnNameS : string;
  aliasS : option string;
  headA : list string;
  bodyS : option string
}.

(** Modelled from the spec: [new QueryBuilder(name)], a node without
    arguments and without selection. *)
Definition newQuery (_fnNameS : string) : Query :=
  {| fnNameS := _fnNameS; aliasS := None; headA := []; bodyS := None |}.

(** Modelled from the spec: the text of an argument value.  A string is
    written by [JSON.stringify], hence between double quotes; an array and
    an object are written item by item; a number and undefined stay as
    they are. *)
Fixpoint getGraphQLValue (value : JSValue) : JSValue :=
  match value with
  | VString s => VString (JSON_stringify s)
  | VArray items =>
      VString ("[" ++
        Str.join "," (map (fun item => item_text toStr (getGraphQLValue item)) items)
        ++ "]")
  | VObject props =>
      VString ("{" ++
        Str.join "," (map (fun '(prop, v) => prop ++ ":" ++ toStr (getGraphQLValue v)) props)
        ++ "}")
  | _ => value
  end.

(** Modelled from the spec: an object value as text. *)
Definition objectToString (obj : Obj) : string :=
  toStr (getGraphQLValue (VObject obj)).

Definition is_empty_braces (val : JSValue) : bool :=
  match val with
  | VString s => String.eqb s "{}"
  | _ => false
  end.

(** Modelled from the spec: [filter] attaches the call arguments, one head
    entry per enumerable key of the argument object; an argument that is
    undefined has no key to visit. *)
Definition filter (qb : Query) (filtersO : option Obj) : Query :=
  fold_left
    (fun (acc : Query) '((propS, v) : string * JSValue) =>
       let val := getGraphQLValue v in
       if is_empty_braces val then acc
       else {| fnNameS := fnNameS acc; aliasS := aliasS acc;
               headA := (headA acc ++ [(propS ++ ":" ++ toStr val)%string])%list;
               bodyS := bodyS acc |})
    (match filtersO with Some o => o | None => [] end)
    qb.

(** Modelled from the spec: the text of a node; a node without selection
    cannot be written. *)
Definition toString (qb : Query) : Outcome string :=
  match bodyS qb with
  | None =>
      Throw (ReferenceError
        "return properties are not defined. use the 'find' function to defined them")
  | Some body =>
      Ok ((match aliasS qb with Some a => a ++ ":" | None => "" end)
          ++ " " ++ fnNameS qb ++ " "
          ++ (match headA qb with
              | [] => ""
              | _ => "(" ++ Str.join "," (headA qb) ++ ")"
              end)
          ++ "  { " ++ body ++ " }")
  end.

(** Modelled from the spec: what [find] can be given, a field name, another
    query, or an object of one key whose value is an array of selections. *)
Inductive FindArg : Type :=
| FString (s : string)
| FQuery (qb : Query)
| FNested (propS : string) (item : list FindArg).

Definition withBody (qb : Query) (body : string) : Query :=
  {| fnNameS := fnNameS qb; aliasS := aliasS qb; headA := headA qb;
     bodyS := Some body |}.

(** Modelled from the spec: the selection text of one item; a nested item
    becomes a query of its own, which the join then turns into text. *)
Fixpoint parceItem (itemX : FindArg) : Outcome string :=
  match itemX with
  | FString s => Ok s
  | FQuery qb => toString qb
  | FNested propS item =>
      obind
        ((fix each (l : list FindArg) : Outcome (list string) :=
            match l with
            | [] => Ok []
            | x :: l' =>
                obind (parceItem x) (fun t =>
                obind (each l') (fun ts => Ok (t :: ts)))
            end) item)
        (fun ts => toString (withBody (newQuery propS) (Str.join "," ts)))
  end.

Fixpoint parceEach (l : list FindArg) : Outcome (list string) :=
  match l with
  | [] => Ok []
  | x :: l' =>
      obind (parceItem x) (fun t =>
      obind (parceEach l') (fun ts => Ok (t :: ts)))
  end.

(** Modelled from the spec: the selection text, items joined by a comma. *)
Definition parceFind (_levelA : list FindArg) : Outcome string :=
  obind (parceEach _levelA) (fun ts => Ok (Str.join "," ts)).

(** Modelled from the spec: [find] records the selection of a node. *)
Definition find (qb : Query) (findA : list FindArg) : Outcome Query :=
  obind (parceFind findA) (fun body => Ok (withBody qb body)).

End QueryBuilder.

(** ** The service *)

Module Service.
Import JS.

(** A key of an options object: absent, present and undefined, or present
    with a value.  The spread of [updateOptions] copies every present key,
    also an undefined one. *)
Inductive Slot (A : Type) : Type :=
| Absent
| Undefined
| Value (a : A).
Arguments Absent {A}.
Arguments Undefined {A}.
Arguments Value {A} a.

Definition read {A} (s : Slot A) : option A :=
  match s with
  | Value a => Some a
  | _ => None
  end.

Definition present {A} (s : Slot A) : bool :=
  match s with
  | Absent => false
  | _ => true
  end.

(** [{ ...old, ...new }] at one key. *)
Definition spread {A} (old new : Slot A) : Slot A :=
  match new with
  | Absent => old
  | _ => new
  end.

(** Modelled from the spec: the interfaces of [./../models], which are not
    part of the sources at hand.  A field selector is a plain field name or
    a name with nested subfields; a sorting option pairs a field name with a
    direction; a filtering option holds a field name, an operator and a
    value; the options object has the six keys of the configuration
    surface. *)
Inductive FieldSelector : Type :=
| Field (name : string)
| Nested (name : string) (subfields : list FieldSelector).

Inductive SortDirection : Type := ASC | DESC.

Record GraphqlSortingOption : Type := {
  sort : string;
  direction : SortDirection
}.

Record GraphqlFilteringOption : Type := {
  fieldName : string;
  fieldOperator : string;
  fieldValue : string
}.

(** A reference to a stored object. *)
Definition loc : Type := nat.

Record GraphqlServiceOption : Type := {
  datasetName : Slot string;
  dataFilters : Slot (list FieldSelector);
  isWithCursor : Slot bool;
  paginationOptions : Slot loc;
  sortingOptions : Slot (list GraphqlSortingOption);
  filteringOptions : Slot (list GraphqlFilteringOption)
}.

(** The object literal without keys. *)
Definition emptyOptions : GraphqlServiceOption :=
  {| datasetName := Absent; dataFilters := Absent; isWithCursor := Absent;
     paginationOptions := Absent; sortingOptions := Absent;
     filteringOptions := Absent |}.

(** Modelled from the spec: the payloads of the grid events, a sort of one
    column or of a sequence of columns, each with a field identifier that
    may be missing and a generic id, and a page size with a page number. *)
Record Column : Type := {
  field : option string;
  id : string
}.

Record ColumnSort : Type := {
  sortCol : Column;
  sortAsc : bool
}.

Record SortChangedArgs : Type := {
  multiColumnSort : bool;
  sortCols : option (list ColumnSort);
  argSortCol : Column;
  argSortAsc : bool
}.

Record PaginationChangedArgs : Type := {
  pageSize : Z;
  newPage : Z
}.

(** The service and the store of the objects it shares with its callers. *)
Record State : Type := {
  serviceOptions : GraphqlServiceOption;
  store : gmap loc Obj
}.

Definition defaultOrderBy : GraphqlSortingOption :=
  {| sort := "id"; direction := ASC |}.

(** *** Values as the builder sees them *)

Definition direction_text (d : SortDirection) : string :=
  match d with
  | ASC => "ASC"
  | DESC => "DESC"
  end.

Definition sorting_value (o : GraphqlSortingOption) : JSValue :=
  VObject [("sort", VString (sort o));
           ("direction", VString (direction_text (direction o)))].

Definition filtering_value (o : GraphqlFilteringOption) : JSValue :=
  VObject [("fieldName", VString (fieldName o));
           ("fieldOperator", VString (fieldOperator o));
           ("fieldValue", VString (fieldValue o))].

Fixpoint selector_arg (f : FieldSelector) : QueryBuilder.FindArg :=
  match f with
  | Field name => QueryBuilder.FString name
  | Nested name subfields =>
      QueryBuilder.FNested name (map selector_arg subfields)
  end.

(** Truthiness of the values the service tests. *)
Definition truthy_string (s : Slot string) : bool :=
  match s with
  | Value v => negb (String.eqb v "")
  | _ => false
  end.

Definition truthy_bool (s : Slot bool) : bool :=
  match s with
  | Value b => b
  | _ => false
  end.

Definition truthy_object {A} (s : Slot A) : bool :=
  match s with
  | Value _ => true
  | _ => false
  end.

(** *** Computations of the service: a state and a possible exception *)

Definition M (A : Type) : Type := State -> Outcome A * State.

Definition ret {A} (a : A) : M A := fun st => (Ok a, st).

Definition throw {A} (e : JSError) : M A := fun st => (Throw e, st).

Definition bind {A B} (m : M A) (f : A -> M B) : M B :=
  fun st =>
    match m st with
    | (Ok a, st') => f a st'
    | (Throw e, st') => (Throw e, st')
    end.

Definition lift {A} (x : Outcome A) : M A := fun st => (x, st).

Definition getOptions : M GraphqlServiceOption :=
  fun st => (Ok (serviceOptions st), st).

Definition setOptions (o : GraphqlServiceOption) : M unit :=
  fun st => (Ok tt, {| serviceOptions := o; store := store st |}).

(** A new object literal. *)
Definition alloc (o : Obj) : M loc :=
  fun st =>
    let l := fresh (dom (store st)) in
    (Ok l, {| serviceOptions := serviceOptions st;
              store := <[l := o]> (store st) |}).

(** The object a value of an object type refers to, if it is one. *)
Definition deref (r : option loc) : M (option Obj) :=
  fun st =>
    (Ok (match r with Some l => store st !! l | None => None end), st).

(** [target.k = v]: a type error when [target] is undefined. *)
Definition setProp (target : option loc) (k : string) (v : JSValue) : M unit :=
  fun st =>
    match target with
    | Some l =>
        match store st !! l with
        | Some o =>
            (Ok tt, {| serviceOptions := serviceOptions st;
                       store := <[l := obj_set o k v]> (store st) |})
        | None => (Throw TypeError, st)
        end
    | None => (Throw TypeError, st)
    end.

Notation "x <- c1 ;; c2" := (bind c1 (fun x => c2))
  (at level 100, c1 at next level, right associativity).
Notation "c1 ;; c2" := (bind c1 (fun _ => c2))
  (at level 100, right associativity).

Definition when (b : bool) (m : M unit) : M unit :=
  if b then m else ret tt.

(** *** The methods *)

Definition enumSearchWords : list string :=
  ["sort:"; "direction:"; "fieldName:"; "fieldOperator:"].

Definition requirement_message : string :=
  "GraphQL Service requires " ++ Str.q ++ "datasetName" ++ Str.q ++ " & "
  ++ Str.q ++ "dataFilters" ++ Str.q ++ " properties for it to work".

Definition list_value {A} (f : A -> JSValue) (s : Slot (list A)) : JSValue :=
  match s with
  | Value l => VArray (map f l)
  | _ => VUndefined
  end.

Definition buildQuery : M string :=
  so <- getOptions ;;
  if negb (truthy_string (datasetName so)) || negb (truthy_object (dataFilters so))
  then throw (Error requirement_message)
  else
    let name := match datasetName so with Value n => n | _ => "" end in
    let fields :=
      map selector_arg
        (match dataFilters so with Value l => l | _ => [] end) in
    let queryQb := QueryBuilder.newQuery "query" in
    let datasetQb := QueryBuilder.newQuery name in
    let pageInfoQb := QueryBuilder.newQuery "pageInfo" in
    let dataQb :=
      if truthy_bool (isWithCursor so)
      then QueryBuilder.newQuery "edges" else QueryBuilder.newQuery "nodes" in
    pageInfoQb <- lift
      (if truthy_bool (isWithCursor so)
       then QueryBuilder.find pageInfoQb
              [QueryBuilder.FString "hasNextPage"; QueryBuilder.FString "endCursor"]
       else QueryBuilder.find pageInfoQb [QueryBuilder.FString "hasNextPage"]) ;;
    dataQb <- lift
      (if truthy_bool (isWithCursor so)
       then QueryBuilder.find dataQb
              [QueryBuilder.FString "cursor"; QueryBuilder.FNested "node" fields]
       else QueryBuilder.find dataQb fields) ;;
    datasetQb <- lift
      (QueryBuilder.find datasetQb
         [QueryBuilder.FString "totalCount"; QueryBuilder.FQuery pageInfoQb;
          QueryBuilder.FQuery dataQb]) ;;
    let datasetFilters := read (paginationOptions so) in
    when (truthy_object (sortingOptions so))
      (setProp datasetFilters "orderBy"
         (list_value sorting_value (sortingOptions so))) ;;
    when (truthy_object (filteringOptions so))
      (setProp datasetFilters "filterBy"
         (list_value filtering_value (filteringOptions so))) ;;
    filtersO <- deref datasetFilters ;;
    let datasetQb := QueryBuilder.filter datasetQb filtersO in
    queryQb <- lift (QueryBuilder.find queryQb [QueryBuilder.FQuery datasetQb]) ;;
    text <- lift (QueryBuilder.toString queryQb) ;;
    ret (Fixer.trimDoubleQuotesOnEnumField text enumSearchWords).

Definition initOptions (serviceOptions : option GraphqlServiceOption) : M unit :=
  setOptions (match serviceOptions with Some o => o | None => emptyOptions end).

Definition merge (old new : GraphqlServiceOption) : GraphqlServiceOption :=
  {| datasetName := spread (datasetName old) (datasetName new);
     dataFilters := spread (dataFilters old) (dataFilters new);
     isWithCursor := spread (isWithCursor old) (isWithCursor new);
     paginationOptions := spread (paginationOptions old) (paginationOptions new);
     sortingOptions := spread (sortingOptions old) (sortingOptions new);
     filteringOptions := spread (filteringOptions old) (filteringOptions new) |}.

Definition updateOptions (serviceOptions : option GraphqlServiceOption) : M unit :=
  so <- getOptions ;;
  setOptions (merge so (match serviceOptions with Some o => o | None => emptyOptions end)).

Definition only_paginationOptions (l : loc) : GraphqlServiceOption :=
  {| datasetName := Absent; dataFilters := Absent; isWithCursor := Absent;
     paginationOptions := Value l; sortingOptions := Absent;
     filteringOptions := Absent |}.

Definition only_sortingOptions (l : list GraphqlSortingOption) : GraphqlServiceOption :=
  {| datasetName := Absent; dataFilters := Absent; isWithCursor := Absent;
     paginationOptions := Absent; sortingOptions := Value l;
     filteringOptions := Absent |}.

Definition resetPaginationOptions : M unit :=
  so <- getOptions ;;
  paginationOptions <- alloc
    (if truthy_bool (isWithCursor so)
     then [("after", VString ""); ("before", VUndefined); ("last", VUndefined)]
     else [("offset", VNumber 0)]) ;;
  updateOptions (Some (only_paginationOptions paginationOptions)).

Definition onPaginationChanged (args : PaginationChangedArgs) : M string :=
  so <- getOptions ;;
  paginationOptions <- alloc
    (if truthy_bool (isWithCursor so)
     then [("first", VNumber (pageSize args))]
     else [("first", VNumber (pageSize args));
           ("offset", VNumber ((newPage args - 1) * pageSize args))]) ;;
  updateOptions (Some (only_paginationOptions paginationOptions)) ;;
  buildQuery.

Definition fieldName_of (column : ColumnSort) : string :=
  match field (sortCol column) with
  | Some f => if String.eqb f "" then id (sortCol column) else f
  | None => id (sortCol column)
  end.

Definition onSortChanged (args : SortChangedArgs) : M string :=
  let sortColumns :=
    if multiColumnSort args then sortCols args
    else Some [{| sortCol := argSortCol args; sortAsc := argSortAsc args |}] in
  let sortByArray :=
    match sortColumns with
    | Some [] => [defaultOrderBy]
    | Some columns =>
        fold_left
          (fun (acc : list GraphqlSortingOption) column =>
             (acc ++ [{| sort := fieldName_of column;
                         direction := if sortAsc column then ASC else DESC |}])%list)
          columns []
    | None => []
    end in
  updateOptions (Some (only_sortingOptions sortByArray)) ;;
  buildQuery.

End Service.

(** ** What the pattern of the fixer matches, read off the text

    These functions follow the text instead of the pattern; the matcher is
    proved to agree with them ([run_patternRegex]). *)

Module Scan.
Import Str Regex.

(** A lazy run of dots followed by [k]. *)
Fixpoint lazy_dots (k : string -> option string) (s : string) : option string :=
  match k s with
  | Some rest => Some rest
  | None =>
      match s with
      | EmptyString => None
      | String d s' => if is_line_terminator d then None else lazy_dots k s'
      end
  end.

(** The text after the first double quote, with no line terminator before it. *)
Fixpoint after_quote (s : string) : option string :=
  match s with
  | EmptyString => None
  | String d s' =>
      if is_dq d then Some s'
      else if is_line_terminator d then None else after_quote s'
  end.

(** The text after a quoted value at the start of [s]. *)
Definition quoted_rest (s : string) : option string :=
  match s with
  | EmptyString => None
  | String d s' => if is_dq d then after_quote s' else None
  end.

(** The same after an optional letter s. *)
Definition word_in_quotes_rest (s : string) : option string :=
  match s with
  | EmptyString => None
  | String d s' => if Ascii.eqb d "s" then quoted_rest s' else quoted_rest s
  end.

Definition clause_rest (word s : string) : option string :=
  match strip_prefix word s with
  | Some r => word_in_quotes_rest r
  | None => None
  end.

Fixpoint pattern_rest (enumSearchWords : list string) (s : string) : option string :=
  match enumSearchWords with
  | [] => clause_rest "" s
  | [w] => clause_rest w s
  | w :: ws =>
      match clause_rest w s with
      | Some rest => Some rest
      | None => pattern_rest ws s
      end
  end.

(** The text without its double quotes. *)
Fixpoint drop_quotes (s : string) : string :=
  match s with
  | EmptyString => ""
  | String c s' => if is_dq c then drop_quotes s' else String c (drop_quotes s')
  end.

(** [t] is [s] with some of its double quotes left out. *)
Inductive unquoted : string -> string -> Prop :=
| unquoted_nil : unquoted "" ""
| unquoted_keep c s t : unquoted s t -> unquoted (String c s) (String c t)
| unquoted_drop s t : unquoted s t -> unquoted (String dq s) t.

(** Some position of [s] starts a match of the pattern. *)
Fixpoint matches_somewhere (r : regex) (s : string) : bool :=
  match exec r s with
  | Some _ => true
  | None =>
      match s with
      | EmptyString => false
      | String _ s' => matches_somewhere r s'
      end
  end.

(** A value the lazy run crosses whole: no double quote, no line terminator. *)
Definition plain_value (v : string) : bool :=
  all (fun c => negb (is_dq c) && negb (is_line_terminator c)) v.

Definition has_char (c : ascii) (s : string) : bool :=
  negb (all (fun d => negb (Ascii.eqb d c)) s).

(** The optional letter of a match: nothing or the letter s. *)
Definition letter (o : string) : Prop := o = "" \/ o = "s".

(** The words whose clauses make the pattern: an empty list joins to the
    empty text, so the pattern still has one clause, for the empty word. *)
Definition clauses (ks : list string) : list string :=
  match ks with
  | [] => [""]
  | _ => ks
  end.

(** Every word of the list is free of double quotes. *)
Definition quote_free_words (ks : list string) : bool :=
  forallb quote_free ks.

(** Every word of the list is free of pattern syntax. *)
Definition plain_words (ks : list string) : bool :=
  forallb Fixer.plain_word ks.

(** A character that stands in no search word and is not the optional
    letter of the pattern: a comma, a brace or a blank for the words of the
    service. *)
Definition marker (ks : list string) (c : ascii) : bool :=
  negb (Ascii.eqb c "s") && forallb (fun w => negb (has_char c w)) ks.

(** The text holds no double quote, or a marker ahead of its first one. *)
Fixpoint guarded (ks : list string) (t : string) : bool :=
  match t with
  | EmptyString => true
  | String c t' => if is_dq c then false else marker ks c || guarded ks t'
  end.

(** A condition on the input of the fixer: wherever its scan from the left
    finds a word with its quoted value, the text that follows the closing
    quote is guarded.  [skip] counts the characters of the match still to
    pass. *)
Fixpoint stable_from (skip : nat) (ks : list string) (s : string) : bool :=
  match s with
  | EmptyString => true
  | String c s' =>
      match skip with
      | S k => stable_from k ks s'
      | O =>
          match pattern_rest ks s with
          | Some r =>
              guarded ks r
              && stable_from (String.length s - String.length r - 1) ks s'
          | None => stable_from O ks s'
          end
      end
  end.

Definition stable (ks : list string) (s : string) : bool := stable_from O ks s.

(** The text goes on with a double quote, or with the letter s and a
    double quote. *)
Definition quote_next (r : string) : bool :=
  match r with
  | String c r' =>
      is_dq c
      || (Ascii.eqb c "s"
          && match r' with String d _ => is_dq d | EmptyString => false end)
  | EmptyString => false
  end.

(** Somewhere in the text a search word, alone or with the letter s,
    stands directly before a double quote. *)
Fixpoint word_before_quote (ks : list string) (s : string) : bool :=
  existsb (fun w => match strip_prefix w s with
                    | Some r => quote_next r
                    | None => false
                    end) (clauses ks)
  || match s with
     | EmptyString => false
     | String _ s' => word_before_quote ks s'
     end.

(** No match of the fixer is left open at the end of the text: a double
    quote written right after it is kept. *)
Definition settled (ks : list string) (pre : string) : bool :=
  String.eqb (Fixer.trimDoubleQuotesOnEnumField (pre ++ q) ks)
             (Fixer.trimDoubleQuotesOnEnumField pre ks ++ q).

End Scan.

(** ** The text of a query document, part by part *)

Module Document.
Import Str JS Service.

(** A node without alias: name, arguments, selection. *)
Definition node_text (name head body : string) : string :=
  " " ++ name ++ " " ++ head ++ "  { " ++ body ++ " }".

Fixpoint selector_text (f : FieldSelector) : string :=
  match f with
  | Field name => name
  | Nested name subfields =>
      node_text name "" (join "," (map selector_text subfields))
  end.

Definition selection_text (fields : list FieldSelector) : string :=
  join "," (map selector_text fields).

Definition pageInfo_text (cursor : bool) : string :=
  node_text "pageInfo" ""
    (if cursor then "hasNextPage,endCursor" else "hasNextPage").

Definition data_text (cursor : bool) (fields : list FieldSelector) : string :=
  if cursor
  then node_text "edges" ""
         ("cursor," ++ node_text "node" "" (selection_text fields))
  else node_text "nodes" "" (selection_text fields).

(** The argument texts of an object, one per key whose value is not
    written as empty braces. *)
Definition entry_text (e : string * JSValue) : string :=
  fst e ++ ":" ++ toStr (QueryBuilder.getGraphQLValue (snd e)).

Definition head_entries (o : Obj) : list string :=
  map entry_text
    (List.filter
       (fun e => negb (QueryBuilder.is_empty_braces (QueryBuilder.getGraphQLValue (snd e))))
       o).

Definition head_text (entries : list string) : string :=
  match entries with
  | [] => ""
  | _ => "(" ++ join "," entries ++ ")"
  end.

(** The whole document before the fixer. *)
Definition document_text (name : string) (entries : list string)
  (cursor : bool) (fields : list FieldSelector) : string :=
  node_text "query" ""
    (node_text name (head_text entries)
       ("totalCount," ++ pageInfo_text cursor ++ "," ++ data_text cursor fields)).

(** The pagination object once [buildQuery] has written the sorting and
    the filtering options into it. *)
Definition with_orderBy (so : GraphqlServiceOption) (o : Obj) : Obj :=
  if truthy_object (sortingOptions so)
  then obj_set o "orderBy" (list_value sorting_value (sortingOptions so))
  else o.

Definition with_filterBy (so : GraphqlServiceOption) (o : Obj) : Obj :=
  if truthy_object (filteringOptions so)
  then obj_set o "filterBy" (list_value filtering_value (filteringOptions so))
  else o.

Definition written (so : GraphqlServiceOption) (o : Obj) : Obj :=
  with_filterBy so (with_orderBy so o).

(** The entries of an object before and after a key. *)
Fixpoint before_key (k : string) (o : Obj) : Obj :=
  match o with
  | [] => []
  | (k', v) :: o' => if String.eqb k' k then [] else (k', v) :: before_key k o'
  end.

Fixpoint after_key (k : string) (o : Obj) : Obj :=
  match o with
  | [] => []
  | (k', v) :: o' => if String.eqb k' k then o' else after_key k o'
  end.

(** The document up to the argument [k] of the dataset node: the opening of
    the query, the dataset name and the arguments written ahead of [k]. *)
Definition ahead_of (so : GraphqlServiceOption) (k : string) (o : Obj) : string :=
  " query   {  "
  ++ match datasetName so with Value n => n | _ => "" end
  ++ " (" ++ join_before "," (head_entries (before_key k o)).

(** An argument that is written without double quotes and that
    [buildQuery] leaves alone: a number or undefined under a key other than
    filterBy. *)
Definition bare_entry (e : string * JSValue) : bool :=
  quote_free (fst e) && negb (String.eqb (fst e) "filterBy")
  && match snd e with
     | VNumber _ | VUndefined => true
     | _ => false
     end.

(** The arguments ahead of orderBy are bare. *)
Definition bare_before_orderBy (o : Obj) : bool :=
  forallb bare_entry (before_key "orderBy" o).

(** A text that [JSON.stringify] only wraps in double quotes: no double
    quote, no backslash, no control character. *)
Definition simple_text (s : string) : bool :=
  all (fun c => negb (is_dq c) && negb (Ascii.eqb c "\"%char)
                && (32 <=? nat_of_ascii c)%nat) s.

(** A sorting option as the builder writes it and as the fixer leaves it. *)
Definition sorting_json (o : GraphqlSortingOption) : string :=
  "{sort:" ++ JSON_stringify (sort o) ++ ",direction:"
  ++ JSON_stringify (direction_text (direction o)) ++ "}".

Definition sorting_fixed (o : GraphqlSortingOption) : string :=
  "{sort:" ++ sort o ++ ",direction:" ++ direction_text (direction o) ++ "}".

(** The sorting option of a sorted column. *)
Definition sorting_of (column : ColumnSort) : GraphqlSortingOption :=
  {| sort := fieldName_of column;
     direction := if sortAsc column then ASC else DESC |}.

(** The columns [onSortChanged] goes through and the array it builds. *)
Definition sortColumns_of (args : SortChangedArgs) : option (list ColumnSort) :=
  if multiColumnSort args then sortCols args
  else Some [{| sortCol := argSortCol args; sortAsc := argSortAsc args |}].

Definition sortByArray_of (args : SortChangedArgs) : list GraphqlSortingOption :=
  match sortColumns_of args with
  | Some [] => [defaultOrderBy]
  | Some columns => map sorting_of columns
  | None => []
  end.

(** The keys that [buildQuery] adds to a new pagination object. *)
Definition extra_entries (so : GraphqlServiceOption) : Obj :=
  ((if truthy_object (sortingOptions so)
    then [("orderBy", list_value sorting_value (sortingOptions so))] else [])
   ++ (if truthy_object (filteringOptions so)
       then [("filterBy", list_value filtering_value (filteringOptions so))]
       else []))%list.

(** The object literal of [onPaginationChanged]. *)
Definition page_object (cursor : bool) (args : PaginationChangedArgs) : Obj :=
  if cursor
  then [("first", VNumber (pageSize args))]
  else [("first", VNumber (pageSize args));
        ("offset", VNumber ((newPage args - 1) * pageSize args))].

(** What follows the pagination arguments in the text. *)
Definition next_argument (so : GraphqlServiceOption) : string :=
  if truthy_object (sortingOptions so) then ",orderBy:"
  else if truthy_object (filteringOptions so) then ",filterBy:"
  else ")".

(** The service has what [buildQuery] asks for. *)
Definition configured (so : GraphqlServiceOption) : bool :=
  truthy_string (datasetName so) && truthy_object (dataFilters so).

Definition name_of (so : GraphqlServiceOption) : string :=
  match datasetName so with Value n => n | _ => "" end.

Definition fields_of (so : GraphqlServiceOption) : list FieldSelector :=
  match dataFilters so with Value l => l | _ => [] end.

(** The stored object the pagination options refer to. *)
Definition pagination_object (st : State) : option Obj :=
  match read (paginationOptions (serviceOptions st)) with
  | Some l => store st !! l
  | None => None
  end.

(** The end of [buildQuery]: arguments, document, text, fixer. *)
Definition finish (datasetQb : QueryBuilder.Query) (filtersO : option Obj)
  : Outcome string :=
  obind
    (obind
       (QueryBuilder.find (QueryBuilder.newQuery "query")
          [QueryBuilder.FQuery (QueryBuilder.filter datasetQb filtersO)])
       QueryBuilder.toString)
    (fun text => Ok (Fixer.trimDoubleQuotesOnEnumField text enumSearchWords)).

End Document.

(** ** Texts and states of the examples *)

Module Examples.
Import Str JS Service.

(** The serialized fragment with a quoted field name and a quoted direction. *)
Definition quoted_pair : string :=
  "sort:" ++ q ++ "lastName" ++ q ++ ", direction:" ++ q ++ "ASC" ++ q.

(** A value with a double quote inside, after the word sort. *)
Definition inner_quote : string :=
  "sort:" ++ q ++ "a" ++ q ++ "b" ++ q.

(** A text in which the first pass uncovers a second occurrence. *)
Definition nested_word : string :=
  "sort:" ++ q ++ "sort:" ++ q ++ q ++ "x" ++ q.

(** A configured service without pagination options whose sorting options
    have been set: what [initOptions] with a dataset name and a field
    selection followed by a sort leaves behind. *)
Definition sorted_without_pagination : State :=
  {| serviceOptions :=
       {| datasetName := Value "users";
          dataFilters := Value [Field "name"];
          isWithCursor := Absent;
          paginationOptions := Absent;
          sortingOptions := Value [defaultOrderBy];
          filteringOptions := Absent |};
     store := ∅ |}.

Definition users_options : GraphqlServiceOption :=
  {| datasetName := Value "users";
     dataFilters := Value [Field "name"];
     isWithCursor := Absent;
     paginationOptions := Absent;
     sortingOptions := Absent;
     filteringOptions := Absent |}.

Definition fresh_service : State :=
  {| serviceOptions := emptyOptions; store := ∅ |}.

Definition empty_multi_sort : SortChangedArgs :=
  {| multiColumnSort := true; sortCols := Some [];
     argSortCol := {| field := None; id := "" |}; argSortAsc := true |}.

(** An offset-mode service with a stored pagination object. *)
Definition users_offset : State :=
  {| serviceOptions :=
       {| datasetName := Value "users";
          dataFilters := Value [Field "name"; Field "gender"];
          isWithCursor := Value false;
          paginationOptions := Value 0%nat;
          sortingOptions := Absent;
          filteringOptions := Absent |};
     store := {[ 0%nat := [("first", VNumber 20); ("offset", VNumber 40)] ]} |}.

(** The offset-mode service once a sort has been recorded. *)
Definition users_sorted : State :=
  {| serviceOptions :=
       {| datasetName := Value "users";
          dataFilters := Value [Field "name"; Field "gender"];
          isWithCursor := Value false;
          paginationOptions := Value 0%nat;
          sortingOptions := Value [defaultOrderBy];
          filteringOptions := Absent |};
     store := {[ 0%nat := [("first", VNumber 20); ("offset", VNumber 40)] ]} |}.

Definition two_columns : SortChangedArgs :=
  {| multiColumnSort := true;
     sortCols :=
       Some [{| sortCol := {| field := Some "lastName"; id := "col1" |};
                sortAsc := true |};
             {| sortCol := {| field := Some "firstName"; id := "col2" |};
                sortAsc := false |}];
     argSortCol := {| field := None; id := "" |}; argSortAsc := true |}.

(** A cursor-mode service whose cursor value ends like a search word. *)
Definition users_after_word : State :=
  {| serviceOptions :=
       {| datasetName := Value "users";
          dataFilters := Value [Field "name"];
          isWithCursor := Value true;
          paginationOptions := Value 0%nat;
          sortingOptions := Absent;
          filteringOptions := Absent |};
     store := {[ 0%nat := [("first", VNumber 20); ("after", VString "sort:")] ]} |}.

Definition page_three : PaginationChangedArgs :=
  {| pageSize := 20; newPage := 3 |}.

(** A cursor-mode service whose stored pagination object holds a cursor. *)
Definition users_cursor_page : State :=
  {| serviceOptions :=
       {| datasetName := Value "users";
          dataFilters := Value [Field "name"];
          isWithCursor := Value true;
          paginationOptions := Value 0%nat;
          sortingOptions := Absent;
          filteringOptions := Absent |};
     store := {[ 0%nat := [("first", VNumber 20);
                           ("after", VString "YXJyYXljb25uZWN0aW9uOjM=")] ]} |}.

(** A cursor-mode service right after its pagination options were reset. *)
Definition users_reset : State :=
  {| serviceOptions :=
       {| datasetName := Value "users";
          dataFilters := Value [Field "name"];
          isWithCursor := Value true;
          paginationOptions := Value 1%nat;
          sortingOptions := Absent;
          filteringOptions := Absent |};
     store := {[ 0%nat := [("first", VNumber 20)];
                 1%nat := [("after", VString ""); ("before", VUndefined);
                           ("last", VUndefined)] ]} |}.

(** A pagination object with a list of numbers and the filterBy argument
    of an earlier query, and a service that refers to it. *)
Definition filtered_object : Obj :=
  [("first", VNumber 20);
   ("ids", VArray [VNumber 1; VNumber 2]);
   ("filterBy",
    VArray [filtering_value
              {| fieldName := "date"; fieldOperator := ">";
                 fieldValue := "2000-10-10" |}])].

Definition users_after_filter : State :=
  {| serviceOptions :=
       {| datasetName := Value "users";
          dataFilters := Value [Field "name"];
          isWithCursor := Value false;
          paginationOptions := Value 0%nat;
          sortingOptions := Absent;
          filteringOptions := Absent |};
     store := {[ 0%nat := filtered_object ]} |}.

(** A sorted entry followed by a value that keeps its double quotes. *)
Definition sorted_and_valued : string :=
  "{sort:" ++ q ++ "id" ++ q ++ ",direction:" ++ q ++ "ASC" ++ q
  ++ "},fieldValue:" ++ q ++ "x" ++ q.

(** The same service in cursor mode, with a nested field selection. *)
Definition users_cursor : State :=
  {| serviceOptions :=
       {| datasetName := Value "users";
          dataFilters := Value [Field "name"; Nested "address" [Field "city"]];
          isWithCursor := Value true;
          paginationOptions := Value 0%nat;
          sortingOptions := Absent;
          filteringOptions := Absent |};
     store := {[ 0%nat := [("first", VNumber 20)] ]} |}.

End Examples.

(** ** Further notions for the properties of the service *)

Module More.
Import Str Regex Scan JS Service Document.

Fixpoint count_quotes (s : string) : nat :=
  match s with
  | EmptyString => O
  | String c s' => if is_dq c then S (count_quotes s') else count_quotes s'
  end.

(** A text without line terminator. *)
Definition single_line (s : string) : bool :=
  all (fun c => negb (is_line_terminator c)) s.

(** [w] is the end of [s]. *)
Fixpoint ends_with (w s : string) : bool :=
  String.eqb w s
  || match s with
     | EmptyString => false
     | String _ s' => ends_with w s'
     end.


(** A word and its value between double quotes, and the same without them. *)
Definition quoted_item (item : string * string) : string :=
  fst item ++ q ++ snd item ++ q.

Definition bare_item (item : string * string) : string :=
  fst item ++ snd item.

(** A separator of items: none of its characters is a double quote, the
    letter s or a character of a search word. *)
Definition separator (ks : list string) (sep : string) : bool :=
  all (fun c => negb (is_dq c) && marker ks c) sep.

(** An item of a well-formed list: a word of the list and a value that the
    lazy run crosses whole. *)
Definition good_item (ks : list string) (item : string * string) : bool :=
  existsb (String.eqb (fst item)) ks && plain_value (snd item).





(** The partial options that set the sorting options to undefined. *)
Definition clear_sorting : GraphqlServiceOption :=
  {| datasetName := Absent; dataFilters := Absent; isWithCursor := Absent;
     paginationOptions := Absent; sortingOptions := Undefined;
     filteringOptions := Absent |}.

(** The object literal of [resetPaginationOptions]. *)
Definition reset_object (cursor : bool) : Obj :=
  if cursor
  then [("after", VString ""); ("before", VUndefined); ("last", VUndefined)]
  else [("offset", VNumber 0)].

(** The sorting option of the single sorted column of an event. *)
Definition single_sort (args : SortChangedArgs) : GraphqlSortingOption :=
  sorting_of {| sortCol := argSortCol args; sortAsc := argSortAsc args |}.


Definition missing_columns : SortChangedArgs :=
  {| multiColumnSort := true; sortCols := None;
     argSortCol := {| field := None; id := "" |}; argSortAsc := true |}.

Definition one_column : SortChangedArgs :=
  {| multiColumnSort := false; sortCols := None;
     argSortCol := {| field := Some ""; id := "gender" |}; argSortAsc := false |}.

End More.

(** * Properties *)

Import Str Regex Fixer Scan JS Service Document Examples.

(** ** Texts *)

Section Texts.

Lemma ltb_succ (n : nat) : (n <? S n)%nat = true.
Proof. apply Nat.ltb_lt. lia. Qed.

Lemma append_nil_r (s : string) : s ++ "" = s.
Proof. induction s as [|c s IH]; simpl; [reflexivity | now rewrite IH]. Qed.

Lemma append_assoc (a b c : string) : (a ++ b) ++ c = a ++ b ++ c.
Proof. induction a as [|x a IH]; simpl; [reflexivity | now rewrite IH]. Qed.

Lemma length_append (a b : string) :
  String.length (a ++ b) = (String.length a + String.length b)%nat.
Proof. induction a as [|x a IH]; simpl; [reflexivity | now rewrite IH]. Qed.

Lemma append_inv_head (a b c : string) : a ++ b = a ++ c -> b = c.
Proof. induction a as [|x a IH]; simpl; intros H; [assumption | injection H; auto]. Qed.

Lemma append_inv_tail (a b c : string) : a ++ c = b ++ c -> a = b.
Proof.
  revert b; induction a as [|x a IH]; intros [|y b]; simpl; intros H.
  - reflexivity.
  - apply (f_equal String.length) in H. simpl in H. rewrite length_append in H. lia.
  - apply (f_equal String.length) in H. simpl in H. rewrite length_append in H. lia.
  - injection H as -> H. f_equal. now apply IH.
Qed.

Lemma take_append (a b : string) : take (String.length a) (a ++ b) = a.
Proof. induction a as [|x a IH]; simpl; [now destruct b | now rewrite IH]. Qed.

Lemma strip_prefix_spec (w s r : string) :
  strip_prefix w s = Some r <-> s = w ++ r.
Proof.
  revert s; induction w as [|c w IH]; intros s; simpl.
  - split; [intros [= ->] | intros ->]; reflexivity.
  - destruct s as [|d s]; [split; discriminate|].
    destruct (Ascii.eqb_spec c d) as [->|Hne].
    + rewrite IH. split; [intros -> | intros [= ->]]; reflexivity.
    + split; [discriminate | intros [= E _]; congruence].
Qed.

Lemma strip_prefix_append (w s : string) : strip_prefix w (w ++ s) = Some s.
Proof. now apply strip_prefix_spec. Qed.

Lemma includes_spec (w s : string) :
  includes w s = true <-> exists a b, s = a ++ w ++ b.
Proof.
  induction s as [|c s IH].
  - simpl. destruct (strip_prefix w "") eqn:E.
    + apply strip_prefix_spec in E. split; [|reflexivity].
      intros _. exists "", s. exact E.
    + split; [discriminate|]. intros (a & b & H).
      destruct a; [|discriminate]. simpl in H.
      apply strip_prefix_spec in H. congruence.
  - simpl. destruct (strip_prefix w (String c s)) eqn:E.
    + apply strip_prefix_spec in E. split; [|reflexivity].
      intros _. exists "", s0. exact E.
    + rewrite IH. split.
      * intros (a & b & ->). now exists (String c a), b.
      * intros (a & b & H). destruct a as [|x a].
        -- simpl in H. apply strip_prefix_spec in H. congruence.
        -- injection H as _ ->. now exists a, b.
Qed.

Lemma includes_append (w a b : string) : includes w (a ++ w ++ b) = true.
Proof. apply includes_spec. now exists a, b. Qed.

Lemma all_append (p : ascii -> bool) (a b : string) :
  all p (a ++ b) = all p a && all p b.
Proof. induction a as [|x a IH]; simpl; [reflexivity | now rewrite IH, andb_assoc]. Qed.

Lemma quote_free_append (a b : string) :
  quote_free (a ++ b) = quote_free a && quote_free b.
Proof. apply all_append. Qed.

End Texts.

(** ** The matcher *)

Section Matcher.

(** A successful run consumed a prefix of the text and the continuation
    accepted what was left. *)
Lemma run_inv (r : regex) :
  forall s k out, run r s k = Some out ->
  exists m s1, s = m ++ s1 /\ k s1 = Some out.
Proof.
  induction r as [c| | |r1 IH1 r2 IH2|r1 IH1 r2 IH2|r1 IH1|r1 IH1|r1 IH1];
    intros s k out H; simpl in H.
  - destruct s as [|d s]; [discriminate|].
    destruct (Ascii.eqb_spec c d) as [->|]; [|discriminate].
    now exists (String d ""), s.
  - destruct s as [|d s]; [discriminate|].
    destruct (is_line_terminator d); [discriminate|].
    now exists (String d ""), s.
  - now exists "", s.
  - apply IH1 in H as (m1 & s1 & -> & H).
    apply IH2 in H as (m2 & s2 & -> & H).
    exists (m1 ++ m2), s2. now rewrite append_assoc.
  - destruct (run r1 s k) eqn:E.
    + injection H as ->. now apply IH1 in E.
    + now apply IH2 in H.
  - match type of H with match ?X with _ => _ end = _ => destruct X eqn:E end.
    + injection H as ->. apply IH1 in E as (m & s1 & -> & E).
      destruct (_ <? _)%nat; [|discriminate]. now exists m, s1.
    + now exists "", s.
  - revert H. generalize (String.length s) at 1. intros n. revert s.
    induction n as [|n IHn]; intros s H.
    + destruct (k s) eqn:E; [|discriminate]. injection H as ->. now exists "", s.
    + destruct (k s) eqn:E.
      * injection H as ->. now exists "", s.
      * apply IH1 in H as (m & s1 & -> & H).
        destruct (_ <? _)%nat; [|discriminate].
        apply IHn in H as (m2 & s2 & -> & H).
        exists (m ++ m2), s2. now rewrite append_assoc.
  - now apply IH1 in H.
Qed.

Lemma exec_inv (r : regex) (s m rest : string) :
  exec r s = Some (m, rest) -> s = m ++ rest.
Proof.
  unfold exec. destruct (run r s Some) as [out|] eqn:E; [|discriminate].
  intros [= <- <-]. apply run_inv in E as (m & s1 & -> & [= ->]).
  rewrite length_append, Nat.add_sub. now rewrite take_append.
Qed.

Lemma exec_run (r : regex) (m rest : string) :
  run r (m ++ rest) Some = Some rest -> exec r (m ++ rest) = Some (m, rest).
Proof.
  intros H. unfold exec. rewrite H, length_append, Nat.add_sub.
  now rewrite take_append.
Qed.

(** Fuel beyond the length of the text makes no difference to the scan. *)
Lemma replace_loop_fuel (r : regex) (f : string -> string) :
  forall n1 n2 s,
    (String.length s < n1)%nat -> (String.length s < n2)%nat ->
    replace_loop n1 r f s = replace_loop n2 r f s.
Proof.
  induction n1 as [|n1 IH]; intros n2 s H1 H2; [lia|].
  destruct n2 as [|n2]; [lia|]. simpl.
  assert (Hstep :
    match s with "" => "" | String c s' => String c (replace_loop n1 r f s') end =
    match s with "" => "" | String c s' => String c (replace_loop n2 r f s') end).
  { destruct s as [|c s']; [reflexivity|]. simpl in H1, H2.
    f_equal. apply IH; lia. }
  destruct (exec r s) as [[m rest]|] eqn:E; [|exact Hstep].
  destruct m as [|c m]; [now rewrite Hstep|].
  apply exec_inv in E. f_equal. apply IH.
  - subst s. simpl in H1. rewrite length_append in H1. lia.
  - subst s. simpl in H2. rewrite length_append in H2. lia.
Qed.

(** The scan, one step at a time. *)
Lemma replace_step (r : regex) (f : string -> string) (s : string) :
  replace r f s =
  match exec r s with
  | Some (EmptyString, _) =>
      f "" ++ match s with "" => "" | String c s' => String c (replace r f s') end
  | Some (m, rest) => f m ++ replace r f rest
  | None => match s with "" => "" | String c s' => String c (replace r f s') end
  end.
Proof.
  unfold replace at 1. cbn [replace_loop].
  assert (Hstep :
    match s with "" => "" | String c s' =>
      String c (replace_loop (String.length s) r f s') end =
    match s with "" => "" | String c s' => String c (replace r f s') end).
  { destruct s as [|c s']; reflexivity. }
  destruct (exec r s) as [[m rest]|] eqn:E; [|exact Hstep].
  destruct m as [|c m]; [now rewrite Hstep|].
  apply exec_inv in E. f_equal. apply replace_loop_fuel.
  - subst s. simpl. rewrite length_append. lia.
  - lia.
Qed.

End Matcher.

(** ** The pattern of the fixer *)

Section Pattern.

Lemma run_literal (w s : string) (k : string -> option string) :
  run (literal w) s k =
  match strip_prefix w s with Some r => k r | None => None end.
Proof.
  revert s; induction w as [|c w IH]; intros s; simpl; [reflexivity|].
  destruct s as [|d s]; [reflexivity|].
  destruct (Ascii.eqb c d); [apply IH | reflexivity].
Qed.

Lemma run_lazy_dots (s : string) (k : string -> option string) :
  run (LazyStar Dot) s k = lazy_dots k s.
Proof.
  simpl. assert (H : (String.length s <= String.length s)%nat) by lia.
  revert H. generalize (String.length s) at 2 3. intros n. revert s.
  induction n as [|n IH]; intros s Hn.
  - destruct s as [|d s]; [|simpl in Hn; lia]. simpl. now destruct (k "").
  - destruct s as [|d s]; simpl.
    + now destruct (k "").
    + destruct (k (String d s)); [reflexivity|].
      destruct (is_line_terminator d); [reflexivity|].
      rewrite ltb_succ. apply IH. simpl in Hn. lia.
Qed.

Lemma lazy_dots_quote (s : string) :
  lazy_dots (fun s1 => run (Chr dq) s1 Some) s = after_quote s.
Proof.
  induction s as [|d s IH]; cbn [lazy_dots after_quote run]; [reflexivity|].
  unfold is_dq. rewrite (Ascii.eqb_sym d dq).
  destruct (Ascii.eqb dq d); [reflexivity|].
  destruct (is_line_terminator d); [reflexivity | exact IH].
Qed.

Lemma run_quoted (s : string) :
  run (Group (Cat (Chr dq) (Cat (LazyStar Dot) (Chr dq)))) s Some = quoted_rest s.
Proof.
  destruct s as [|d s]; [reflexivity|].
  cbn [run quoted_rest]. unfold is_dq. rewrite (Ascii.eqb_sym d dq).
  destruct (Ascii.eqb dq d); [|reflexivity].
  change (run (LazyStar Dot) s (fun s1 => run (Chr dq) s1 Some) = after_quote s).
  rewrite run_lazy_dots. apply lazy_dots_quote.
Qed.

Lemma run_patternWordInQuotes (s : string) :
  run patternWordInQuotes s Some = word_in_quotes_rest s.
Proof.
  unfold patternWordInQuotes.
  change (run (Opt (Chr "s"))
            s (fun s1 => run (Group (Cat (Chr dq) (Cat (LazyStar Dot) (Chr dq)))) s1 Some)
          = word_in_quotes_rest s).
  cbn [run]. destruct s as [|d s]; [reflexivity|].
  unfold word_in_quotes_rest. rewrite (Ascii.eqb_sym d "s").
  destruct (Ascii.eqb_spec "s"%char d) as [<-|Hne].
  - simpl String.length. rewrite ltb_succ.
    fold (run (Group (Cat (Chr dq) (Cat (LazyStar Dot) (Chr dq)))) s Some).
    rewrite run_quoted. destruct (quoted_rest s); reflexivity.
  - apply (run_quoted (String d s)).
Qed.

Lemma run_clause (w s : string) : run (clause w) s Some = clause_rest w s.
Proof.
  unfold clause, clause_rest. cbn [run]. rewrite run_literal.
  destruct (strip_prefix w s); [apply run_patternWordInQuotes | reflexivity].
Qed.

Lemma run_patternRegex (ks : list string) (s : string) :
  run (patternRegex ks) s Some = pattern_rest ks s.
Proof.
  induction ks as [|w ks IH]; [apply run_clause|].
  destruct ks as [|w' ks]; [apply run_clause|].
  change (match run (clause w) s Some with
          | Some rest => Some rest
          | None => run (patternRegex (w' :: ks)) s Some
          end = pattern_rest (w :: w' :: ks) s).
  rewrite run_clause, IH. reflexivity.
Qed.

End Pattern.

(** ** Shape of a match *)

Section Shape.

Lemma after_quote_inv (s r : string) :
  after_quote s = Some r ->
  exists v, s = v ++ q ++ r /\ plain_value v = true.
Proof.
  induction s as [|d s IH]; cbn [after_quote]; [discriminate|].
  destruct (is_dq d) eqn:Ed.
  - intros [= ->]. exists "". split; [|reflexivity].
    apply Ascii.eqb_eq in Ed. now subst d.
  - destruct (is_line_terminator d) eqn:El; [discriminate|].
    intros H. apply IH in H as (v & -> & Hv).
    exists (String d v). split; [reflexivity|].
    unfold plain_value in *. cbn [all]. now rewrite Ed, El, Hv.
Qed.

Lemma after_quote_plain (v r : string) :
  plain_value v = true -> after_quote (v ++ q ++ r) = Some r.
Proof.
  induction v as [|d v IH]; intros Hv; [reflexivity|].
  unfold plain_value in Hv. cbn [all] in Hv.
  apply andb_true_iff in Hv as [Hd Hv]. apply andb_true_iff in Hd as [Hq Hl].
  apply negb_true_iff in Hq, Hl. cbn [String.append after_quote].
  rewrite Hq, Hl. now apply IH.
Qed.

Lemma quoted_rest_inv (s r : string) :
  quoted_rest s = Some r ->
  exists v, s = q ++ v ++ q ++ r /\ plain_value v = true.
Proof.
  destruct s as [|d s]; cbn [quoted_rest]; [discriminate|].
  destruct (is_dq d) eqn:Ed; [|discriminate].
  apply Ascii.eqb_eq in Ed. subst d.
  intros H. apply after_quote_inv in H as (v & -> & Hv). now exists v.
Qed.

Lemma quoted_rest_plain (v r : string) :
  plain_value v = true -> quoted_rest (q ++ v ++ q ++ r) = Some r.
Proof. intros Hv. cbn. now apply after_quote_plain. Qed.

Lemma word_in_quotes_rest_inv (s r : string) :
  word_in_quotes_rest s = Some r ->
  exists o v, letter o /\ s = o ++ q ++ v ++ q ++ r /\ plain_value v = true.
Proof.
  destruct s as [|d s]; cbn [word_in_quotes_rest]; [discriminate|].
  destruct (Ascii.eqb_spec d "s") as [->|Hne]; intros H.
  - apply quoted_rest_inv in H as (v & -> & Hv).
    exists "s", v. repeat split; [now right | assumption].
  - apply quoted_rest_inv in H as (v & E & Hv).
    exists "", v. repeat split; [now left | assumption | assumption].
Qed.

Lemma word_in_quotes_rest_plain (o v r : string) :
  letter o -> plain_value v = true ->
  word_in_quotes_rest (o ++ q ++ v ++ q ++ r) = Some r.
Proof.
  intros [->| ->] Hv.
  - cbn. now apply after_quote_plain.
  - cbn. now apply after_quote_plain.
Qed.

Lemma clause_rest_inv (w s r : string) :
  clause_rest w s = Some r ->
  exists o v, letter o /\ s = w ++ o ++ q ++ v ++ q ++ r /\ plain_value v = true.
Proof.
  unfold clause_rest. destruct (strip_prefix w s) as [t|] eqn:E; [|discriminate].
  apply strip_prefix_spec in E. subst s. intros H.
  apply word_in_quotes_rest_inv in H as (o & v & Ho & -> & Hv). now exists o, v.
Qed.

Lemma clause_rest_plain (w o v r : string) :
  letter o -> plain_value v = true ->
  clause_rest w (w ++ o ++ q ++ v ++ q ++ r) = Some r.
Proof.
  intros Ho Hv. unfold clause_rest. rewrite strip_prefix_append.
  now apply word_in_quotes_rest_plain.
Qed.

Lemma pattern_rest_inv (ks : list string) (s r : string) :
  pattern_rest ks s = Some r ->
  exists w, In w (clauses ks) /\ clause_rest w s = Some r.
Proof.
  induction ks as [|w ks IH]; cbn [pattern_rest clauses].
  - intros H. exists "". split; [now left | assumption].
  - destruct ks as [|w' ks].
    + intros H. exists w. split; [now left | assumption].
    + destruct (clause_rest w s) eqn:E.
      * intros [= ->]. exists w. split; [now left | assumption].
      * intros H. apply IH in H as (w0 & Hin & H).
        exists w0. split; [now right | assumption].
Qed.

Lemma pattern_rest_none (ks : list string) (s : string) :
  (forall w, In w (clauses ks) -> clause_rest w s = None) ->
  pattern_rest ks s = None.
Proof.
  intros H. destruct (pattern_rest ks s) eqn:E; [|reflexivity].
  apply pattern_rest_inv in E as (w & Hin & E). rewrite (H w Hin) in E. discriminate.
Qed.

Lemma pattern_rest_some (ks : list string) (w s r : string) :
  In w (clauses ks) -> clause_rest w s = Some r ->
  exists r', pattern_rest ks s = Some r'.
Proof.
  induction ks as [|w' ks IH]; cbn [pattern_rest clauses].
  - intros [<-|[]] H. now exists r.
  - destruct ks as [|w'' ks].
    + intros [<-|[]] H. now exists r.
    + intros [<-|Hin] H.
      * rewrite H. now exists r.
      * destruct (clause_rest w' s); [now eexists|]. now apply IH.
Qed.

End Shape.

(** ** The fixer, step by step *)

Section Steps.

Lemma removeQuotes_spec (s : string) : removeQuotes s = drop_quotes s.
Proof.
  unfold removeQuotes.
  induction s as [|d s IH]; [reflexivity|].
  rewrite replace_step. unfold exec. cbn [run drop_quotes].
  unfold is_dq. rewrite (Ascii.eqb_sym d dq).
  destruct (Ascii.eqb dq d).
  - change (String.length (String d s)) with (S (String.length s)).
    replace (S (String.length s) - String.length s)%nat with 1%nat by lia.
    cbn [take]. exact IH.
  - now rewrite IH.
Qed.

Lemma exec_patternRegex (ks : list string) (s : string) :
  exec (patternRegex ks) s =
  match pattern_rest ks s with
  | Some rest => Some (take (String.length s - String.length rest) s, rest)
  | None => None
  end.
Proof. unfold exec. now rewrite run_patternRegex. Qed.

Lemma pattern_rest_shape (ks : list string) (s r : string) :
  pattern_rest ks s = Some r ->
  exists w o v,
    In w (clauses ks) /\ letter o /\ plain_value v = true /\
    s = (w ++ o ++ q ++ v ++ q) ++ r.
Proof.
  intros H. apply pattern_rest_inv in H as (w & Hin & H).
  apply clause_rest_inv in H as (o & v & Ho & -> & Hv).
  exists w, o, v. repeat split; try assumption.
  now rewrite !append_assoc.
Qed.

Lemma trim_at_match (ks : list string) (s rest : string) :
  pattern_rest ks s = Some rest ->
  exists m, s = m ++ rest /\ m <> "" /\
    trimDoubleQuotesOnEnumField s ks
    = drop_quotes m ++ trimDoubleQuotesOnEnumField rest ks.
Proof.
  intros H. pose proof (pattern_rest_shape _ _ _ H) as (w & o & v & _ & _ & _ & E).
  assert (Hm : w ++ o ++ q ++ v ++ q <> "").
  { destruct w; [|discriminate]. destruct o; discriminate. }
  remember (w ++ o ++ q ++ v ++ q) as m eqn:Em. clear Em. subst s.
  exists m. split; [reflexivity|]. split; [assumption|].
  unfold trimDoubleQuotesOnEnumField.
  rewrite replace_step, exec_patternRegex, H, length_append, Nat.add_sub.
  rewrite take_append.
  destruct m; [congruence | now rewrite removeQuotes_spec].
Qed.

Lemma trim_no_match (ks : list string) (s : string) :
  pattern_rest ks s = None ->
  trimDoubleQuotesOnEnumField s ks =
  match s with
  | EmptyString => ""
  | String c s' => String c (trimDoubleQuotesOnEnumField s' ks)
  end.
Proof.
  intros H. unfold trimDoubleQuotesOnEnumField.
  now rewrite replace_step, exec_patternRegex, H.
Qed.

(** Induction along the scan of the fixer. *)
Lemma scan_ind (ks : list string) (P : string -> Prop) :
  (forall s, pattern_rest ks s = None ->
     match s with EmptyString => True | String _ s' => P s' end -> P s) ->
  (forall m rest, m <> "" -> pattern_rest ks (m ++ rest) = Some rest ->
     P rest -> P (m ++ rest)) ->
  forall s, P s.
Proof.
  intros Hnone Hsome s.
  assert (H : forall n s, (String.length s <= n)%nat -> P s).
  { clear s. induction n as [|n IH]; intros s Hn.
    - destruct s; [|simpl in Hn; lia].
      destruct (pattern_rest ks "") eqn:E.
      + apply trim_at_match in E as (m & E' & Hm & _).
        destruct m; [congruence | discriminate].
      + now apply Hnone.
    - destruct (pattern_rest ks s) as [rest|] eqn:E.
      + pose proof (trim_at_match _ _ _ E) as (m & -> & Hm & _).
        apply Hsome; [assumption..|]. apply IH.
        rewrite length_append in Hn. destruct m; [congruence|]. simpl in Hn. lia.
      + apply Hnone; [assumption|]. destruct s; [exact I|].
        apply IH. simpl in Hn. lia. }
  now apply (H (String.length s)).
Qed.

End Steps.

(** ** The fixer only leaves out double quotes *)

Section Deletion.

Lemma unquoted_refl (s : string) : unquoted s s.
Proof. induction s; constructor; assumption. Qed.

Lemma unquoted_drop_quotes (s : string) : unquoted s (drop_quotes s).
Proof.
  induction s as [|c s IH]; cbn [drop_quotes]; [constructor|].
  destruct (is_dq c) eqn:E.
  - apply Ascii.eqb_eq in E. subst c. now constructor.
  - now constructor.
Qed.

Lemma unquoted_append (a a' b b' : string) :
  unquoted a a' -> unquoted b b' -> unquoted (a ++ b) (a' ++ b').
Proof. intros Ha Hb. induction Ha; simpl; [assumption | now constructor..]. Qed.

Lemma unquoted_trim (ks : list string) (s : string) :
  unquoted s (trimDoubleQuotesOnEnumField s ks).
Proof.
  induction s as [s Hnone IH | m rest Hm Hsome IH] using (scan_ind ks).
  - rewrite (trim_no_match _ _ Hnone). destruct s; constructor; assumption.
  - apply trim_at_match in Hsome as (m' & E & _ & ->).
    rewrite E. apply unquoted_append; [apply unquoted_drop_quotes | assumption].
Qed.

Lemma unquoted_length (s t : string) :
  unquoted s t -> (String.length t <= String.length s)%nat.
Proof. induction 1; simpl; lia. Qed.

Lemma unquoted_same_length (s t : string) :
  unquoted s t -> String.length t = String.length s -> t = s.
Proof.
  induction 1 as [|c s t H IH|s t H IH]; simpl; intros E.
  - reflexivity.
  - f_equal. apply IH. lia.
  - apply unquoted_length in H. lia.
Qed.

Lemma unquoted_append_inv (a b t : string) :
  unquoted (a ++ b) t ->
  exists a' b', t = a' ++ b' /\ unquoted a a' /\ unquoted b b'.
Proof.
  revert t; induction a as [|c a IH]; intros t H.
  - exists "", t. repeat split; [constructor | assumption].
  - simpl in H. inversion H as [|c' s' t' H'|s' t' H']; subst.
    + apply IH in H' as (a' & b' & -> & Ha & Hb).
      exists (String c a'), b'. repeat split; [now constructor | assumption].
    + apply IH in H' as (a' & b' & -> & Ha & Hb).
      exists a', b'. repeat split; [now constructor | assumption].
Qed.

Lemma unquoted_quote_free (w t : string) :
  unquoted w t -> quote_free w = true -> t = w.
Proof.
  induction 1 as [|c s t H IH|s t H IH]; cbn [quote_free all]; intros E.
  - reflexivity.
  - apply andb_true_iff in E as [_ E]. f_equal. now apply IH.
  - unfold is_dq in E. now rewrite Ascii.eqb_refl in E.
Qed.

(** A fragment without double quotes passes the fixer untouched. *)
Lemma includes_trim (ks : list string) (w s : string) :
  quote_free w = true -> includes w s = true ->
  includes w (trimDoubleQuotesOnEnumField s ks) = true.
Proof.
  intros Hw H. apply includes_spec in H as (a & b & ->).
  pose proof (unquoted_trim ks (a ++ w ++ b)) as H.
  apply unquoted_append_inv in H as (a' & t & -> & _ & H).
  apply unquoted_append_inv in H as (w' & b' & -> & Hw' & _).
  apply unquoted_quote_free in Hw'; [|assumption]. subst w'.
  apply includes_append.
Qed.

Lemma drop_quotes_append (a b : string) :
  drop_quotes (a ++ b) = drop_quotes a ++ drop_quotes b.
Proof.
  induction a as [|c a IH]; [reflexivity|]. cbn [String.append drop_quotes].
  destruct (is_dq c); [assumption | now rewrite IH].
Qed.

Lemma drop_quotes_quote_free (a : string) :
  quote_free a = true -> drop_quotes a = a.
Proof. intros H. apply unquoted_quote_free; [apply unquoted_drop_quotes | assumption]. Qed.

Lemma drop_quotes_length (m : string) :
  quote_free m = false -> (String.length (drop_quotes m) < String.length m)%nat.
Proof.
  induction m as [|c m IH]; cbn [quote_free all drop_quotes]; [discriminate|].
  destruct (is_dq c) eqn:E; simpl.
  - intros _. pose proof (unquoted_length _ _ (unquoted_drop_quotes m)). lia.
  - intros H. apply IH in H. lia.
Qed.

End Deletion.

(** ** When a second pass changes nothing *)

Section Fixpoints.

Lemma match_has_quote (ks : list string) (m rest : string) :
  pattern_rest ks (m ++ rest) = Some rest -> quote_free m = false.
Proof.
  intros H. pose proof (pattern_rest_shape _ _ _ H) as (w & o & v & _ & _ & _ & E).
  apply append_inv_tail in E. subst m.
  rewrite !quote_free_append. cbn. now rewrite !andb_false_r.
Qed.

Lemma trim_shrinks (ks : list string) (s : string) :
  matches_somewhere (patternRegex ks) s = true ->
  (String.length (trimDoubleQuotesOnEnumField s ks) < String.length s)%nat.
Proof.
  induction s as [s Hnone IH | m rest Hm Hsome IH] using (scan_ind ks).
  - rewrite (trim_no_match _ _ Hnone).
    destruct s as [|c s]; cbn [matches_somewhere];
      rewrite exec_patternRegex, Hnone; [discriminate|].
    intros H. apply IH in H. simpl. lia.
  - intros _. pose proof (match_has_quote _ _ _ Hsome) as Hq.
    apply trim_at_match in Hsome as (m' & E & _ & ->).
    apply append_inv_tail in E. subst m'.
    rewrite !length_append.
    pose proof (drop_quotes_length _ Hq).
    pose proof (unquoted_length _ _ (unquoted_trim ks rest)). lia.
Qed.

Lemma trim_no_match_anywhere (ks : list string) (s : string) :
  matches_somewhere (patternRegex ks) s = false ->
  trimDoubleQuotesOnEnumField s ks = s.
Proof.
  induction s as [s Hnone IH | m rest Hm Hsome IH] using (scan_ind ks).
  - rewrite (trim_no_match _ _ Hnone).
    destruct s as [|c s]; [reflexivity|]. cbn [matches_somewhere].
    rewrite exec_patternRegex, Hnone. intros H. now rewrite IH.
  - destruct (m ++ rest); cbn [matches_somewhere];
      rewrite exec_patternRegex, Hsome; discriminate.
Qed.

Lemma trim_fixed_iff (ks : list string) (s : string) :
  trimDoubleQuotesOnEnumField s ks = s <->
  matches_somewhere (patternRegex ks) s = false.
Proof.
  split; [|apply trim_no_match_anywhere].
  intros E. destruct (matches_somewhere (patternRegex ks) s) eqn:H; [|reflexivity].
  apply trim_shrinks in H. rewrite E in H. lia.
Qed.

Lemma quote_free_no_match (ks : list string) (s : string) :
  quote_free s = true -> matches_somewhere (patternRegex ks) s = false.
Proof.
  induction s as [|c s IH]; intros Hs; cbn [matches_somewhere];
    rewrite exec_patternRegex.
  - destruct (pattern_rest ks "") as [r|] eqn:E; [|reflexivity].
    pose proof (pattern_rest_shape _ _ _ E) as (w & o & v & _ & _ & _ & E').
    destruct w; [|discriminate]. destruct o; discriminate.
  - destruct (pattern_rest ks (String c s)) as [r|] eqn:E.
    + pose proof (pattern_rest_shape _ _ _ E) as (w & o & v & _ & _ & _ & E').
      rewrite E' in Hs. rewrite !quote_free_append in Hs. cbn in Hs.
      now rewrite !andb_false_r in Hs.
    + apply IH. cbn [quote_free all] in Hs. now apply andb_true_iff in Hs as [_ Hs].
Qed.

End Fixpoints.

(** ** A word followed by a quoted value *)

Section WordValue.

Lemma split_at_quote (u1 x1 u2 x2 : string) :
  quote_free u1 = true -> quote_free u2 = true ->
  u1 ++ q ++ x1 = u2 ++ q ++ x2 -> u1 = u2 /\ x1 = x2.
Proof.
  revert u2; induction u1 as [|c u1 IH]; intros [|d u2] H1 H2 E;
    cbn [quote_free all] in H1, H2; simpl in E.
  - injection E as ->. now split.
  - injection E as <- _. unfold is_dq in H2. now rewrite Ascii.eqb_refl in H2.
  - injection E as -> _. unfold is_dq in H1. now rewrite Ascii.eqb_refl in H1.
  - injection E as -> E. apply andb_true_iff in H1 as [_ H1].
    apply andb_true_iff in H2 as [_ H2].
    destruct (IH u2 H1 H2 E) as [-> ->]. now split.
Qed.

Lemma plain_value_quote_free (v : string) :
  plain_value v = true -> quote_free v = true.
Proof.
  induction v as [|c v IH]; [reflexivity|]. unfold plain_value, quote_free.
  cbn [all]. intros H. apply andb_true_iff in H as [Hc Hv].
  apply andb_true_iff in Hc as [Hc _]. rewrite Hc. now apply IH.
Qed.

Lemma letter_quote_free (o : string) : letter o -> quote_free o = true.
Proof. intros [->| ->]; reflexivity. Qed.

Lemma clauses_quote_free (ks : list string) (w : string) :
  quote_free_words ks = true -> In w (clauses ks) -> quote_free w = true.
Proof.
  unfold quote_free_words. intros H Hin. destruct ks as [|k ks].
  - destruct Hin as [<-|[]]. reflexivity.
  - cbn [clauses] in Hin. rewrite forallb_forall in H. now apply H.
Qed.

Lemma In_clauses (ks : list string) (w : string) : In w ks -> In w (clauses ks).
Proof. destruct ks; [intros [] | trivial]. Qed.

(** Two clauses that match at the same place match the same text. *)
Lemma clause_rest_unique (w1 w2 s r1 r2 : string) :
  quote_free w1 = true -> quote_free w2 = true ->
  clause_rest w1 s = Some r1 -> clause_rest w2 s = Some r2 -> r1 = r2.
Proof.
  intros Hw1 Hw2 H1 H2.
  apply clause_rest_inv in H1 as (o1 & v1 & Ho1 & E1 & Hv1).
  apply clause_rest_inv in H2 as (o2 & v2 & Ho2 & E2 & Hv2).
  rewrite E1 in E2. rewrite <- !(append_assoc w1), <- !(append_assoc w2) in E2.
  apply split_at_quote in E2 as [_ E2].
  - apply split_at_quote in E2 as [_ E2]; auto using plain_value_quote_free.
  - rewrite quote_free_append, Hw1. now apply letter_quote_free.
  - rewrite quote_free_append, Hw2. now apply letter_quote_free.
Qed.

Lemma pattern_rest_word (ks : list string) (w o v r : string) :
  quote_free_words ks = true -> In w (clauses ks) ->
  letter o -> plain_value v = true ->
  pattern_rest ks (w ++ o ++ q ++ v ++ q ++ r) = Some r.
Proof.
  intros Hks Hin Ho Hv.
  pose proof (clause_rest_plain w o v r Ho Hv) as Hc.
  destruct (pattern_rest_some ks _ _ _ Hin Hc) as (r' & H). rewrite H. f_equal.
  apply pattern_rest_inv in H as (w' & Hin' & H).
  eapply clause_rest_unique; [| |exact H|exact Hc]; eauto using clauses_quote_free.
Qed.

(** The step of the fixer at a word followed by a quoted value. *)
Lemma trim_word_value (ks : list string) (w o v r : string) :
  quote_free_words ks = true -> In w (clauses ks) ->
  letter o -> plain_value v = true ->
  trimDoubleQuotesOnEnumField (w ++ o ++ q ++ v ++ q ++ r) ks
  = w ++ o ++ v ++ trimDoubleQuotesOnEnumField r ks.
Proof.
  intros Hks Hin Ho Hv.
  pose proof (pattern_rest_word ks w o v r Hks Hin Ho Hv) as H.
  apply trim_at_match in H as (m & E & _ & ->).
  assert (m = w ++ o ++ q ++ v ++ q) as ->.
  { apply (append_inv_tail _ _ r). rewrite <- E. now rewrite !append_assoc. }
  rewrite !drop_quotes_append.
  rewrite (drop_quotes_quote_free w) by eauto using clauses_quote_free.
  rewrite (drop_quotes_quote_free o) by now apply letter_quote_free.
  rewrite (drop_quotes_quote_free v) by now apply plain_value_quote_free.
  cbn [drop_quotes q is_dq]. unfold is_dq. rewrite Ascii.eqb_refl. cbn [drop_quotes].
  simpl String.append. now rewrite append_nil_r, !append_assoc.
Qed.

(** Before the first double quote of a text a match needs a word, or a
    word and the letter s, right up to that quote. *)
Lemma match_before_quote (ks : list string) (u x r : string) :
  quote_free_words ks = true -> quote_free u = true ->
  pattern_rest ks (u ++ q ++ x) = Some r ->
  exists w o, In w (clauses ks) /\ letter o /\ u = w ++ o.
Proof.
  intros Hks Hu H. apply pattern_rest_inv in H as (w & Hin & H).
  apply clause_rest_inv in H as (o & v & Ho & E & _).
  exists w, o. repeat split; try assumption.
  rewrite <- (append_assoc w) in E. apply split_at_quote in E as [E _]; auto.
  rewrite quote_free_append, (clauses_quote_free ks w) by assumption.
  now apply letter_quote_free.
Qed.

End WordValue.

(** ** Where the scan of the fixer can be cut *)

Section Cuts.

Lemma has_char_append (c : ascii) (a b : string) :
  has_char c (a ++ b) = has_char c a || has_char c b.
Proof. unfold has_char. now rewrite all_append, negb_andb. Qed.

Lemma first_quote_split (t : string) :
  quote_free t = true \/ exists y x, t = y ++ q ++ x /\ quote_free y = true.
Proof.
  induction t as [|c t IH]; [now left|].
  destruct (is_dq c) eqn:E.
  - right. exists "", t. apply Ascii.eqb_eq in E. subst c. now split.
  - destruct IH as [H|(y & x & -> & Hy)].
    + left. unfold quote_free. cbn [all]. now rewrite E.
    + right. exists (String c y), x. split; [reflexivity|].
      unfold quote_free. cbn [all]. now rewrite E.
Qed.

Lemma quote_free_q (a b : string) : quote_free (a ++ q ++ b) = false.
Proof. rewrite !quote_free_append. cbn. now rewrite andb_false_r. Qed.

Lemma pattern_rest_quote_free (ks : list string) (t : string) :
  quote_free t = true -> pattern_rest ks t = None.
Proof.
  intros Ht. destruct (pattern_rest ks t) as [r|] eqn:E; [|reflexivity].
  apply pattern_rest_shape in E as (w & o & v & _ & _ & _ & ->).
  rewrite !append_assoc in Ht. rewrite <- (append_assoc w) in Ht.
  now rewrite quote_free_q in Ht.
Qed.

(** A text that goes on after a value: the value is what precedes the
    first double quote. *)
Lemma append_split_quote (b t v x : string) :
  quote_free b = true -> v ++ q ++ x = b ++ t ->
  exists y, v = b ++ y /\ t = y ++ q ++ x.
Proof.
  revert v; induction b as [|c b IH]; intros v Hb E.
  - now exists v.
  - cbn [quote_free all] in Hb. apply andb_true_iff in Hb as [Hc Hb].
    destruct v as [|d v]; simpl in E.
    + injection E as <- _. unfold is_dq in Hc. now rewrite Ascii.eqb_refl in Hc.
    + injection E as -> E. destruct (IH v Hb E) as (y & -> & ->). now exists y.
Qed.

Lemma append_last_quote (p a r : string) :
  p ++ q = a ++ q ++ r ->
  (r = "" /\ p = a) \/ exists r', r = r' ++ q /\ p = a ++ q ++ r'.
Proof.
  revert p; induction a as [|d a IH]; intros [|c p] E; simpl in E.
  - injection E as <-. now left.
  - injection E as -> E. right. now exists p.
  - injection E as _ E. destruct a; discriminate.
  - injection E as -> E. destruct (IH p E) as [[-> ->]|(r' & -> & ->)].
    + now left.
    + right. now exists r'.
Qed.

Lemma plain_value_append (a b : string) :
  plain_value (a ++ b) = plain_value a && plain_value b.
Proof. apply all_append. Qed.

Lemma drop_quotes_match (w o v : string) :
  quote_free w = true -> letter o -> plain_value v = true ->
  drop_quotes (w ++ o ++ q ++ v ++ q) = w ++ o ++ v.
Proof.
  intros Hw Ho Hv. rewrite !drop_quotes_append.
  rewrite (drop_quotes_quote_free w) by assumption.
  rewrite (drop_quotes_quote_free o) by now apply letter_quote_free.
  rewrite (drop_quotes_quote_free v) by now apply plain_value_quote_free.
  cbn [drop_quotes q is_dq]. unfold is_dq. rewrite Ascii.eqb_refl.
  cbn [drop_quotes String.append]. now rewrite append_nil_r.
Qed.

(** The step of the fixer over a match, with the text of the match. *)
Lemma trim_match_text (ks : list string) (m rest : string) :
  quote_free_words ks = true ->
  pattern_rest ks (m ++ rest) = Some rest ->
  exists w o v,
    In w (clauses ks) /\ letter o /\ plain_value v = true /\
    m = w ++ o ++ q ++ v ++ q /\
    trimDoubleQuotesOnEnumField (m ++ rest) ks
    = (w ++ o ++ v) ++ trimDoubleQuotesOnEnumField rest ks.
Proof.
  intros Hks H.
  pose proof (pattern_rest_shape _ _ _ H) as (w & o & v & Hin & Ho & Hv & E).
  apply append_inv_tail in E. subst m. exists w, o, v.
  repeat (split; [assumption|]). split; [reflexivity|].
  rewrite !append_assoc. now rewrite trim_word_value by assumption.
Qed.

(** A match stays a match when the text goes on. *)
Lemma pattern_rest_extend (ks : list string) (m rest z : string) :
  quote_free_words ks = true ->
  pattern_rest ks (m ++ rest) = Some rest ->
  pattern_rest ks (m ++ rest ++ z) = Some (rest ++ z).
Proof.
  intros Hks H.
  pose proof (pattern_rest_shape _ _ _ H) as (w & o & v & Hin & Ho & Hv & E).
  apply append_inv_tail in E. subst m. rewrite !append_assoc.
  now apply pattern_rest_word.
Qed.

Lemma marker_clause (ks : list string) (c : ascii) (w o : string) :
  marker ks c = true -> In w (clauses ks) -> letter o ->
  has_char c (w ++ o) = false.
Proof.
  unfold marker. intros H Hin Ho. apply andb_true_iff in H as [Hs Hw].
  apply negb_true_iff in Hs.
  unfold has_char. rewrite all_append. apply negb_false_iff, andb_true_iff. split.
  - destruct ks as [|k ks]; cbn [clauses] in Hin.
    + destruct Hin as [<-|[]]. reflexivity.
    + rewrite forallb_forall in Hw. specialize (Hw w Hin).
      unfold has_char in Hw. now rewrite negb_involutive in Hw.
  - destruct Ho as [->| ->]; [reflexivity|]. cbn [all].
    now rewrite Ascii.eqb_sym, Hs.
Qed.

Lemma has_char_cons (c d : ascii) (y : string) :
  has_char c (String d y) = Ascii.eqb d c || has_char c y.
Proof. unfold has_char. cbn [all]. now rewrite negb_andb, negb_involutive. Qed.

Lemma guarded_shape (ks : list string) (t : string) :
  guarded ks t = true ->
  quote_free t = true
  \/ exists y x c, t = y ++ q ++ x /\ quote_free y = true /\
                   marker ks c = true /\ has_char c y = true.
Proof.
  induction t as [|d t IH]; [now left|]. cbn [guarded].
  destruct (is_dq d) eqn:Ed; [discriminate|].
  destruct (marker ks d) eqn:Em; cbn [orb].
  - intros _. destruct (first_quote_split t) as [H|(y & x & -> & Hy)].
    + left. unfold quote_free. cbn [all]. now rewrite Ed.
    + right. exists (String d y), x, d. split; [reflexivity|].
      split; [unfold quote_free; cbn [all]; now rewrite Ed|].
      split; [assumption|]. now rewrite has_char_cons, Ascii.eqb_refl.
  - intros H. destruct (IH H) as [Hq|(y & x & c & -> & Hy & Hc & Hin)].
    + left. unfold quote_free. cbn [all]. now rewrite Ed.
    + right. exists (String d y), x, c. split; [reflexivity|].
      split; [unfold quote_free; cbn [all]; now rewrite Ed|].
      split; [assumption|]. now rewrite has_char_cons, Hin, orb_true_r.
Qed.

(** Ahead of a guarded text no match can start in text without double
    quote. *)
Lemma guarded_no_match (ks : list string) (h t : string) :
  quote_free_words ks = true -> guarded ks t = true -> quote_free h = true ->
  pattern_rest ks (h ++ t) = None.
Proof.
  intros Hks Hg Hh.
  destruct (guarded_shape ks t Hg) as [Hq|(y & x & c & -> & Hy & Hc & Hin)].
  - apply pattern_rest_quote_free. now rewrite quote_free_append, Hh.
  - destruct (pattern_rest ks (h ++ y ++ q ++ x)) as [r|] eqn:E; [|reflexivity].
    rewrite <- append_assoc in E.
    apply match_before_quote in E as (w & o & Hw & Ho & E); [|assumption|].
    + apply (f_equal (has_char c)) in E.
      rewrite (marker_clause ks c w o Hc Hw Ho), has_char_append, Hin in E.
      now rewrite orb_true_r in E.
    + now rewrite quote_free_append, Hh.
Qed.

Lemma guarded_match (ks : list string) (m rest : string) :
  quote_free_words ks = true ->
  pattern_rest ks (m ++ rest) = Some rest -> guarded ks (m ++ rest) = false.
Proof.
  intros Hks H. destruct (guarded ks (m ++ rest)) eqn:Hg; [|reflexivity].
  pose proof (guarded_no_match ks "" (m ++ rest) Hks Hg eq_refl) as Hn.
  cbn [String.append] in Hn. congruence.
Qed.

Lemma guarded_trim (ks : list string) (r : string) :
  quote_free_words ks = true -> guarded ks r = true ->
  guarded ks (trimDoubleQuotesOnEnumField r ks) = true.
Proof.
  intros Hks.
  induction r as [r Hnone IH | m rest Hm Hsome IH] using (scan_ind ks).
  - rewrite (trim_no_match _ _ Hnone). destruct r as [|c r]; [reflexivity|].
    cbn [guarded]. destruct (is_dq c); [discriminate|].
    destruct (marker ks c); [reflexivity|]. exact IH.
  - intros Hg. now rewrite (guarded_match ks m rest Hks Hsome) in Hg.
Qed.

Lemma no_match_prefix (ks : list string) (h t : string) :
  quote_free_words ks = true -> guarded ks t = true -> quote_free h = true ->
  matches_somewhere (patternRegex ks) t = false ->
  matches_somewhere (patternRegex ks) (h ++ t) = false.
Proof.
  intros Hks Hg Hh Ht. induction h as [|c h IH]; [exact Ht|].
  cbn [String.append matches_somewhere]. rewrite exec_patternRegex.
  change (String c (h ++ t)) with (String c h ++ t).
  rewrite (guarded_no_match ks (String c h) t Hks Hg Hh).
  apply IH. cbn [quote_free all] in Hh. now apply andb_true_iff in Hh as [_ Hh].
Qed.

Lemma stable_none (ks : list string) (c : ascii) (s : string) :
  pattern_rest ks (String c s) = None -> stable ks (String c s) = stable ks s.
Proof. intros H. unfold stable. cbn [stable_from]. now rewrite H. Qed.

Lemma stable_skip (ks : list string) (m r : string) :
  stable_from (String.length m) ks (m ++ r) = stable_from O ks r.
Proof. induction m as [|c m IH]; [reflexivity | exact IH]. Qed.

Lemma stable_match (ks : list string) (m r : string) :
  m <> "" -> pattern_rest ks (m ++ r) = Some r ->
  stable ks (m ++ r) = guarded ks r && stable ks r.
Proof.
  intros Hm H. destruct m as [|c m]; [congruence|]. unfold stable.
  change (String c m ++ r) with (String c (m ++ r)) in *.
  cbn [stable_from]. rewrite H. f_equal.
  cbn [String.length]. rewrite length_append.
  replace (S (String.length m + String.length r) - String.length r - 1)%nat
    with (String.length m) by lia.
  apply stable_skip.
Qed.

(** On a stable text the fixer opens no match: where the input has none at
    the start of [a] and the text, the fixed text has none either. *)
Lemma no_match_kept (ks : list string) (s : string) :
  quote_free_words ks = true -> stable ks s = true ->
  forall a, pattern_rest ks (a ++ s) = None ->
            pattern_rest ks (a ++ trimDoubleQuotesOnEnumField s ks) = None.
Proof.
  intros Hks.
  induction s as [s Hnone IH | m rest Hm Hsome IH] using (scan_ind ks).
  - intros Hst a Ha. rewrite (trim_no_match _ _ Hnone).
    destruct s as [|c s]; [exact Ha|].
    rewrite (stable_none ks c s Hnone) in Hst.
    change (a ++ String c (trimDoubleQuotesOnEnumField s ks))
      with (a ++ String c "" ++ trimDoubleQuotesOnEnumField s ks).
    rewrite <- append_assoc. apply (IH Hst).
    rewrite append_assoc. exact Ha.
  - intros Hst a Ha. rewrite (stable_match ks m rest Hm Hsome) in Hst.
    apply andb_true_iff in Hst as [Hg Hst].
    destruct (trim_match_text ks m rest Hks Hsome)
      as (w & o & v & Hw & Ho & Hv & -> & ->).
    pose proof (clauses_quote_free ks w Hks Hw) as Hqw.
    pose proof (letter_quote_free o Ho) as Hqo.
    pose proof (plain_value_quote_free v Hv) as Hqv.
    set (T := trimDoubleQuotesOnEnumField rest ks).
    destruct (pattern_rest ks (a ++ (w ++ o ++ v) ++ T)) as [x|] eqn:E;
      [exfalso | reflexivity].
    destruct (quote_free a) eqn:Hqa.
    + rewrite <- append_assoc in E.
      rewrite (guarded_no_match ks (a ++ w ++ o ++ v) T) in E;
        [discriminate | assumption | now apply guarded_trim |].
      now rewrite !quote_free_append, Hqa, Hqw, Hqo, Hqv.
    + apply pattern_rest_shape in E as (w' & o' & v' & Hw' & Ho' & Hv' & E).
      destruct (first_quote_split a) as [Hq|(u & a2 & -> & Hu)];
        [congruence|].
      rewrite !append_assoc in E. rewrite <- (append_assoc w' o') in E.
      apply split_at_quote in E as [-> E]; [|assumption|].
      2:{ rewrite quote_free_append, (clauses_quote_free ks w' Hks Hw').
          now apply letter_quote_free. }
      destruct (first_quote_split a2) as [Hq2|(u2 & a3 & -> & Hu2)].
      * assert (E' : v' ++ q ++ x = (a2 ++ w ++ o ++ v) ++ T).
        { rewrite <- E. now rewrite !append_assoc. }
        apply append_split_quote in E' as (y & E' & _).
        2:{ now rewrite !quote_free_append, Hq2, Hqw, Hqo, Hqv. }
        rewrite E' in Hv'. rewrite !plain_value_append in Hv'.
        apply andb_true_iff in Hv' as [Hv' _].
        apply andb_true_iff in Hv' as [Ha2 Hwov].
        apply andb_true_iff in Hwov as [Hpw Hov].
        apply andb_true_iff in Hov as [Hpo _].
        assert (Hp : plain_value (a2 ++ w ++ o) = true).
        { now rewrite !plain_value_append, Ha2, Hpw, Hpo. }
        pose proof (pattern_rest_word ks w' o' (a2 ++ w ++ o) (v ++ q ++ rest)
                      Hks Hw' Ho' Hp) as Hmatch.
        rewrite !append_assoc in Ha. rewrite !append_assoc in Hmatch.
        congruence.
      * assert (E' : u2 ++ q ++ (a3 ++ (w ++ o ++ v) ++ T) = v' ++ q ++ x).
        { rewrite <- E. now rewrite !append_assoc. }
        apply split_at_quote in E' as [-> _];
          [|assumption | now apply plain_value_quote_free].
        pose proof (pattern_rest_word ks w' o' v'
                      (a3 ++ (w ++ o ++ q ++ v ++ q) ++ rest) Hks Hw' Ho' Hv')
          as Hmatch.
        rewrite !append_assoc in Ha. rewrite !append_assoc in Hmatch.
        congruence.
Qed.

(** On a stable input the fixed text holds no further match. *)
Lemma stable_no_match (ks : list string) (s : string) :
  quote_free_words ks = true -> stable ks s = true ->
  matches_somewhere (patternRegex ks) (trimDoubleQuotesOnEnumField s ks) = false.
Proof.
  intros Hks.
  induction s as [s Hnone IH | m rest Hm Hsome IH] using (scan_ind ks).
  - intros Hst. pose proof (no_match_kept ks s Hks Hst "" Hnone) as Hk.
    rewrite (trim_no_match _ _ Hnone) in *. destruct s as [|c s].
    + now apply quote_free_no_match.
    + cbn [matches_somewhere]. rewrite exec_patternRegex.
      cbn [String.append] in Hk. rewrite Hk. apply IH.
      now rewrite (stable_none ks c s Hnone) in Hst.
  - intros Hst. rewrite (stable_match ks m rest Hm Hsome) in Hst.
    apply andb_true_iff in Hst as [Hg Hst].
    destruct (trim_match_text ks m rest Hks Hsome)
      as (w & o & v & Hw & Ho & Hv & -> & ->).
    apply no_match_prefix; [assumption | now apply guarded_trim | | now apply IH].
    rewrite !quote_free_append, (clauses_quote_free ks w Hks Hw).
    rewrite (letter_quote_free o Ho). now rewrite (plain_value_quote_free v Hv).
Qed.

Lemma quote_free_snoc (a : string) : quote_free (a ++ q) = false.
Proof. rewrite quote_free_append. cbn. now rewrite andb_false_r. Qed.

Lemma pattern_rest_one_quote (ks : list string) (p : string) :
  quote_free_words ks = true -> quote_free p = true ->
  pattern_rest ks (p ++ q) = None.
Proof.
  intros Hks Hp. destruct (pattern_rest ks (p ++ q)) as [r|] eqn:E; [|reflexivity].
  exfalso. apply pattern_rest_shape in E as (w & o & v & Hw & Ho & Hv & E).
  assert (E' : p ++ q ++ "" = (w ++ o) ++ q ++ (v ++ q ++ r)).
  { change (q ++ "") with q. rewrite E. now rewrite !append_assoc. }
  apply split_at_quote in E' as [_ E']; [destruct v; discriminate | assumption |].
  rewrite quote_free_append, (clauses_quote_free ks w Hks Hw).
  now apply letter_quote_free.
Qed.

(** The scan of the fixer can be cut after a settled text when what
    follows cannot end a word: up to its first double quote it holds a
    character that no word has. *)
Lemma trim_settled_prefix (ks : list string) (c : ascii) (u0 x pre : string) :
  quote_free_words ks = true ->
  (forall w, In w (clauses ks) -> has_char c w = false) ->
  has_char c "s" = false ->
  quote_free u0 = true -> has_char c u0 = true ->
  settled ks pre = true ->
  trimDoubleQuotesOnEnumField (pre ++ u0 ++ q ++ x) ks
  = trimDoubleQuotesOnEnumField pre ks
    ++ trimDoubleQuotesOnEnumField (u0 ++ q ++ x) ks.
Proof.
  intros Hks Hw Hs Hu0 Hc. unfold settled.
  induction pre as [pre Hnone IH | m rest Hm Hsome IH] using (scan_ind ks).
  - intros H. apply String.eqb_eq in H.
    destruct pre as [|d pre]; [now rewrite (trim_no_match _ _ Hnone)|].
    assert (Hq : pattern_rest ks (String d pre ++ q) = None).
    { destruct (pattern_rest ks (String d pre ++ q)) as [r|] eqn:E;
        [exfalso | reflexivity].
      pose proof (pattern_rest_shape _ _ _ E)
        as (w' & o' & v' & Hw' & Ho' & Hv' & E').
      assert (E2 : String d pre ++ q = (w' ++ o' ++ q ++ v') ++ q ++ r).
      { rewrite E'. now rewrite !append_assoc. }
      apply append_last_quote in E2 as [[-> E2]|(r' & -> & E2)].
      - assert (Hl : quote_free
                       (trimDoubleQuotesOnEnumField (String d pre ++ q) ks) = true).
        { rewrite E2.
          rewrite <- (append_nil_r ((w' ++ o' ++ q ++ v') ++ q)), !append_assoc.
          rewrite trim_word_value by assumption.
          rewrite (trim_no_match_anywhere ks "") by now apply quote_free_no_match.
          rewrite !quote_free_append, (clauses_quote_free ks w' Hks Hw').
          now rewrite (letter_quote_free o' Ho'), (plain_value_quote_free v' Hv'). }
        rewrite H in Hl. now rewrite quote_free_snoc in Hl.
      - rewrite E2, !append_assoc in Hnone.
        now rewrite (pattern_rest_word ks w' o' v' r' Hks Hw' Ho' Hv') in Hnone. }
    assert (Hr : pattern_rest ks (String d pre ++ u0 ++ q ++ x) = None).
    { destruct (pattern_rest ks (String d pre ++ u0 ++ q ++ x)) as [r|] eqn:E;
        [exfalso | reflexivity].
      destruct (first_quote_split (String d pre)) as [Hqp|(p1 & p2 & Ep & Hp1)].
      - rewrite <- append_assoc in E.
        apply match_before_quote in E as (w' & o' & Hw' & Ho' & E); [|assumption|].
        + apply (f_equal (has_char c)) in E.
          rewrite !has_char_append, Hc, orb_true_r, (Hw w' Hw') in E.
          destruct Ho' as [->| ->]; [discriminate | now rewrite Hs in E].
        + now rewrite quote_free_append, Hqp, Hu0.
      - apply pattern_rest_shape in E as (w' & o' & v' & Hw' & Ho' & Hv' & E).
        assert (E1 : p1 ++ q ++ (p2 ++ u0 ++ q ++ x)
                     = (w' ++ o') ++ q ++ (v' ++ q ++ r)).
        { transitivity (String d pre ++ u0 ++ q ++ x);
            [rewrite Ep | rewrite E]; now rewrite !append_assoc. }
        apply split_at_quote in E1 as [-> E1]; [|assumption|].
        2:{ rewrite quote_free_append, (clauses_quote_free ks w' Hks Hw').
            now apply letter_quote_free. }
        destruct (first_quote_split p2) as [Hq2|(u2 & p3 & -> & Hu2)].
        + assert (E3 : (p2 ++ u0) ++ q ++ x = v' ++ q ++ r).
          { rewrite <- E1. now rewrite !append_assoc. }
          apply split_at_quote in E3 as [E3 _];
            [|now rewrite quote_free_append, Hq2, Hu0
             |now apply plain_value_quote_free].
          rewrite <- E3, plain_value_append in Hv'.
          apply andb_true_iff in Hv' as [Hp2 _].
          assert (Hmatch : pattern_rest ks (((w' ++ o') ++ q ++ p2) ++ q) = Some "").
          { rewrite <- (append_nil_r (((w' ++ o') ++ q ++ p2) ++ q)), !append_assoc.
            now apply pattern_rest_word. }
          rewrite Ep in Hq. congruence.
        + assert (E3 : u2 ++ q ++ (p3 ++ u0 ++ q ++ x) = v' ++ q ++ r).
          { rewrite <- E1. now rewrite !append_assoc. }
          apply split_at_quote in E3 as [-> _];
            [|assumption | now apply plain_value_quote_free].
          rewrite Ep, !append_assoc in Hnone.
          now rewrite (pattern_rest_word ks w' o' v' p3 Hks Hw' Ho' Hv') in Hnone. }
    rewrite (trim_no_match _ _ Hnone) in *.
    rewrite (trim_no_match _ _ Hq) in H. rewrite (trim_no_match _ _ Hr).
    cbn [String.append] in *. injection H as H. f_equal.
    apply IH. now apply String.eqb_eq.
  - intros H. apply String.eqb_eq in H.
    pose proof (pattern_rest_extend ks m rest q Hks Hsome) as Hq.
    pose proof (pattern_rest_extend ks m rest (u0 ++ q ++ x) Hks Hsome) as Hr.
    apply trim_at_match in Hq as (m1 & E1 & _ & Ht1).
    apply trim_at_match in Hr as (m2 & E2 & _ & Ht2).
    apply trim_at_match in Hsome as (m3 & E3 & _ & Ht3).
    apply append_inv_tail in E1, E2, E3. subst m1 m2 m3.
    rewrite append_assoc, Ht2, Ht3, append_assoc. f_equal.
    apply IH. apply String.eqb_eq.
    rewrite append_assoc, Ht1, Ht3, append_assoc in H.
    now apply append_inv_head in H.
Qed.


Lemma quote_next_letter (o x : string) :
  letter o -> quote_next (o ++ q ++ x) = true.
Proof. intros [->| ->]; reflexivity. Qed.

Lemma word_before_quote_here (ks : list string) (w o x : string) :
  In w (clauses ks) -> letter o ->
  word_before_quote ks (w ++ o ++ q ++ x) = true.
Proof.
  intros Hw Ho.
  assert (H : existsb (fun w' => match strip_prefix w' (w ++ o ++ q ++ x) with
                                 | Some r => quote_next r
                                 | None => false
                                 end) (clauses ks) = true).
  { apply existsb_exists. exists w. split; [assumption|].
    now rewrite strip_prefix_append, quote_next_letter. }
  destruct (w ++ o ++ q ++ x); cbn [word_before_quote]; now rewrite H.
Qed.

Lemma word_before_quote_tail (ks : list string) (c : ascii) (s : string) :
  word_before_quote ks (String c s) = false -> word_before_quote ks s = false.
Proof. cbn [word_before_quote]. intros H. now apply orb_false_iff in H as [_ H]. Qed.

Lemma no_word_no_match (ks : list string) (s z : string) :
  quote_free_words ks = true -> word_before_quote ks s = false ->
  z = "" \/ z = q ->
  pattern_rest ks (s ++ z) = None.
Proof.
  intros Hks Hno Hz.
  destruct (pattern_rest ks (s ++ z)) as [r|] eqn:E; [exfalso | reflexivity].
  apply pattern_rest_shape in E as (w & o & v & Hw & Ho & Hv & E).
  assert (Hwo : quote_free (w ++ o) = true).
  { rewrite quote_free_append, (clauses_quote_free ks w Hks Hw).
    now apply letter_quote_free. }
  destruct (first_quote_split s) as [Hq|(y & x & -> & Hy)].
  - destruct Hz as [->| ->].
    + rewrite append_nil_r in E. rewrite E in Hq.
      rewrite !append_assoc in Hq. rewrite <- (append_assoc w) in Hq.
      now rewrite quote_free_q in Hq.
    + assert (E' : s ++ q ++ "" = (w ++ o) ++ q ++ (v ++ q ++ r)).
      { change (q ++ "") with q. rewrite E. now rewrite !append_assoc. }
      apply split_at_quote in E' as [_ E']; [|assumption..].
      destruct v; discriminate.
  - assert (E' : y ++ q ++ (x ++ z) = (w ++ o) ++ q ++ (v ++ q ++ r)).
    { rewrite <- !append_assoc. rewrite <- !append_assoc in E. rewrite E.
      now rewrite !append_assoc. }
    apply split_at_quote in E' as [-> _]; [|assumption..].
    rewrite append_assoc in Hno.
    now rewrite (word_before_quote_here ks w o x Hw Ho) in Hno.
Qed.

(** A text in which no search word, alone or with the letter s, stands
    directly before a double quote passes the fixer unchanged and leaves
    nothing open, whatever other double quotes it holds. *)
Lemma settled_no_word (ks : list string) (pre : string) :
  quote_free_words ks = true -> word_before_quote ks pre = false ->
  trimDoubleQuotesOnEnumField pre ks = pre /\ settled ks pre = true.
Proof.
  intros Hks Hno.
  assert (H : trimDoubleQuotesOnEnumField pre ks = pre
              /\ trimDoubleQuotesOnEnumField (pre ++ q) ks = pre ++ q).
  { induction pre as [|d pre IH].
    - split; [now apply trim_no_match_anywhere, quote_free_no_match|].
      rewrite (trim_no_match ks ("" ++ q)) by now apply pattern_rest_one_quote.
      cbn [String.append q].
      now rewrite (trim_no_match_anywhere ks "") by now apply quote_free_no_match.
    - destruct (IH (word_before_quote_tail ks d pre Hno)) as [IH1 IH2]. split.
      + rewrite trim_no_match; [now rewrite IH1|].
        rewrite <- (append_nil_r (String d pre)).
        apply no_word_no_match; auto.
      + rewrite trim_no_match; [cbn [String.append]; now rewrite IH2|].
        apply no_word_no_match; auto. }
  destruct H as [H1 H2]. split; [exact H1|].
  unfold settled. apply String.eqb_eq. now rewrite H1, H2.
Qed.

End Cuts.

(** ** The enum fixer: the literal example, internal quotes, a second pass *)

Section FixerClaims.

(** C2, as stated, fails: for the words sort: and direction: the fixer does
    not return the text with a blank after each colon. *)
Lemma trim_literal_example_spaced_refuted :
  trimDoubleQuotesOnEnumField quoted_pair ["sort:"; "direction:"]
  <> "sort: lastName, direction: ASC".
Proof. vm_compute. discriminate. Qed.

(** C2, amended: for the words sort: and direction: and the text made of
    sort: with the quoted lastName, a comma, a blank and direction: with
    the quoted ASC, the fixer returns the same text without the four double
    quotes and with nothing put in their place. *)
Theorem trim_literal_example :
  trimDoubleQuotesOnEnumField quoted_pair ["sort:"; "direction:"]
  = "sort:lastName, direction:ASC".
Proof. vm_compute. reflexivity. Qed.




(** The optional character of the pattern is the letter s, not a blank: a
    blank between the word and the quoted value keeps the fixer off, the
    letter s does not. *)
Lemma trim_letter_not_blank :
  trimDoubleQuotesOnEnumField ("sort: " ++ q ++ "a" ++ q) ["sort:"]
  = "sort: " ++ q ++ "a" ++ q
  /\ trimDoubleQuotesOnEnumField ("sort:s" ++ q ++ "a" ++ q) ["sort:"] = "sort:sa".
Proof. split; vm_compute; reflexivity. Qed.

(** C7, as stated, fails: on this text a second pass of the fixer with the
    same word still changes the result of the first. *)
Lemma trim_twice_refuted :
  trimDoubleQuotesOnEnumField
    (trimDoubleQuotesOnEnumField nested_word ["sort:"]) ["sort:"]
  <> trimDoubleQuotesOnEnumField nested_word ["sort:"].
Proof. vm_compute. discriminate. Qed.

(** C7, amended: the fixer is idempotent on every stable input.  For
    search words free of pattern syntax and of double quotes, and for every
    text in which each word-and-value that the scan replaces is followed,
    ahead of the next double quote, by a character that stands in no search
    word and is not the letter s (the comma or the brace that the query
    builder writes after a value), or by no double quote at all, applying
    the fixer twice equals applying it once.  Double quotes that the first
    pass leaves in the text, as those of a fieldValue, do no harm. *)
Theorem trim_twice (s : string) (ks : list string) :
  plain_words ks = true -> quote_free_words ks = true ->
  stable ks s = true ->
  trimDoubleQuotesOnEnumField (trimDoubleQuotesOnEnumField s ks) ks
  = trimDoubleQuotesOnEnumField s ks.
Proof.
  intros _ Hks Hst. apply trim_no_match_anywhere. now apply stable_no_match.
Qed.

Lemma trim_twice_witness :
  trimDoubleQuotesOnEnumField
    (trimDoubleQuotesOnEnumField sorted_and_valued enumSearchWords)
    enumSearchWords
  = trimDoubleQuotesOnEnumField sorted_and_valued enumSearchWords
  /\ trimDoubleQuotesOnEnumField sorted_and_valued enumSearchWords
     = "{sort:id,direction:ASC},fieldValue:" ++ q ++ "x" ++ q.
Proof.
  split.
  - apply (trim_twice sorted_and_valued enumSearchWords); reflexivity.
  - vm_compute. reflexivity.
Defined.

(** The texts on which a second pass changes the result are not stable:
    in both a replaced value is directly followed by a double quote. *)
Lemma unstable_examples :
  stable ["sort:"] nested_word = false
  /\ stable ["sort:"] ("sort:" ++ q ++ "sort:s" ++ q ++ q ++ "x" ++ q) = false
  /\ trimDoubleQuotesOnEnumField
       (trimDoubleQuotesOnEnumField
          ("sort:" ++ q ++ "sort:s" ++ q ++ q ++ "x" ++ q) ["sort:"]) ["sort:"]
     <> trimDoubleQuotesOnEnumField
          ("sort:" ++ q ++ "sort:s" ++ q ++ q ++ "x" ++ q) ["sort:"].
Proof.
  split; [vm_compute; reflexivity|]. split; [vm_compute; reflexivity|].
  vm_compute. discriminate.
Qed.

End FixerClaims.

(** ** The query builder *)

Section Builder.

Lemma toString_body (qb : QueryBuilder.Query) (body : string) :
  QueryBuilder.aliasS qb = None ->
  QueryBuilder.toString (QueryBuilder.withBody qb body)
  = Ok (node_text (QueryBuilder.fnNameS qb)
          (head_text (QueryBuilder.headA qb)) body).
Proof.
  intros H. unfold QueryBuilder.toString, QueryBuilder.withBody. cbn. rewrite H.
  unfold node_text, head_text. now destruct (QueryBuilder.headA qb).
Qed.

Lemma parceItem_selector :
  forall f, QueryBuilder.parceItem (selector_arg f) = Ok (selector_text f).
Proof.
  fix IH 1. intros [name|name subfields]; [reflexivity|].
  cbn [selector_arg QueryBuilder.parceItem selector_text].
  match goal with |- obind ?X _ = _ =>
    assert (H : X = Ok (map selector_text subfields)) end.
  { induction subfields as [|x l IHl]; [reflexivity|].
    cbn [map]. rewrite IH, IHl. reflexivity. }
  rewrite H. reflexivity.
Qed.

Lemma parceEach_selectors (fields : list FieldSelector) :
  QueryBuilder.parceEach (map selector_arg fields) = Ok (map selector_text fields).
Proof.
  induction fields as [|x l IH]; [reflexivity|].
  cbn [map QueryBuilder.parceEach]. now rewrite parceItem_selector, IH.
Qed.

Lemma find_selectors (qb : QueryBuilder.Query) (fields : list FieldSelector) :
  QueryBuilder.find qb (map selector_arg fields)
  = Ok (QueryBuilder.withBody qb (selection_text fields)).
Proof.
  unfold QueryBuilder.find, QueryBuilder.parceFind.
  now rewrite parceEach_selectors.
Qed.

Lemma find_cursor_node (qb : QueryBuilder.Query) (fields : list FieldSelector) :
  QueryBuilder.find qb
    [QueryBuilder.FString "cursor";
     QueryBuilder.FNested "node" (map selector_arg fields)]
  = Ok (QueryBuilder.withBody qb
          ("cursor," ++ node_text "node" "" (selection_text fields))).
Proof.
  unfold QueryBuilder.find, QueryBuilder.parceFind.
  cbn [QueryBuilder.parceEach QueryBuilder.parceItem obind].
  pose proof (parceItem_selector (Nested "node" fields)) as H.
  cbn [selector_arg QueryBuilder.parceItem] in H. rewrite H. reflexivity.
Qed.

Lemma filter_spec (qb : QueryBuilder.Query) (o : Obj) :
  QueryBuilder.filter qb (Some o)
  = {| QueryBuilder.fnNameS := QueryBuilder.fnNameS qb;
       QueryBuilder.aliasS := QueryBuilder.aliasS qb;
       QueryBuilder.headA := (QueryBuilder.headA qb ++ head_entries o)%list;
       QueryBuilder.bodyS := QueryBuilder.bodyS qb |}.
Proof.
  unfold QueryBuilder.filter. revert qb.
  induction o as [|[k v] o IH]; intros qb.
  - cbn. rewrite app_nil_r. now destruct qb.
  - cbn [fold_left]. rewrite IH. unfold head_entries. cbn [List.filter snd].
    destruct (QueryBuilder.is_empty_braces (QueryBuilder.getGraphQLValue v));
      cbn [negb map]; [reflexivity|].
    cbn. now rewrite <- app_assoc.
Qed.

Lemma filter_undefined (qb : QueryBuilder.Query) :
  QueryBuilder.filter qb None = qb.
Proof. reflexivity. Qed.

End Builder.

(** ** What buildQuery computes *)

Section BuildQuery.

Lemma buildQuery_unconfigured (st : State) :
  configured (serviceOptions st) = false ->
  buildQuery st = (Throw (Error requirement_message), st).
Proof.
  unfold configured, buildQuery, bind, getOptions. intros H.
  apply andb_false_iff in H.
  destruct (truthy_string (datasetName (serviceOptions st)));
    destruct (truthy_object (dataFilters (serviceOptions st)));
    try reflexivity.
  destruct H; discriminate.
Qed.

Lemma find_dataset (name kind b1 b2 : string) :
  QueryBuilder.find (QueryBuilder.newQuery name)
    [QueryBuilder.FString "totalCount";
     QueryBuilder.FQuery (QueryBuilder.withBody (QueryBuilder.newQuery "pageInfo") b1);
     QueryBuilder.FQuery (QueryBuilder.withBody (QueryBuilder.newQuery kind) b2)]
  = Ok (QueryBuilder.withBody (QueryBuilder.newQuery name)
          ("totalCount," ++ node_text "pageInfo" "" b1 ++ ","
           ++ node_text kind "" b2)).
Proof. reflexivity. Qed.

Lemma find_document (name body : string) (entries : list string) :
  obind
    (QueryBuilder.find (QueryBuilder.newQuery "query")
       [QueryBuilder.FQuery
          {| QueryBuilder.fnNameS := name; QueryBuilder.aliasS := None;
             QueryBuilder.headA := entries; QueryBuilder.bodyS := Some body |}])
    QueryBuilder.toString
  = Ok (node_text "query" "" (node_text name (head_text entries) body)).
Proof.
  unfold QueryBuilder.find, QueryBuilder.parceFind.
  cbn [QueryBuilder.parceEach QueryBuilder.parceItem obind].
  unfold QueryBuilder.toString at 1. cbn [QueryBuilder.bodyS QueryBuilder.aliasS].
  destruct entries; reflexivity.
Qed.

Lemma finish_some (name body : string) (o : Obj) :
  finish (QueryBuilder.withBody (QueryBuilder.newQuery name) body) (Some o)
  = Ok (trimDoubleQuotesOnEnumField
          (node_text "query" "" (node_text name (head_text (head_entries o)) body))
          enumSearchWords).
Proof.
  unfold finish. rewrite filter_spec.
  cbn [QueryBuilder.withBody QueryBuilder.newQuery QueryBuilder.fnNameS
       QueryBuilder.aliasS QueryBuilder.headA QueryBuilder.bodyS app].
  now rewrite find_document.
Qed.

Lemma finish_none (name body : string) :
  finish (QueryBuilder.withBody (QueryBuilder.newQuery name) body) None
  = Ok (trimDoubleQuotesOnEnumField
          (node_text "query" "" (node_text name "" body))
          enumSearchWords).
Proof.
  unfold finish. rewrite filter_undefined.
  change (QueryBuilder.withBody (QueryBuilder.newQuery name) body)
    with {| QueryBuilder.fnNameS := name; QueryBuilder.aliasS := None;
            QueryBuilder.headA := []; QueryBuilder.bodyS := Some body |}.
  now rewrite find_document.
Qed.

(** [buildQuery] from the point where the options have been read. *)
Lemma buildQuery_unfold (st : State) :
  configured (serviceOptions st) = true ->
  buildQuery st =
  let so := serviceOptions st in
  let datasetQb :=
    QueryBuilder.withBody (QueryBuilder.newQuery (name_of so))
      ("totalCount," ++ pageInfo_text (truthy_bool (isWithCursor so)) ++ ","
       ++ data_text (truthy_bool (isWithCursor so)) (fields_of so)) in
  let datasetFilters := read (paginationOptions so) in
  match
    (when (truthy_object (sortingOptions so))
       (setProp datasetFilters "orderBy"
          (list_value sorting_value (sortingOptions so))) ;;
     when (truthy_object (filteringOptions so))
       (setProp datasetFilters "filterBy"
          (list_value filtering_value (filteringOptions so)))) st
  with
  | (Ok _, st') =>
      (finish datasetQb
         (match datasetFilters with Some l => store st' !! l | None => None end),
       st')
  | (Throw e, st') => (Throw e, st')
  end.
Proof.
  intros Hc. unfold configured in Hc. apply andb_true_iff in Hc as [Hn Hf].
  unfold buildQuery, bind at 1, getOptions. rewrite Hn, Hf. cbn [negb orb].
  cbv zeta. unfold name_of, fields_of.
  destruct (dataFilters (serviceOptions st)) as [| |fields]; try discriminate.
  destruct (truthy_bool (isWithCursor (serviceOptions st))).
  - unfold bind at 1, lift at 1. cbn [QueryBuilder.find QueryBuilder.parceFind
      QueryBuilder.parceEach QueryBuilder.parceItem obind].
    unfold bind at 1, lift at 1. rewrite find_cursor_node.
    unfold bind at 1, lift at 1.
    rewrite (find_dataset _ "edges").
    unfold bind.
    destruct (when _ _ st) as [[[]|e] st1]; [|reflexivity].
    destruct (when _ _ st1) as [[[]|e] st']; [|reflexivity].
    unfold deref, lift, ret, finish.
    destruct (obind (QueryBuilder.find _ _) _) eqn:E.
    + unfold obind in E.
      destruct (QueryBuilder.find _ _); [|discriminate]. now rewrite E.
    + unfold obind in E.
      destruct (QueryBuilder.find _ _); [now rewrite E|]. now injection E as ->.
  - unfold bind at 1, lift at 1. cbn [QueryBuilder.find QueryBuilder.parceFind
      QueryBuilder.parceEach QueryBuilder.parceItem obind].
    unfold bind at 1, lift at 1. rewrite find_selectors.
    unfold bind at 1, lift at 1.
    rewrite (find_dataset _ "nodes").
    unfold bind.
    destruct (when _ _ st) as [[[]|e] st1]; [|reflexivity].
    destruct (when _ _ st1) as [[[]|e] st']; [|reflexivity].
    unfold deref, lift, ret, finish.
    destruct (obind (QueryBuilder.find _ _) _) eqn:E.
    + unfold obind in E.
      destruct (QueryBuilder.find _ _); [|discriminate]. now rewrite E.
    + unfold obind in E.
      destruct (QueryBuilder.find _ _); [now rewrite E|]. now injection E as ->.
Qed.

Lemma buildQuery_object (st : State) (l : loc) (o : Obj) :
  configured (serviceOptions st) = true ->
  paginationOptions (serviceOptions st) = Value l ->
  store st !! l = Some o ->
  buildQuery st =
  (Ok (trimDoubleQuotesOnEnumField
         (document_text (name_of (serviceOptions st))
            (head_entries (written (serviceOptions st) o))
            (truthy_bool (isWithCursor (serviceOptions st)))
            (fields_of (serviceOptions st)))
         enumSearchWords),
   {| serviceOptions := serviceOptions st;
      store := <[l := written (serviceOptions st) o]> (store st) |}).
Proof.
  intros Hc Hp Ho. rewrite (buildQuery_unfold st Hc). cbv zeta.
  rewrite Hp. cbn [read].
  unfold written, with_orderBy, with_filterBy, bind, when, setProp, ret.
  destruct st as [so σ]. cbn [serviceOptions store] in *.
  destruct (truthy_object (sortingOptions so)),
           (truthy_object (filteringOptions so));
    cbn [serviceOptions store]; rewrite ?Ho; cbn [serviceOptions store];
    rewrite ?lookup_insert_eq; cbn [serviceOptions store];
    rewrite ?lookup_insert_eq, ?Ho, ?insert_insert_eq, finish_some;
    try reflexivity.
  now rewrite (insert_id σ l o Ho).
Qed.

(** Without a pagination object the arguments are written to nothing. *)
Lemma buildQuery_no_object (st : State) :
  configured (serviceOptions st) = true ->
  pagination_object st = None ->
  buildQuery st =
  if truthy_object (sortingOptions (serviceOptions st))
     || truthy_object (filteringOptions (serviceOptions st))
  then (Throw TypeError, st)
  else
    (Ok (trimDoubleQuotesOnEnumField
           (document_text (name_of (serviceOptions st)) []
              (truthy_bool (isWithCursor (serviceOptions st)))
              (fields_of (serviceOptions st)))
           enumSearchWords),
     st).
Proof.
  intros Hc Hp. rewrite (buildQuery_unfold st Hc). cbv zeta.
  unfold pagination_object in Hp.
  unfold bind, when, setProp, ret.
  destruct (read (paginationOptions (serviceOptions st))) as [l|].
  - destruct (truthy_object (sortingOptions (serviceOptions st))),
             (truthy_object (filteringOptions (serviceOptions st)));
      cbn [orb]; rewrite ?Hp; try reflexivity; now rewrite finish_none.
  - destruct (truthy_object (sortingOptions (serviceOptions st))),
             (truthy_object (filteringOptions (serviceOptions st)));
      cbn [orb]; try reflexivity; now rewrite finish_none.
Qed.

End BuildQuery.

(** ** Containment *)

(** Two texts built from the same pieces in the same order. *)
Ltac text_eq :=
  unfold node_text; rewrite ?append_assoc; cbn [String.append];
  rewrite ?append_assoc; reflexivity.

Section Containment.

Lemma includes_head (w b : string) : includes w (w ++ b) = true.
Proof. apply includes_spec. now exists "", b. Qed.

Lemma includes_skip_l (w a s : string) :
  includes w s = true -> includes w (a ++ s) = true.
Proof.
  intros H. apply includes_spec in H as (x & y & ->).
  apply includes_spec. exists (a ++ x), y. now rewrite append_assoc.
Qed.

Lemma includes_skip_r (w s b : string) :
  includes w s = true -> includes w (s ++ b) = true.
Proof.
  intros H. apply includes_spec in H as (x & y & ->).
  apply includes_spec. exists x, (y ++ b). now rewrite !append_assoc.
Qed.

Lemma includes_refl (w : string) : includes w w = true.
Proof. rewrite <- (append_nil_r w) at 2. apply includes_head. Qed.

Lemma includes_node_body (w name head body : string) :
  includes w body = true -> includes w (node_text name head body) = true.
Proof.
  intros H. unfold node_text.
  do 5 apply includes_skip_l. now apply includes_skip_r.
Qed.

Lemma includes_node_head (w name head body : string) :
  includes w head = true -> includes w (node_text name head body) = true.
Proof.
  intros H. unfold node_text.
  do 3 apply includes_skip_l. now apply includes_skip_r.
Qed.

Lemma includes_pageInfo (name : string) (entries : list string)
  (cursor : bool) (fields : list FieldSelector) :
  includes (pageInfo_text cursor) (document_text name entries cursor fields) = true.
Proof.
  unfold document_text. do 2 apply includes_node_body.
  apply includes_skip_l, includes_head.
Qed.

Lemma includes_data (name : string) (entries : list string)
  (cursor : bool) (fields : list FieldSelector) :
  includes (data_text cursor fields) (document_text name entries cursor fields) = true.
Proof.
  unfold document_text. do 2 apply includes_node_body.
  do 3 apply includes_skip_l. apply includes_refl.
Qed.

End Containment.

(** ** The assembled document *)

Section Assembled.

(** A successful [buildQuery] returns the fixed text of the document whose
    arguments are the entries of the stored pagination object. *)
Lemma buildQuery_ok_inv (st st' : State) (text : string) :
  buildQuery st = (Ok text, st') ->
  configured (serviceOptions st) = true /\
  serviceOptions st' = serviceOptions st /\
  exists entries,
    text = trimDoubleQuotesOnEnumField
             (document_text (name_of (serviceOptions st)) entries
                (truthy_bool (isWithCursor (serviceOptions st)))
                (fields_of (serviceOptions st)))
             enumSearchWords /\
    entries = match pagination_object st' with
              | Some o => head_entries o
              | None => []
              end.
Proof.
  intros H.
  destruct (configured (serviceOptions st)) eqn:Hc.
  2:{ rewrite (buildQuery_unconfigured st Hc) in H. discriminate. }
  split; [reflexivity|].
  destruct (pagination_object st) as [o|] eqn:Hp.
  - unfold pagination_object in Hp.
    destruct (paginationOptions (serviceOptions st)) as [| |l] eqn:El;
      try discriminate. cbn [read] in Hp.
    rewrite (buildQuery_object st l o Hc El Hp) in H.
    injection H as <- <-. cbn [serviceOptions]. split; [reflexivity|].
    eexists. split; [reflexivity|].
    unfold pagination_object. cbn [serviceOptions store]. rewrite El. cbn [read].
    now rewrite lookup_insert_eq.
  - rewrite (buildQuery_no_object st Hc Hp) in H.
    destruct (_ || _); [discriminate|]. injection H as <- <-.
    split; [reflexivity|]. exists []. split; [reflexivity|]. now rewrite Hp.
Qed.

(** C3: on every state on which buildQuery succeeds, the returned text is
    the fixed text of a document whose pageInfo node selects hasNextPage
    and endCursor and whose data node is edges with cursor and a nested
    node holding the field selection when isWithCursor is true, and whose
    pageInfo node selects hasNextPage alone and whose data node is nodes
    holding the field selection directly when it is not.  The pageInfo node
    stands in the returned text as written, and so does the data node when
    the field selection holds no double quote. *)
Theorem buildQuery_mode (st st' : State) (text : string) :
  buildQuery st = (Ok text, st') ->
  let so := serviceOptions st in
  let selection := selection_text (fields_of so) in
  let pageInfo :=
    if truthy_bool (isWithCursor so)
    then " pageInfo   { hasNextPage,endCursor }"
    else " pageInfo   { hasNextPage }" in
  let data :=
    if truthy_bool (isWithCursor so)
    then " edges   { cursor, node   { " ++ selection ++ " } }"
    else " nodes   { " ++ selection ++ " }" in
  (exists head,
     text = trimDoubleQuotesOnEnumField
              (" query   {  " ++ name_of so ++ " " ++ head
               ++ "  { totalCount," ++ pageInfo ++ "," ++ data ++ " } }")
              enumSearchWords)
  /\ includes pageInfo text = true
  /\ (quote_free selection = true -> includes data text = true).
Proof.
  intros H so selection pageInfo data.
  apply buildQuery_ok_inv in H as (_ & _ & entries & -> & _).
  fold so.
  assert (Epi : pageInfo = pageInfo_text (truthy_bool (isWithCursor so))).
  { unfold pageInfo. now destruct (truthy_bool (isWithCursor so)). }
  assert (Edata : data = data_text (truthy_bool (isWithCursor so)) (fields_of so)).
  { unfold data, data_text, node_text, selection.
    destruct (truthy_bool (isWithCursor so)); text_eq. }
  split; [|split].
  - exists (head_text entries). f_equal. rewrite Epi, Edata.
    unfold document_text. text_eq.
  - rewrite Epi. apply includes_trim; [now destruct (truthy_bool _)|].
    apply includes_pageInfo.
  - intros Hq. rewrite Edata. apply includes_trim; [|apply includes_data].
    unfold data_text, node_text. fold selection.
    destruct (truthy_bool (isWithCursor so));
      now rewrite !quote_free_append, Hq.
Qed.

Lemma buildQuery_mode_witness :
  buildQuery users_cursor
  = (Ok " query   {  users (first:20)  { totalCount, pageInfo   { hasNextPage,endCursor }, edges   { cursor, node   { name, address   { city } } } } }",
     users_cursor)
  /\ includes " pageInfo   { hasNextPage,endCursor }"
       " query   {  users (first:20)  { totalCount, pageInfo   { hasNextPage,endCursor }, edges   { cursor, node   { name, address   { city } } } } }"
     = true.
Proof.
  assert (H : buildQuery users_cursor
    = (Ok " query   {  users (first:20)  { totalCount, pageInfo   { hasNextPage,endCursor }, edges   { cursor, node   { name, address   { city } } } } }",
       users_cursor)) by (vm_compute; reflexivity).
  split; [exact H|].
  exact (proj1 (proj2 (buildQuery_mode users_cursor users_cursor _ H))).
Defined.

End Assembled.

(** ** Objects and options *)

Section Objects.

Lemma obj_get_set_eq (o : Obj) (k : string) (v : JSValue) :
  obj_get (obj_set o k v) k = Some v.
Proof.
  induction o as [|[k' v'] o IH]; cbn [obj_set obj_get].
  - now rewrite String.eqb_refl.
  - destruct (String.eqb k' k) eqn:E; cbn [obj_get]; now rewrite E.
Qed.

Lemma obj_get_set_ne (o : Obj) (k k' : string) (v : JSValue) :
  k <> k' -> obj_get (obj_set o k v) k' = obj_get o k'.
Proof.
  intros Hne. induction o as [|[k0 v0] o IH]; cbn [obj_set obj_get].
  - apply String.eqb_neq in Hne. now rewrite Hne.
  - destruct (String.eqb k0 k) eqn:E; cbn [obj_get].
    + apply String.eqb_eq in E. subst k0.
      apply String.eqb_neq in Hne. now rewrite Hne.
    + destruct (String.eqb k0 k'); [reflexivity | exact IH].
Qed.

Lemma obj_get_set_some (o : Obj) (k k' : string) (v : JSValue) :
  is_Some (obj_get o k') -> is_Some (obj_get (obj_set o k v) k').
Proof.
  intros H. destruct (String.eqb_spec k k') as [->|Hne].
  - rewrite obj_get_set_eq. now eexists.
  - now rewrite obj_get_set_ne.
Qed.

Lemma obj_keys_set (o : Obj) (k k' : string) (v : JSValue) :
  In k' (obj_keys (obj_set o k v)) -> k' = k \/ In k' (obj_keys o).
Proof.
  unfold obj_keys. induction o as [|[k0 v0] o IH]; cbn [obj_set map In].
  - intros [<-|[]]. now left.
  - destruct (String.eqb k0 k) eqn:E; cbn [map In fst].
    + intros [<-|H]; right; [now left | now right].
    + intros [<-|H]; [right; now left|].
      destruct (IH H) as [->|H']; [now left | right; now right].
Qed.

Lemma written_keys (so : GraphqlServiceOption) (o : Obj) (k : string) :
  In k (obj_keys (written so o)) ->
  k = "orderBy" \/ k = "filterBy" \/ In k (obj_keys o).
Proof.
  unfold written, with_filterBy, with_orderBy. intros H.
  destruct (truthy_object (filteringOptions so)),
           (truthy_object (sortingOptions so)); auto.
  - apply obj_keys_set in H as [->|H]; auto.
    apply obj_keys_set in H as [->|H]; auto.
  - apply obj_keys_set in H as [->|H]; auto.
  - apply obj_keys_set in H as [->|H]; auto.
Qed.

Lemma written_some (so : GraphqlServiceOption) (o : Obj) (k : string) :
  is_Some (obj_get o k) -> is_Some (obj_get (written so o) k).
Proof.
  intros H. unfold written, with_filterBy, with_orderBy.
  destruct (truthy_object (filteringOptions so)),
           (truthy_object (sortingOptions so));
    auto using obj_get_set_some.
Qed.

Lemma written_other (so : GraphqlServiceOption) (o : Obj) (k : string) :
  k <> "orderBy" -> k <> "filterBy" ->
  obj_get (written so o) k = obj_get o k.
Proof.
  intros H1 H2. unfold written, with_filterBy, with_orderBy.
  destruct (truthy_object (filteringOptions so)),
           (truthy_object (sortingOptions so));
    rewrite ?obj_get_set_ne; auto.
Qed.

Lemma written_orderBy (so : GraphqlServiceOption) (o : Obj) :
  obj_get (written so o) "orderBy" =
  if truthy_object (sortingOptions so)
  then Some (list_value sorting_value (sortingOptions so))
  else obj_get o "orderBy".
Proof.
  unfold written, with_filterBy, with_orderBy.
  destruct (truthy_object (filteringOptions so)),
           (truthy_object (sortingOptions so));
    rewrite ?obj_get_set_ne by discriminate; rewrite ?obj_get_set_eq; reflexivity.
Qed.

Lemma written_filterBy (so : GraphqlServiceOption) (o : Obj) :
  obj_get (written so o) "filterBy" =
  if truthy_object (filteringOptions so)
  then Some (list_value filtering_value (filteringOptions so))
  else obj_get o "filterBy".
Proof.
  unfold written, with_filterBy, with_orderBy.
  destruct (truthy_object (filteringOptions so)),
           (truthy_object (sortingOptions so));
    rewrite ?obj_get_set_eq; rewrite ?obj_get_set_ne by discriminate; reflexivity.
Qed.

Lemma merge_empty (so : GraphqlServiceOption) : merge so emptyOptions = so.
Proof. now destruct so. Qed.

End Objects.

(** ** The failure modes of buildQuery *)

Section Failures.

(** What [buildQuery] does, case by case: the requirement error exactly
    when the dataset name or the field selection is missing; otherwise a
    type error exactly when the sorting or the filtering options are set
    and there is no pagination object to write them to; otherwise a text. *)
Lemma buildQuery_outcome (st : State) :
  match fst (buildQuery st) with
  | Throw (Error m) =>
      m = requirement_message /\ configured (serviceOptions st) = false
  | Throw TypeError =>
      configured (serviceOptions st) = true /\ pagination_object st = None /\
      truthy_object (sortingOptions (serviceOptions st))
      || truthy_object (filteringOptions (serviceOptions st)) = true
  | Throw (ReferenceError _) => False
  | Ok _ =>
      configured (serviceOptions st) = true /\
      (pagination_object st = None ->
       truthy_object (sortingOptions (serviceOptions st))
       || truthy_object (filteringOptions (serviceOptions st)) = false)
  end.
Proof.
  destruct (configured (serviceOptions st)) eqn:Hc.
  2:{ rewrite (buildQuery_unconfigured st Hc). cbn. now split. }
  destruct (pagination_object st) as [o|] eqn:Hp.
  - unfold pagination_object in Hp.
    destruct (paginationOptions (serviceOptions st)) as [| |l] eqn:El;
      try discriminate. cbn [read] in Hp.
    rewrite (buildQuery_object st l o Hc El Hp). cbn. split; [reflexivity|].
    discriminate.
  - rewrite (buildQuery_no_object st Hc Hp).
    destruct (_ || _); cbn; repeat split; reflexivity.
Qed.

(** C1: the claim holds one way only.  A missing dataset name or field
    selection gives the requirement error ([buildQuery_outcome]), but a
    state where both are set can still fail: with sorting options set and
    no pagination options, as after initOptions with a dataset name and a
    field selection followed by one sort event, buildQuery throws a type
    error where the claim promises a query text. *)
Theorem buildQuery_sorted_without_pagination_throws :
  configured (serviceOptions sorted_without_pagination) = true
  /\ buildQuery sorted_without_pagination
     = (Throw TypeError, sorted_without_pagination)
  /\ (initOptions (Some users_options) ;; onSortChanged empty_multi_sort)
       fresh_service
     = (Throw TypeError, sorted_without_pagination).
Proof. repeat split; vm_compute; reflexivity. Qed.

End Failures.

(** ** updateOptions *)

Section Update.

(** C9: updateOptions is a shallow merge.  Every key present in the partial
    options takes the value it has there, whole: the pagination options read
    through the merged options are the object of the partial options, with
    none of the keys of the object stored before.  Every key absent from the
    partial options keeps its value, no stored object changes, and without
    an argument the options stay as they are. *)
Theorem updateOptions_shallow (st : State) (partial : GraphqlServiceOption) :
  let st' := snd (updateOptions (Some partial) st) in
  let so := serviceOptions st in
  let so' := serviceOptions st' in
  fst (updateOptions (Some partial) st) = Ok tt
  /\ store st' = store st
  /\ datasetName so'
     = (if present (datasetName partial) then datasetName partial else datasetName so)
  /\ dataFilters so'
     = (if present (dataFilters partial) then dataFilters partial else dataFilters so)
  /\ isWithCursor so'
     = (if present (isWithCursor partial) then isWithCursor partial else isWithCursor so)
  /\ paginationOptions so'
     = (if present (paginationOptions partial)
        then paginationOptions partial else paginationOptions so)
  /\ sortingOptions so'
     = (if present (sortingOptions partial)
        then sortingOptions partial else sortingOptions so)
  /\ filteringOptions so'
     = (if present (filteringOptions partial)
        then filteringOptions partial else filteringOptions so)
  /\ (present (paginationOptions partial) = true ->
      pagination_object st'
      = pagination_object {| serviceOptions := partial; store := store st |})
  /\ updateOptions None st = (Ok tt, st).
Proof.
  cbv zeta. unfold updateOptions, bind, getOptions, setOptions.
  cbn [fst snd serviceOptions store merge datasetName dataFilters isWithCursor
       paginationOptions sortingOptions filteringOptions].
  repeat split.
  - now destruct (datasetName partial).
  - now destruct (dataFilters partial).
  - now destruct (isWithCursor partial).
  - now destruct (paginationOptions partial).
  - now destruct (sortingOptions partial).
  - now destruct (filteringOptions partial).
  - intros H. unfold pagination_object, merge.
    cbn [serviceOptions store paginationOptions].
    destruct (paginationOptions partial); [discriminate | reflexivity..].
  - rewrite merge_empty. now destruct st.
Qed.

End Update.

(** ** buildQuery writes into the stored pagination object *)

Section Aliasing.

(** C10: buildQuery is not read-only.  The arguments it fills in are the
    stored pagination object itself: after a successful call the options
    still hold the same reference, and the object stored under it has an
    orderBy key when the sorting options are set and a filterBy key when
    the filtering options are set.  A call never removes a key of that
    object, and the text it returns lists the keys of the stored object:
    an orderBy or filterBy written by an earlier call stays, with its
    value, in the object and in the text of later calls even when the
    sorting or the filtering options are no longer set. *)
Theorem buildQuery_writes_through (st st' : State) (text : string) :
  buildQuery st = (Ok text, st') ->
  let so := serviceOptions st in
  serviceOptions st' = so
  /\ (truthy_object (sortingOptions so) || truthy_object (filteringOptions so) = true ->
      exists l o,
        paginationOptions so = Value l /\ store st !! l = Some o /\
        store st' !! l = Some (written so o) /\
        (truthy_object (sortingOptions so) = true ->
         obj_get (written so o) "orderBy"
         = Some (list_value sorting_value (sortingOptions so))) /\
        (truthy_object (filteringOptions so) = true ->
         obj_get (written so o) "filterBy"
         = Some (list_value filtering_value (filteringOptions so))))
  /\ (forall l o,
        paginationOptions so = Value l -> store st !! l = Some o ->
        exists o',
          store st' !! l = Some o' /\
          text = trimDoubleQuotesOnEnumField
                   (document_text (name_of so) (head_entries o')
                      (truthy_bool (isWithCursor so)) (fields_of so))
                   enumSearchWords /\
          (forall k, is_Some (obj_get o k) -> is_Some (obj_get o' k)) /\
          (truthy_object (sortingOptions so) = false ->
           obj_get o' "orderBy" = obj_get o "orderBy") /\
          (truthy_object (filteringOptions so) = false ->
           obj_get o' "filterBy" = obj_get o "filterBy")).
Proof.
  intros H so.
  pose proof (buildQuery_outcome st) as Hout. rewrite H in Hout.
  cbn [fst] in Hout. destruct Hout as [Hc Hnone]. fold so in Hc, Hnone.
  assert (Hobj : forall l o,
    paginationOptions so = Value l -> store st !! l = Some o ->
    text = trimDoubleQuotesOnEnumField
             (document_text (name_of so) (head_entries (written so o))
                (truthy_bool (isWithCursor so)) (fields_of so))
             enumSearchWords /\
    st' = {| serviceOptions := so; store := <[l := written so o]> (store st) |}).
  { intros l o El Ho. rewrite (buildQuery_object st l o Hc El Ho) in H.
    now injection H as <- <-. }
  split; [|split].
  - now apply buildQuery_ok_inv in H as (_ & E & _).
  - intros Hset.
    destruct (pagination_object st) as [o|] eqn:Hp.
    2:{ rewrite (Hnone eq_refl) in Hset. discriminate. }
    unfold pagination_object in Hp. fold so in Hp.
    destruct (paginationOptions so) as [| |l] eqn:El; try discriminate.
    cbn [read] in Hp. exists l, o.
    destruct (Hobj l o eq_refl Hp) as [_ ->]. cbn [store].
    rewrite lookup_insert_eq.
    split; [reflexivity|]. split; [exact Hp|]. split; [reflexivity|]. split.
    + intros Hs. now rewrite written_orderBy, Hs.
    + intros Hf. now rewrite written_filterBy, Hf.
  - intros l o El Ho. exists (written so o).
    destruct (Hobj l o El Ho) as [-> ->]. cbn [store].
    rewrite lookup_insert_eq.
    split; [reflexivity|]. split; [reflexivity|]. split; [|split].
    + intros k. apply written_some.
    + intros Hs. now rewrite written_orderBy, Hs.
    + intros Hf. now rewrite written_filterBy, Hf.
Qed.

Lemma buildQuery_writes_through_witness :
  obj_get [("first", VNumber 20); ("offset", VNumber 40)] "orderBy" = None
  /\ exists text st',
       buildQuery users_sorted = (Ok text, st') /\
       serviceOptions st' = serviceOptions users_sorted /\
       exists o', store st' !! 0%nat = Some o' /\
         obj_get o' "orderBy" = Some (VArray [sorting_value defaultOrderBy]).
Proof.
  split; [reflexivity|].
  destruct (buildQuery users_sorted) as [[text|e] st'] eqn:E;
    [|vm_compute in E; discriminate].
  exists text, st'. split; [reflexivity|].
  destruct (buildQuery_writes_through users_sorted st' text E) as (Hso & Hw & _).
  split; [exact Hso|].
  destruct (Hw eq_refl) as (l & o & El & Ho & Hst & Hord & _).
  injection El as <-. exists (written (serviceOptions users_sorted) o).
  split; [exact Hst|]. exact (Hord eq_refl).
Defined.

End Aliasing.

(** ** A pagination event *)

Section Pagination.

Lemma onPaginationChanged_unfold (args : PaginationChangedArgs) (st : State) :
  onPaginationChanged args st =
  let l := fresh (dom (store st)) in
  buildQuery
    {| serviceOptions :=
         merge (serviceOptions st) (only_paginationOptions l);
       store :=
         <[l := if truthy_bool (isWithCursor (serviceOptions st))
                then [("first", VNumber (pageSize args))]
                else [("first", VNumber (pageSize args));
                      ("offset", VNumber ((newPage args - 1) * pageSize args))]]>
           (store st) |}.
Proof. reflexivity. Qed.

Lemma merge_pagination (so : GraphqlServiceOption) (l : loc) :
  merge so (only_paginationOptions l)
  = {| datasetName := datasetName so; dataFilters := dataFilters so;
       isWithCursor := isWithCursor so; paginationOptions := Value l;
       sortingOptions := sortingOptions so;
       filteringOptions := filteringOptions so |}.
Proof. reflexivity. Qed.

Lemma quote_free_uint (d : Decimal.uint) :
  quote_free (NilEmpty.string_of_uint d) = true.
Proof. induction d; cbn; assumption || reflexivity. Qed.

Lemma quote_free_number (n : Z) : quote_free (number_text n) = true.
Proof.
  unfold number_text, NilZero.string_of_int, NilZero.string_of_uint.
  destruct (Z.to_int n) as [d|d]; destruct d; cbn; try reflexivity;
    apply quote_free_uint.
Qed.

Lemma join_cons (sep x : string) (l : list string) :
  join sep (x :: l) = x ++ join_rest sep l.
Proof. destruct l; cbn [join join_rest]; [now rewrite append_nil_r | reflexivity]. Qed.

Lemma join_rest_cons (sep x : string) (l : list string) :
  join_rest sep (x :: l) = sep ++ x ++ join_rest sep l.
Proof. unfold join_rest at 1. now rewrite join_cons. Qed.

Lemma head_text_cons (x : string) (l : list string) :
  head_text (x :: l) = "(" ++ x ++ join_rest "," l ++ ")".
Proof. unfold head_text. now rewrite join_cons, append_assoc. Qed.

Lemma head_entries_number (k : string) (n : Z) (o : Obj) :
  head_entries ((k, VNumber n) :: o)
  = (k ++ ":" ++ number_text n) :: head_entries o.
Proof. reflexivity. Qed.

Lemma written_page_object (so : GraphqlServiceOption) (cursor : bool)
  (args : PaginationChangedArgs) :
  written so (page_object cursor args)
  = (page_object cursor args ++ extra_entries so)%list.
Proof.
  unfold written, with_filterBy, with_orderBy, extra_entries, page_object.
  destruct cursor, (truthy_object (sortingOptions so)),
    (truthy_object (filteringOptions so)); reflexivity.
Qed.

Lemma head_entries_extra (so : GraphqlServiceOption) :
  exists tail,
    join_rest "," (head_entries (extra_entries so)) ++ ")"
    = next_argument so ++ tail.
Proof.
  unfold extra_entries, next_argument, list_value.
  destruct (sortingOptions so) as [| |sorts], (filteringOptions so) as [| |filters];
    cbn [truthy_object app]; unfold head_entries;
    cbn [List.filter snd QueryBuilder.getGraphQLValue QueryBuilder.is_empty_braces
         String.eqb Ascii.eqb Bool.eqb String.append negb map];
    rewrite ?join_rest_cons; unfold entry_text; cbn [fst snd];
    try (now exists ""); eexists; text_eq.
Qed.

(** C6: for every page size and page number (safe integers, so that the
    product is exact), onPaginationChanged stores a new pagination object.
    In offset mode the object is first: pageSize, offset: (newPage - 1) *
    pageSize; in cursor mode it is first: pageSize alone and has no offset
    key.  The only other keys the stored object can have after the call are
    the orderBy and filterBy that buildQuery adds on a configured service
    whose sorting or filtering options are set.  On a configured service
    the call returns the text built from the stored object: in offset mode
    first and offset stand in it with these numbers next to each other, in
    cursor mode first is followed by the end of the arguments or by orderBy
    or filterBy, never by offset. *)
Theorem onPaginationChanged_shape (st : State) (args : PaginationChangedArgs) :
  safe_integer (pageSize args) -> safe_integer (newPage args) ->
  safe_integer (newPage args - 1) ->
  safe_integer ((newPage args - 1) * pageSize args) ->
  let so := serviceOptions st in
  let cursor := truthy_bool (isWithCursor so) in
  let offset := ((newPage args - 1) * pageSize args)%Z in
  let created :=
    if cursor
    then [("first", VNumber (pageSize args))]
    else [("first", VNumber (pageSize args)); ("offset", VNumber offset)] in
  let added := if configured so then extra_entries so else [] in
  let o := (created ++ added)%list in
  pagination_object (snd (onPaginationChanged args st)) = Some o
  /\ obj_get o "first" = Some (VNumber (pageSize args))
  /\ obj_get o "offset" = (if cursor then None else Some (VNumber offset))
  /\ (configured so = true ->
      exists text,
        fst (onPaginationChanged args st) = Ok text /\
        text = trimDoubleQuotesOnEnumField
                 (document_text (name_of so) (head_entries o) cursor (fields_of so))
                 enumSearchWords /\
        includes
          ("(first:" ++ number_text (pageSize args)
           ++ (if cursor then "" else ",offset:" ++ number_text offset)
           ++ next_argument so)
          text = true).
Proof.
  intros _ _ _ _ so cursor offset created added o.
  assert (Hwp : written so created = (created ++ extra_entries so)%list)
    by exact (written_page_object so cursor args).
  set (l := fresh (dom (store st))).
  set (st1 := {| serviceOptions := merge so (only_paginationOptions l);
                 store := <[l := created]> (store st) |}).
  assert (H1 : onPaginationChanged args st = buildQuery st1) by reflexivity.
  assert (Hc1 : configured (serviceOptions st1) = configured so) by reflexivity.
  assert (Hw : written (serviceOptions st1) created = written so created)
    by reflexivity.
  assert (Hfirst : obj_get o "first" = Some (VNumber (pageSize args))).
  { unfold o, created, page_object. now destruct cursor. }
  assert (Hoffset :
    obj_get o "offset" = (if cursor then None else Some (VNumber offset))).
  { unfold o, created, page_object, added, extra_entries.
    destruct cursor; [|reflexivity].
    now destruct (configured so), (truthy_object (sortingOptions so)),
      (truthy_object (filteringOptions so)). }
  destruct (configured so) eqn:Hc.
  - pose proof (buildQuery_object st1 l created Hc1 eq_refl
                  (lookup_insert_eq _ _ _)) as H2.
    rewrite Hw, Hwp in H2.
    change (created ++ extra_entries so)%list with o in H2.
    split; [|split; [exact Hfirst|split; [exact Hoffset|]]].
    { rewrite H1, H2. unfold pagination_object.
      cbn [snd serviceOptions store st1 paginationOptions merge
           only_paginationOptions spread read]. apply lookup_insert_eq. }
    intros _. eexists. split; [now rewrite H1, H2|]. split; [reflexivity|].
    assert (Hnext : quote_free (next_argument so) = true).
    { unfold next_argument.
      now destruct (truthy_object (sortingOptions so)),
                   (truthy_object (filteringOptions so)). }
    destruct (head_entries_extra so) as (tail & Htail).
    apply includes_trim.
    { destruct cursor;
        now rewrite !quote_free_append, ?quote_free_number, Hnext. }
    unfold document_text. apply includes_node_body, includes_node_head.
    unfold o, created, page_object, added. destruct cursor; cbn [app].
    + rewrite head_entries_number, head_text_cons, Htail.
      apply includes_spec. exists "", tail. text_eq.
    + rewrite !head_entries_number.
      rewrite head_text_cons, join_rest_cons, !append_assoc, Htail.
      apply includes_spec. exists "", tail. text_eq.
  - split; [|split; [exact Hfirst|split; [exact Hoffset|discriminate]]].
    rewrite H1, (buildQuery_unconfigured st1 Hc1).
    unfold pagination_object, o, added.
    cbn [snd serviceOptions store st1 paginationOptions merge
         only_paginationOptions spread read].
    rewrite app_nil_r. apply lookup_insert_eq.
Qed.

Lemma onPaginationChanged_shape_witness :
  pagination_object (snd (onPaginationChanged page_three users_offset))
  = Some [("first", VNumber 20); ("offset", VNumber 40)]
  /\ fst (onPaginationChanged page_three users_offset)
     = Ok " query   {  users (first:20,offset:40)  { totalCount, pageInfo   { hasNextPage }, nodes   { name,gender } } }"
  /\ includes "(first:20,offset:40)"
       " query   {  users (first:20,offset:40)  { totalCount, pageInfo   { hasNextPage }, nodes   { name,gender } } }"
     = true.
Proof.
  assert (S20 : safe_integer 20) by (unfold safe_integer; lia).
  assert (S3 : safe_integer 3) by (unfold safe_integer; lia).
  assert (S2 : safe_integer (3 - 1)) by (unfold safe_integer; lia).
  assert (S40 : safe_integer ((3 - 1) * 20)) by (unfold safe_integer; lia).
  destruct (onPaginationChanged_shape users_offset page_three S20 S3 S2 S40)
    as (Hp & _ & _ & Ht).
  destruct (Ht eq_refl) as (text & H & E & Hinc).
  split; [exact Hp|]. split.
  - rewrite H. f_equal. rewrite E. vm_compute. reflexivity.
  - vm_compute. reflexivity.
Defined.

End Pagination.

(** ** The orderBy argument in the returned text *)

Section OrderBy.

(** The fixer passes over a prefix without double quotes when the text up
    to the next double quote holds a character that no word has. *)
Lemma trim_quote_free_prefix (ks : list string) (c : ascii) (pre u0 x : string) :
  quote_free_words ks = true ->
  (forall w, In w (clauses ks) -> has_char c w = false) ->
  has_char c "s" = false ->
  quote_free pre = true -> quote_free u0 = true -> has_char c u0 = true ->
  trimDoubleQuotesOnEnumField (pre ++ u0 ++ q ++ x) ks
  = pre ++ trimDoubleQuotesOnEnumField (u0 ++ q ++ x) ks.
Proof.
  intros Hks Hw Hs Hpre Hu0 Hc.
  induction pre as [|d pre IH]; [reflexivity|].
  cbn [quote_free all] in Hpre. apply andb_true_iff in Hpre as [Hd Hpre].
  rewrite trim_no_match.
  - cbn [String.append]. f_equal. now apply IH.
  - destruct (pattern_rest ks (String d pre ++ u0 ++ q ++ x)) as [r|] eqn:E;
      [|reflexivity].
    rewrite <- append_assoc in E.
    apply match_before_quote in E as (w & o & Hin & Ho & E); [|assumption|].
    + apply (f_equal (has_char c)) in E.
      rewrite !has_char_append, Hc, orb_true_r, (Hw w Hin) in E.
      destruct Ho as [->| ->]; [discriminate|]. now rewrite Hs in E.
    + rewrite quote_free_append. cbn [quote_free all]. now rewrite Hd, Hpre, Hu0.
Qed.

(** One step of the fixer over a character that starts no search word. *)
Lemma trim_skip (c : ascii) (rest : string) :
  Ascii.eqb "s" c = false -> Ascii.eqb "d" c = false -> Ascii.eqb "f" c = false ->
  trimDoubleQuotesOnEnumField (String c rest) enumSearchWords
  = String c (trimDoubleQuotesOnEnumField rest enumSearchWords).
Proof.
  intros Hs Hd Hf. rewrite trim_no_match; [reflexivity|].
  unfold enumSearchWords, pattern_rest, clause_rest.
  cbn [strip_prefix]. now rewrite Hs, Hd, Hf.
Qed.

Lemma trim_orderBy_bracket (rest : string) :
  trimDoubleQuotesOnEnumField ("orderBy:[" ++ rest) enumSearchWords
  = "orderBy:[" ++ trimDoubleQuotesOnEnumField rest enumSearchWords.
Proof.
  cbn [String.append].
  rewrite 2!trim_skip by reflexivity.
  rewrite (trim_no_match enumSearchWords (String "d" _)) by reflexivity.
  now rewrite 6!trim_skip by reflexivity.
Qed.

Lemma json_simple (f : string) :
  simple_text f = true -> JSON_stringify f = q ++ f ++ q.
Proof.
  intros H. unfold JSON_stringify. f_equal. f_equal.
  induction f as [|c f IH]; [reflexivity|].
  unfold simple_text in H. cbn [all] in H.
  apply andb_true_iff in H as [Hc Hf]. apply andb_true_iff in Hc as [Hc Hn].
  apply andb_true_iff in Hc as [Hq Hb]. apply negb_true_iff in Hq, Hb.
  apply Nat.leb_le in Hn.
  cbn [json_body]. rewrite (IH Hf). unfold json_escape. rewrite Hq, Hb.
  repeat match goal with
  | |- context [(?n =? ?m)%nat] => destruct (Nat.eqb_spec n m); [lia|]
  end.
  destruct (Nat.ltb_spec (nat_of_ascii c) 32); [lia | reflexivity].
Qed.

Lemma simple_plain_value (f : string) :
  simple_text f = true -> plain_value f = true.
Proof.
  induction f as [|c f IH]; [reflexivity|]. intros H.
  unfold simple_text in H. cbn [all] in H.
  apply andb_true_iff in H as [Hc Hf]. apply andb_true_iff in Hc as [Hc Hn].
  apply andb_true_iff in Hc as [Hq _]. apply Nat.leb_le in Hn.
  unfold plain_value. cbn [all]. fold (plain_value f).
  rewrite Hq. cbn [andb]. rewrite (IH Hf), andb_true_r.
  unfold is_line_terminator. apply negb_true_iff, orb_false_iff.
  split; apply Ascii.eqb_neq; intros ->; vm_compute in Hn; lia.
Qed.

(** The fixer on one sorting option and what follows it. *)
Lemma trim_sorting_json (o : GraphqlSortingOption) (rest : string) :
  simple_text (sort o) = true ->
  trimDoubleQuotesOnEnumField (sorting_json o ++ rest) enumSearchWords
  = sorting_fixed o ++ trimDoubleQuotesOnEnumField rest enumSearchWords.
Proof.
  intros Hs. unfold sorting_json, sorting_fixed.
  rewrite (json_simple _ Hs).
  assert (Hd : JSON_stringify (direction_text (direction o))
               = q ++ direction_text (direction o) ++ q).
  { now destruct (direction o). }
  assert (Hpd : plain_value (direction_text (direction o)) = true).
  { now destruct (direction o). }
  rewrite Hd, !append_assoc.
  change ("{sort:" ++ q ++ sort o ++ q ++ ",direction:" ++ q
            ++ direction_text (direction o) ++ q ++ "}" ++ rest)
    with (String "{" ("sort:" ++ "" ++ q ++ sort o ++ q
            ++ String ","
                 ("direction:" ++ "" ++ q ++ direction_text (direction o) ++ q
                  ++ String "}" rest))).
  rewrite trim_skip by reflexivity.
  rewrite (trim_word_value enumSearchWords "sort:" "" (sort o));
    [|reflexivity | cbn; auto | now left | now apply simple_plain_value].
  rewrite trim_skip by reflexivity.
  rewrite (trim_word_value enumSearchWords "direction:" ""
             (direction_text (direction o)));
    [|reflexivity | cbn; auto | now left | assumption].
  rewrite trim_skip by reflexivity.
  text_eq.
Qed.

(** The fixer on the list of the sorting options up to the closing bracket. *)
Lemma trim_sorting_list (sorts : list GraphqlSortingOption) (rest : string) :
  forallb (fun o => simple_text (sort o)) sorts = true ->
  trimDoubleQuotesOnEnumField
    (join "," (map sorting_json sorts) ++ "]" ++ rest) enumSearchWords
  = join "," (map sorting_fixed sorts) ++ "]"
    ++ trimDoubleQuotesOnEnumField rest enumSearchWords.
Proof.
  induction sorts as [|o sorts IH]; intros H.
  - cbn [map join String.append]. now rewrite trim_skip by reflexivity.
  - cbn [forallb] in H. apply andb_true_iff in H as [Ho H].
    cbn [map]. rewrite !join_cons, !append_assoc, trim_sorting_json by assumption.
    f_equal. destruct sorts as [|o' sorts].
    + cbn [map join_rest String.append]. now rewrite trim_skip by reflexivity.
    + specialize (IH H). cbn [map] in *. rewrite !join_rest_cons.
      rewrite <- !join_cons, !append_assoc.
      cbn [String.append]. rewrite trim_skip by reflexivity.
      cbn [String.append] in IH. now rewrite IH.
Qed.

Lemma obj_set_split (o : Obj) (k : string) (v : JSValue) :
  obj_set o k v = (before_key k o ++ (k, v) :: after_key k o)%list.
Proof.
  induction o as [|[k' v'] o IH]; [reflexivity|].
  cbn [obj_set before_key after_key].
  destruct (String.eqb_spec k' k) as [->|]; [reflexivity|].
  cbn [app]. now rewrite IH.
Qed.

Lemma obj_set_app_skip (l1 l2 : Obj) (k : string) (v : JSValue) :
  forallb (fun e => negb (String.eqb (fst e) k)) l1 = true ->
  obj_set (l1 ++ l2)%list k v = (l1 ++ obj_set l2 k v)%list.
Proof.
  induction l1 as [|[k' v'] l1 IH]; [reflexivity|].
  cbn [forallb fst]. intros H. apply andb_true_iff in H as [Hk H].
  apply negb_true_iff in Hk. cbn [app obj_set]. rewrite Hk. now rewrite IH.
Qed.

Lemma bare_not_filterBy (l : Obj) :
  forallb bare_entry l = true ->
  forallb (fun e => negb (String.eqb (fst e) "filterBy")) l = true.
Proof.
  intros H. apply forallb_forall. intros e He.
  rewrite forallb_forall in H. specialize (H e He). unfold bare_entry in H.
  apply andb_true_iff in H as [H _]. now apply andb_true_iff in H as [_ H].
Qed.

Lemma written_sorted_split (so : GraphqlServiceOption) (o : Obj)
  (sorts : list GraphqlSortingOption) :
  sortingOptions so = Value sorts -> bare_before_orderBy o = true ->
  exists rest,
    written so o
    = (before_key "orderBy" o
       ++ ("orderBy", VArray (map sorting_value sorts)) :: rest)%list.
Proof.
  intros Hs Hb. unfold written, with_orderBy, with_filterBy.
  rewrite Hs. cbn [truthy_object list_value]. rewrite (obj_set_split o "orderBy").
  destruct (truthy_object (filteringOptions so)); [|eexists; reflexivity].
  rewrite obj_set_app_skip by now apply bare_not_filterBy.
  cbn [obj_set String.eqb Ascii.eqb Bool.eqb]. eexists; reflexivity.
Qed.

Lemma head_entries_app (a b : Obj) :
  head_entries (a ++ b)%list = (head_entries a ++ head_entries b)%list.
Proof. unfold head_entries. now rewrite List.filter_app, List.map_app. Qed.

Lemma head_entries_bare (l : Obj) :
  forallb bare_entry l = true ->
  head_entries l = map entry_text l
  /\ quote_free (join_before "," (map entry_text l)) = true.
Proof.
  induction l as [|[k v] l IH]; [now split|].
  cbn [forallb]. intros H. apply andb_true_iff in H as [He H].
  destruct (IH H) as [IH1 IH2]. unfold bare_entry in He. cbn [fst snd] in He.
  apply andb_true_iff in He as [Hk Hv]. apply andb_true_iff in Hk as [Hk _].
  assert (Hq : quote_free (entry_text (k, v)) = true).
  { unfold entry_text. cbn [fst snd]. rewrite !quote_free_append, Hk.
    destruct v; try discriminate; cbn [QueryBuilder.getGraphQLValue toStr];
      [reflexivity | now rewrite quote_free_number]. }
  split.
  - change (head_entries ((k, v) :: l))
      with (head_entries ([(k, v)] ++ l)%list).
    rewrite head_entries_app, IH1. now destruct v.
  - cbn [map join_before fold_right]. fold (join_before "," (map entry_text l)).
    now rewrite !quote_free_append, Hq, IH2.
Qed.

Lemma join_app_cons (sep x : string) (l1 l2 : list string) :
  join sep (l1 ++ x :: l2)%list = join_before sep l1 ++ x ++ join_rest sep l2.
Proof.
  induction l1 as [|y l1 IH]; [apply join_cons|].
  change ((y :: l1) ++ x :: l2)%list with (y :: (l1 ++ x :: l2))%list.
  rewrite join_cons. unfold join_rest at 1.
  destruct (l1 ++ x :: l2)%list eqn:E; [now destruct l1|].
  rewrite IH. cbn [join_before fold_right]. now rewrite !append_assoc.
Qed.

Lemma head_text_app_cons (x : string) (l1 l2 : list string) :
  head_text (l1 ++ x :: l2)%list
  = "(" ++ join_before "," l1 ++ x ++ join_rest "," l2 ++ ")".
Proof.
  unfold head_text. destruct (l1 ++ x :: l2)%list eqn:E; [now destruct l1|].
  rewrite <- E, join_app_cons. now rewrite !append_assoc.
Qed.

Lemma sorting_value_text (o : GraphqlSortingOption) :
  item_text toStr (QueryBuilder.getGraphQLValue (sorting_value o))
  = sorting_json o.
Proof.
  unfold sorting_value, sorting_json.
  cbn [QueryBuilder.getGraphQLValue item_text toStr map join]. text_eq.
Qed.

Lemma head_entries_orderBy (sorts : list GraphqlSortingOption) (o : Obj) :
  head_entries (("orderBy", VArray (map sorting_value sorts)) :: o)
  = ("orderBy:[" ++ join "," (map sorting_json sorts) ++ "]") :: head_entries o.
Proof.
  unfold head_entries. cbn [List.filter snd QueryBuilder.getGraphQLValue
    QueryBuilder.is_empty_braces String.append String.eqb Ascii.eqb Bool.eqb
    negb map].
  f_equal. unfold entry_text.
  cbn [fst snd QueryBuilder.getGraphQLValue toStr]. rewrite !List.map_map.
  rewrite (List.map_ext _ _ sorting_value_text). text_eq.
Qed.

(** The text that buildQuery returns holds the sorting options under
    orderBy, one after the other, with their double quotes removed. *)
Lemma buildQuery_orderBy (st : State) (l : loc) (o : Obj)
  (sorts : list GraphqlSortingOption) :
  configured (serviceOptions st) = true ->
  paginationOptions (serviceOptions st) = Value l ->
  store st !! l = Some o ->
  sortingOptions (serviceOptions st) = Value sorts -> sorts <> [] ->
  forallb (fun s => simple_text (sort s)) sorts = true ->
  quote_free (name_of (serviceOptions st)) = true ->
  bare_before_orderBy o = true ->
  exists text st',
    buildQuery st = (Ok text, st') /\
    includes ("orderBy:[" ++ join "," (map sorting_fixed sorts) ++ "]") text = true.
Proof.
  intros Hc El Ho Hs Hne Hsimple Hname Hbare.
  rewrite (buildQuery_object st l o Hc El Ho).
  eexists _, _. split; [reflexivity|].
  destruct (written_sorted_split _ o sorts Hs Hbare) as (rest & ->).
  destruct (head_entries_bare _ Hbare) as [Eb Hqb].
  rewrite head_entries_app, Eb, head_entries_orderBy. unfold document_text.
  rewrite head_text_app_cons.
  set (pre := " query   {  " ++ name_of (serviceOptions st) ++ " ("
              ++ join_before "," (map entry_text (before_key "orderBy" o))).
  set (J := join "," (map sorting_json sorts)).
  match goal with |- includes _ (trimDoubleQuotesOnEnumField ?doc _) = true =>
    assert (Edoc : exists post, doc = pre ++ "orderBy:[" ++ J ++ "]" ++ post) end.
  { eexists. unfold pre. text_eq. }
  destruct Edoc as (post & ->).
  assert (EJ : exists x, "orderBy:[" ++ J ++ "]" ++ post
                         = "orderBy:[{sort:" ++ q ++ x).
  { unfold J. destruct sorts as [|s0 sorts]; [congruence|].
    cbn [forallb] in Hsimple. apply andb_true_iff in Hsimple as [H0 _].
    cbn [map]. rewrite join_cons. unfold sorting_json at 1.
    rewrite (json_simple _ H0). eexists. text_eq. }
  destruct EJ as (x & EJ).
  rewrite EJ, (trim_quote_free_prefix enumSearchWords "["); try reflexivity.
  - rewrite <- EJ, trim_orderBy_bracket. unfold J.
    rewrite trim_sorting_list by assumption.
    apply includes_skip_l. apply includes_spec. exists "". eexists. text_eq.
  - intros w Hw. cbn in Hw.
    destruct Hw as [<-|[<-|[<-|[<-|[]]]]]; reflexivity.
  - unfold pre. now rewrite !quote_free_append, Hname, Hqb.
Qed.

Lemma obj_get_split (o : Obj) (k : string) (v : JSValue) :
  obj_get o k = Some v -> o = (before_key k o ++ (k, v) :: after_key k o)%list.
Proof.
  induction o as [|[k' v'] o IH]; cbn [obj_get before_key after_key];
    [discriminate|].
  destruct (String.eqb_spec k' k) as [->|].
  - now intros [= ->].
  - intros H. cbn [app]. f_equal. now apply IH.
Qed.


(** The text that buildQuery returns holds the sorting options under
    orderBy whenever the fixer has no match left open where orderBy starts:
    the arguments ahead of it may hold quoted values. *)
Lemma buildQuery_orderBy_settled (st : State) (l : loc) (o : Obj)
  (sorts : list GraphqlSortingOption) :
  configured (serviceOptions st) = true ->
  paginationOptions (serviceOptions st) = Value l ->
  store st !! l = Some o ->
  sortingOptions (serviceOptions st) = Value sorts ->
  exists text st',
    buildQuery st = (Ok text, st') /\
    (forallb (fun s => simple_text (sort s)) sorts = true ->
     settled enumSearchWords
       (ahead_of (serviceOptions st) "orderBy" (written (serviceOptions st) o))
     = true ->
     includes ("orderBy:[" ++ join "," (map sorting_fixed sorts) ++ "]") text
     = true).
Proof.
  intros Hc El Ho Hs.
  rewrite (buildQuery_object st l o Hc El Ho).
  eexists _, _. split; [reflexivity|]. intros Hsimple Hset.
  set (so := serviceOptions st) in *. set (W := written so o) in *.
  assert (HW : obj_get W "orderBy" = Some (VArray (map sorting_value sorts))).
  { unfold W. now rewrite written_orderBy, Hs. }
  assert (EW : head_entries W
               = (head_entries (before_key "orderBy" W)
                  ++ ("orderBy:[" ++ join "," (map sorting_json sorts) ++ "]")%string
                     :: head_entries (after_key "orderBy" W))%list).
  { rewrite (obj_get_split W _ _ HW) at 1.
    now rewrite head_entries_app, head_entries_orderBy. }
  rewrite EW. unfold document_text. rewrite head_text_app_cons.
  destruct sorts as [|s0 sorts].
  - apply includes_trim; [reflexivity|]. cbn [map join].
    apply includes_node_body, includes_node_head.
    do 2 apply includes_skip_l. apply includes_spec. exists "". eexists. text_eq.
  - set (pre := ahead_of so "orderBy" W) in *.
    set (J := join "," (map sorting_json (s0 :: sorts))).
    match goal with |- includes _ (trimDoubleQuotesOnEnumField ?doc _) = true =>
      assert (Edoc : exists post, doc = pre ++ "orderBy:[" ++ J ++ "]" ++ post) end.
    { eexists. unfold pre, ahead_of, name_of. text_eq. }
    destruct Edoc as (post & ->).
    assert (EJ : exists x, "orderBy:[" ++ J ++ "]" ++ post
                           = "orderBy:[{sort:" ++ q ++ x).
    { unfold J. pose proof Hsimple as H0. cbn [forallb] in H0.
      apply andb_true_iff in H0 as [H0 _].
      cbn [map]. rewrite join_cons. unfold sorting_json at 1.
      rewrite (json_simple _ H0). eexists. text_eq. }
    destruct EJ as (x & EJ).
    rewrite EJ, (trim_settled_prefix enumSearchWords "["); try reflexivity.
    + rewrite <- EJ, trim_orderBy_bracket. unfold J.
      rewrite trim_sorting_list by assumption.
      apply includes_skip_l. apply includes_spec. exists "". eexists. text_eq.
    + intros w Hw. cbn in Hw.
      destruct Hw as [<-|[<-|[<-|[<-|[]]]]]; reflexivity.
    + exact Hset.
Qed.


End OrderBy.

(** ** A sort event *)

Section Sorting.

Lemma fold_left_push {A B : Type} (f : A -> B) (l : list A) (acc : list B) :
  fold_left (fun acc x => (acc ++ [f x])%list) l acc = (acc ++ map f l)%list.
Proof.
  revert acc; induction l as [|x l IH]; intros acc; cbn [fold_left map].
  - now rewrite app_nil_r.
  - rewrite IH. now rewrite <- app_assoc.
Qed.

Lemma forallb_mapped {A B : Type} (p : B -> bool) (g : A -> B) (l : list A) :
  forallb p (map g l) = forallb (fun x => p (g x)) l.
Proof. induction l as [|x l IH]; cbn [map forallb]; [reflexivity | now rewrite IH]. Qed.

Lemma onSortChanged_unfold (args : SortChangedArgs) (st : State) :
  onSortChanged args st =
  buildQuery
    {| serviceOptions :=
         merge (serviceOptions st) (only_sortingOptions (sortByArray_of args));
       store := store st |}.
Proof.
  unfold onSortChanged, sortByArray_of, sortColumns_of.
  destruct (if multiColumnSort args then _ else _) as [[|c cols]|];
    try reflexivity.
  change (fold_left _ (c :: cols) [])
    with (fold_left (fun acc x => (acc ++ [sorting_of x])%list) (c :: cols) []).
  now rewrite fold_left_push.
Qed.

Lemma buildQuery_keeps_options (st : State) :
  serviceOptions (snd (buildQuery st)) = serviceOptions st.
Proof.
  destruct (configured (serviceOptions st)) eqn:Hc.
  2:{ now rewrite (buildQuery_unconfigured st Hc). }
  destruct (pagination_object st) as [o|] eqn:Hp.
  - unfold pagination_object in Hp.
    destruct (paginationOptions (serviceOptions st)) as [| |l] eqn:El;
      try discriminate. cbn [read] in Hp.
    now rewrite (buildQuery_object st l o Hc El Hp).
  - rewrite (buildQuery_no_object st Hc Hp). now destruct (_ || _).
Qed.

(** What a sort event leaves in the options and returns. *)
Lemma onSortChanged_sorts (st : State) (args : SortChangedArgs) :
  sortingOptions (serviceOptions (snd (onSortChanged args st)))
  = Value (sortByArray_of args)
  /\ forall l o,
       configured (serviceOptions st) = true ->
       paginationOptions (serviceOptions st) = Value l ->
       store st !! l = Some o ->
       quote_free (name_of (serviceOptions st)) = true ->
       bare_before_orderBy o = true ->
       sortByArray_of args <> [] ->
       forallb (fun s => simple_text (sort s)) (sortByArray_of args) = true ->
       exists text,
         fst (onSortChanged args st) = Ok text /\
         includes ("orderBy:[" ++ join "," (map sorting_fixed (sortByArray_of args)) ++ "]")
           text = true.
Proof.
  rewrite onSortChanged_unfold. split.
  - now rewrite buildQuery_keeps_options.
  - intros l o Hc El Ho Hn Hb Hne Hs.
    set (st1 := {| serviceOptions := _; store := store st |}).
    destruct (buildQuery_orderBy st1 l o (sortByArray_of args))
      as (text & st' & H & Hinc); try assumption; try reflexivity.
    exists text. now rewrite H.
Qed.

(** What a sort event returns on a configured service with a stored
    pagination object. *)
Lemma onSortChanged_sorts_settled (st : State) (args : SortChangedArgs)
  (l : loc) (o : Obj) :
  configured (serviceOptions st) = true ->
  paginationOptions (serviceOptions st) = Value l ->
  store st !! l = Some o ->
  exists text,
    fst (onSortChanged args st) = Ok text /\
    (forallb (fun s => simple_text (sort s)) (sortByArray_of args) = true ->
     settled enumSearchWords
       (ahead_of
          (merge (serviceOptions st) (only_sortingOptions (sortByArray_of args)))
          "orderBy"
          (written
             (merge (serviceOptions st) (only_sortingOptions (sortByArray_of args)))
             o))
     = true ->
     includes ("orderBy:[" ++ join "," (map sorting_fixed (sortByArray_of args)) ++ "]")
       text = true).
Proof.
  intros Hc El Ho. rewrite onSortChanged_unfold.
  set (st1 := {| serviceOptions := _; store := store st |}).
  destruct (buildQuery_orderBy_settled st1 l o (sortByArray_of args))
    as (text & st' & H & Hinc); try assumption; try reflexivity.
  exists text. rewrite H. split; [reflexivity | exact Hinc].
Qed.

(** C4, as stated, fails: after a sort event without columns the returned
    text does not hold the orderBy argument with blanks after the colons
    and the comma. *)
Lemma onSortChanged_empty_spaced_refuted :
  exists text,
    fst (onSortChanged empty_multi_sort users_offset) = Ok text /\
    includes "orderBy:[{sort: id, direction: ASC}]" text = false.
Proof. eexists. split; vm_compute; reflexivity. Qed.

(** C4, amended: onSortChanged with a multi-column sort of zero columns sets
    sortingOptions to the single default entry, sort id and direction ASC.
    On a configured service with a stored pagination object it returns a
    text, and the text contains orderBy:[{sort:id,direction:ASC}], the two
    values without double quotes, the colons and the comma without a blank,
    whenever the fixer has no match left open where orderBy starts: the
    dataset name and the arguments written ahead of orderBy may hold quoted
    values, as a cursor does, as long as that text does not end inside the
    quoted value of a search word. *)
Theorem onSortChanged_empty (st : State) (args : SortChangedArgs) :
  multiColumnSort args = true -> sortCols args = Some [] ->
  let sorted :=
    merge (serviceOptions st)
      (only_sortingOptions [{| sort := "id"; direction := ASC |}]) in
  sortingOptions (serviceOptions (snd (onSortChanged args st)))
  = Value [{| sort := "id"; direction := ASC |}]
  /\ forall l o,
       configured (serviceOptions st) = true ->
       paginationOptions (serviceOptions st) = Value l ->
       store st !! l = Some o ->
       exists text,
         fst (onSortChanged args st) = Ok text /\
         (settled enumSearchWords (ahead_of sorted "orderBy" (written sorted o))
          = true ->
          includes "orderBy:[{sort:id,direction:ASC}]" text = true).
Proof.
  intros Hm Hcols sorted.
  assert (E : sortByArray_of args = [defaultOrderBy]).
  { unfold sortByArray_of, sortColumns_of. now rewrite Hm, Hcols. }
  destruct (onSortChanged_sorts st args) as [Hs _]. rewrite E in Hs.
  split; [exact Hs|].
  intros l o Hc El Ho.
  destruct (onSortChanged_sorts_settled st args l o Hc El Ho) as (text & H & Hinc).
  rewrite E in Hinc. exists text. split; [exact H|].
  intros Hset. now apply Hinc.
Qed.

Lemma onSortChanged_empty_witness :
  sortingOptions
    (serviceOptions (snd (onSortChanged empty_multi_sort users_cursor_page)))
  = Value [{| sort := "id"; direction := ASC |}]
  /\ exists text,
       fst (onSortChanged empty_multi_sort users_cursor_page) = Ok text /\
       includes "orderBy:[{sort:id,direction:ASC}]" text = true.
Proof.
  destruct (onSortChanged_empty users_cursor_page empty_multi_sort eq_refl eq_refl)
    as [Hs Ht].
  split; [exact Hs|].
  destruct (Ht 0%nat [("first", VNumber 20);
                      ("after", VString "YXJyYXljb25uZWN0aW9uOjM=")]
              eq_refl eq_refl eq_refl) as (text & H & Hinc).
  exists text. split; [exact H|]. apply Hinc. vm_compute. reflexivity.
Defined.

(** Why the text ahead of orderBy has to be settled: a quoted argument that
    ends like a search word pairs its closing quote with the opening quote
    of the first sort value, and the orderBy argument comes out broken. *)
Lemma onSortChanged_after_word :
  settled enumSearchWords
    (ahead_of (serviceOptions users_after_word) "orderBy"
       [("first", VNumber 20); ("after", VString "sort:")]) = false
  /\ exists text,
       fst (onSortChanged empty_multi_sort users_after_word) = Ok text /\
       includes "orderBy:[{sort:id,direction:ASC}]" text = false /\
       includes
         ("after:" ++ q ++ "sort:,orderBy:[{sort:id" ++ q ++ ",direction:ASC}]")
         text = true.
Proof.
  split; [vm_compute; reflexivity|].
  eexists. repeat split; vm_compute; reflexivity.
Qed.

(** Quoted values ahead of orderBy do no harm when they are closed: with a
    list of numbers and a filterBy argument from an earlier query ahead of
    it, the text ahead of orderBy is settled and the orderBy argument comes
    out whole. *)
Lemma onSortChanged_after_filter :
  settled enumSearchWords
    (ahead_of (serviceOptions users_after_filter) "orderBy" filtered_object) = true
  /\ exists text,
       fst (onSortChanged empty_multi_sort users_after_filter) = Ok text /\
       includes
         ("ids:[1,2],filterBy:[{fieldName:date,fieldOperator:>,fieldValue:"
          ++ q ++ "2000-10-10" ++ q ++ "}],orderBy:[{sort:id,direction:ASC}]")
         text = true.
Proof.
  split; [vm_compute; reflexivity|].
  eexists. split; vm_compute; reflexivity.
Qed.

(** C5, as stated, fails: for the two columns lastName ascending and
    firstName descending the returned text does not hold the orderBy
    argument with blanks after the colons and the commas. *)
Lemma onSortChanged_two_columns_spaced_refuted :
  exists text,
    fst (onSortChanged two_columns users_offset) = Ok text /\
    includes
      "orderBy:[{sort: lastName, direction: ASC},{sort: firstName, direction: DESC}]"
      text = false.
Proof. eexists. split; vm_compute; reflexivity. Qed.

(** C5, amended: for every multi-column sort with at least one column,
    onSortChanged sets sortingOptions to one entry per column, in the order
    of the columns, each with the field of the column, or its id when the
    field is missing or empty, as sort and with ASC when sortAsc holds and
    DESC otherwise as direction.  On a configured service with a stored
    pagination object it returns a text.  For field names without double
    quote, backslash or control character the text contains these entries
    under orderBy in the same order, written as sort:name,direction:ASC or
    DESC between braces and separated by commas, without double quotes and
    without blanks, whenever the fixer has no match left open where orderBy
    starts: the dataset name and the arguments written ahead of orderBy may
    hold quoted values, as a cursor does, as long as that text does not end
    inside the quoted value of a search word. *)
Theorem onSortChanged_columns (st : State) (args : SortChangedArgs)
  (column : ColumnSort) (columns : list ColumnSort) :
  multiColumnSort args = true -> sortCols args = Some (column :: columns) ->
  let entry (c : ColumnSort) :=
    {| sort := match field (sortCol c) with
               | Some f => if String.eqb f "" then id (sortCol c) else f
               | None => id (sortCol c)
               end;
       direction := if sortAsc c then ASC else DESC |} in
  let sorted :=
    merge (serviceOptions st)
      (only_sortingOptions (map entry (column :: columns))) in
  sortingOptions (serviceOptions (snd (onSortChanged args st)))
  = Value (map entry (column :: columns))
  /\ forall l o,
       configured (serviceOptions st) = true ->
       paginationOptions (serviceOptions st) = Value l ->
       store st !! l = Some o ->
       exists text,
         fst (onSortChanged args st) = Ok text /\
         (forallb (fun c => simple_text (sort (entry c))) (column :: columns) = true ->
          settled enumSearchWords (ahead_of sorted "orderBy" (written sorted o))
          = true ->
          includes
            ("orderBy:["
             ++ join ","
                  (map (fun c => "{sort:" ++ sort (entry c) ++ ",direction:"
                                 ++ (if sortAsc c then "ASC" else "DESC") ++ "}")
                     (column :: columns))
             ++ "]")
            text = true).
Proof.
  intros Hm Hcols entry sorted.
  assert (E : sortByArray_of args = map entry (column :: columns)).
  { unfold sortByArray_of, sortColumns_of. now rewrite Hm, Hcols. }
  destruct (onSortChanged_sorts st args) as [Hs _]. rewrite E in Hs.
  split; [exact Hs|].
  intros l o Hc El Ho.
  destruct (onSortChanged_sorts_settled st args l o Hc El Ho) as (text & H & Hinc).
  rewrite E in Hinc. exists text. split; [exact H|].
  intros Hsimple Hset.
  assert (Hi := Hinc).
  specialize (Hi ltac:(now rewrite forallb_mapped) Hset).
  rewrite List.map_map in Hi.
  erewrite List.map_ext in Hi; [exact Hi|].
  intros c. unfold sorting_fixed. cbn [sort direction entry].
  now destruct (sortAsc c).
Qed.

Lemma onSortChanged_columns_witness :
  sortingOptions (serviceOptions (snd (onSortChanged two_columns users_reset)))
  = Value [{| sort := "lastName"; direction := ASC |};
           {| sort := "firstName"; direction := DESC |}]
  /\ exists text,
       fst (onSortChanged two_columns users_reset) = Ok text /\
       includes
         "orderBy:[{sort:lastName,direction:ASC},{sort:firstName,direction:DESC}]"
         text = true.
Proof.
  destruct (onSortChanged_columns users_reset two_columns _ _ eq_refl eq_refl)
    as [Hs Ht].
  split; [exact Hs|].
  destruct (Ht 1%nat [("after", VString ""); ("before", VUndefined);
                      ("last", VUndefined)]
              eq_refl eq_refl eq_refl) as (text & H & Hinc).
  exists text. split; [exact H|]. apply Hinc; vm_compute; reflexivity.
Defined.

End Sorting.

(** * Further properties of the service *)

Import More.

(** ** The fixer on any text *)

Section FixerMore.

Lemma unquoted_same_rest (s t : string) :
  unquoted s t -> drop_quotes t = drop_quotes s.
Proof.
  induction 1 as [|c s t H IH|s t H IH]; cbn [drop_quotes].
  - reflexivity.
  - destruct (is_dq c); [exact IH | now rewrite IH].
  - unfold is_dq. now rewrite Ascii.eqb_refl.
Qed.

Lemma count_quotes_append (a b : string) :
  count_quotes (a ++ b) = (count_quotes a + count_quotes b)%nat.
Proof.
  induction a as [|c a IH]; [reflexivity|]. cbn [String.append count_quotes].
  destruct (is_dq c); [now rewrite IH | exact IH].
Qed.

Lemma count_quotes_free (a : string) :
  quote_free a = true -> count_quotes a = O.
Proof.
  induction a as [|c a IH]; [reflexivity|]. cbn [quote_free all count_quotes].
  intros H. apply andb_true_iff in H as [Hc H]. apply negb_true_iff in Hc.
  rewrite Hc. now apply IH.
Qed.

Lemma count_quotes_q : count_quotes q = 1%nat.
Proof. reflexivity. Qed.

Lemma quote_free_drop_quotes (s : string) : quote_free (drop_quotes s) = true.
Proof.
  induction s as [|c s IH]; [reflexivity|]. cbn [drop_quotes].
  destruct (is_dq c) eqn:E; [exact IH|]. cbn [quote_free all]. now rewrite E.
Qed.

(** The text of a match and the step of the fixer over it. *)
Lemma match_step (ks : list string) (m rest : string) :
  pattern_rest ks (m ++ rest) = Some rest ->
  trimDoubleQuotesOnEnumField (m ++ rest) ks
  = drop_quotes m ++ trimDoubleQuotesOnEnumField rest ks
  /\ exists w o v,
       In w (clauses ks) /\ letter o /\ plain_value v = true /\
       m = w ++ o ++ q ++ v ++ q.
Proof.
  intros H. split.
  - apply trim_at_match in H as (m' & E & _ & ->).
    apply append_inv_tail in E. now subst m'.
  - apply pattern_rest_shape in H as (w & o & v & Hin & Ho & Hv & E).
    apply append_inv_tail in E. now exists w, o, v.
Qed.

(** X1: for every text and every list of search words free of pattern
    syntax, the result of the fixer is the input with some of its double
    quotes left out: every other character is kept, in its place and order,
    and nothing is added.  So the result and the input are the same text
    once all double quotes are dropped, the result is never longer than the
    input, and a text without double quotes comes back unchanged. *)
Theorem trim_only_drops_quotes (s : string) (ks : list string) :
  plain_words ks = true ->
  unquoted s (trimDoubleQuotesOnEnumField s ks)
  /\ drop_quotes (trimDoubleQuotesOnEnumField s ks) = drop_quotes s
  /\ (String.length (trimDoubleQuotesOnEnumField s ks) <= String.length s)%nat
  /\ (quote_free s = true -> trimDoubleQuotesOnEnumField s ks = s).
Proof.
  intros _. pose proof (unquoted_trim ks s) as H. split; [exact H|].
  split; [|split].
  - now apply unquoted_same_rest.
  - now apply unquoted_length.
  - intros Hq. now apply unquoted_quote_free.
Qed.

Lemma trim_only_drops_quotes_witness :
  unquoted inner_quote (trimDoubleQuotesOnEnumField inner_quote ["sort:"])
  /\ drop_quotes (trimDoubleQuotesOnEnumField inner_quote ["sort:"])
     = drop_quotes inner_quote
  /\ (String.length (trimDoubleQuotesOnEnumField inner_quote ["sort:"])
      <= String.length inner_quote)%nat
  /\ (quote_free inner_quote = true ->
      trimDoubleQuotesOnEnumField inner_quote ["sort:"] = inner_quote).
Proof. apply (trim_only_drops_quotes inner_quote ["sort:"]). reflexivity. Defined.

(** X2: for search words free of pattern syntax and of double quotes, the
    fixer removes double quotes two at a time: there is a number of
    replaced matches such that the input has as many double quotes as the
    result plus twice that number, and is longer than the result by twice
    that number; the result is never longer than the input, and the number
    is zero exactly when the text comes back unchanged. *)
Theorem trim_drops_pairs (s : string) (ks : list string) :
  plain_words ks = true -> quote_free_words ks = true ->
  exists n,
    count_quotes s
    = (count_quotes (trimDoubleQuotesOnEnumField s ks) + 2 * n)%nat
    /\ String.length s
       = (String.length (trimDoubleQuotesOnEnumField s ks) + 2 * n)%nat
    /\ (String.length (trimDoubleQuotesOnEnumField s ks) <= String.length s)%nat
    /\ (n = O <-> trimDoubleQuotesOnEnumField s ks = s).
Proof.
  intros _ Hks.
  induction s as [s Hnone IH | m rest Hm Hsome IH] using (scan_ind ks).
  - rewrite (trim_no_match _ _ Hnone). destruct s as [|c s].
    + exists O. repeat split; reflexivity.
    + destruct IH as (n & E & El & Hle & Hn). exists n. split; [|split; [|split]].
      * cbn [count_quotes]. destruct (is_dq c); lia.
      * cbn [String.length]. lia.
      * cbn [String.length]. lia.
      * rewrite Hn. split; [now intros -> | now intros [= ->]].
  - destruct (trim_match_text ks m rest Hks Hsome)
      as (w & o & v & Hin & Ho & Hv & -> & ->).
    destruct IH as (n & E & El & Hle & _). exists (S n).
    pose proof (clauses_quote_free ks w Hks Hin) as Hqw.
    pose proof (letter_quote_free o Ho) as Hqo.
    pose proof (plain_value_quote_free v Hv) as Hqv.
    assert (Hlen : String.length ((w ++ o ++ q ++ v ++ q) ++ rest)
                   = (String.length ((w ++ o ++ v)
                                     ++ trimDoubleQuotesOnEnumField rest ks)
                      + 2 * S n)%nat).
    { rewrite !length_append, El. cbn [String.length q]. lia. }
    split; [|split; [|split]].
    + rewrite !count_quotes_append, E.
      rewrite (count_quotes_free w), (count_quotes_free o), (count_quotes_free v)
        by assumption.
      rewrite count_quotes_q. lia.
    + exact Hlen.
    + lia.
    + split; [discriminate|]. intros E'.
      apply (f_equal String.length) in E'. lia.
Qed.

Lemma trim_drops_pairs_witness :
  exists n,
    count_quotes quoted_pair
    = (count_quotes (trimDoubleQuotesOnEnumField quoted_pair ["sort:"; "direction:"])
       + 2 * n)%nat
    /\ String.length quoted_pair
       = (String.length
            (trimDoubleQuotesOnEnumField quoted_pair ["sort:"; "direction:"])
          + 2 * n)%nat
    /\ (String.length
          (trimDoubleQuotesOnEnumField quoted_pair ["sort:"; "direction:"])
        <= String.length quoted_pair)%nat
    /\ (n = O <->
        trimDoubleQuotesOnEnumField quoted_pair ["sort:"; "direction:"] = quoted_pair).
Proof.
  apply (trim_drops_pairs quoted_pair ["sort:"; "direction:"]); reflexivity.
Defined.

(** Why the words have to be free of double quotes: a word that holds one
    takes it along, and the number of dropped double quotes is odd. *)
Lemma trim_quoted_word_drops_three :
  count_quotes ("a" ++ q ++ q ++ "x" ++ q) = 3%nat
  /\ trimDoubleQuotesOnEnumField ("a" ++ q ++ q ++ "x" ++ q) ["a" ++ q] = "ax".
Proof. split; vm_compute; reflexivity. Qed.

Lemma after_quote_none (s : string) :
  single_line s = true -> after_quote s = None -> quote_free s = true.
Proof.
  induction s as [|c s IH]; [reflexivity|].
  unfold single_line. cbn [all after_quote quote_free]. intros Hl.
  apply andb_true_iff in Hl as [Hc Hl]. apply negb_true_iff in Hc.
  destruct (is_dq c); [discriminate|]. rewrite Hc. intros H. now apply IH.
Qed.

Lemma single_line_append (a b : string) :
  single_line (a ++ b) = single_line a && single_line b.
Proof. apply all_append. Qed.

(** X3: an empty list of search words does not switch the fixer off.  The
    join of no word is the empty text, so the pattern is the quoted group
    alone and every quoted run is a match: on a text without line
    terminator the fixer removes the double quotes pair by pair and leaves
    none when their number is even, one when it is odd. *)
Theorem trim_without_words (s : string) :
  single_line s = true ->
  count_quotes (trimDoubleQuotesOnEnumField s [])
  = if Nat.even (count_quotes s) then O else 1%nat.
Proof.
  induction s as [s Hnone IH | m rest Hm Hsome IH] using (scan_ind []).
  - intros Hl. rewrite (trim_no_match _ _ Hnone). destruct s as [|c s].
    + reflexivity.
    + unfold single_line in Hl. cbn [all] in Hl.
      apply andb_true_iff in Hl as [Hc Hl]. cbn [count_quotes].
      destruct (is_dq c) eqn:Ec; [|now apply IH].
      cbn [pattern_rest clause_rest strip_prefix word_in_quotes_rest] in Hnone.
      assert (Hs : Ascii.eqb c "s" = false).
      { apply Ascii.eqb_eq in Ec. now subst c. }
      rewrite Hs in Hnone. cbn [quoted_rest] in Hnone. rewrite Ec in Hnone.
      pose proof (after_quote_none s Hl Hnone) as Hq.
      rewrite (trim_no_match_anywhere [] s) by now apply quote_free_no_match.
      now rewrite (count_quotes_free s Hq).
  - intros Hl.
    destruct (match_step _ _ _ Hsome) as [-> (w & o & v & Hin & Ho & Hv & ->)].
    destruct Hin as [<-|[]].
    rewrite single_line_append in Hl. apply andb_true_iff in Hl as [_ Hl].
    rewrite !count_quotes_append.
    rewrite (count_quotes_free (drop_quotes _)) by apply quote_free_drop_quotes.
    rewrite (count_quotes_free o) by now apply letter_quote_free.
    rewrite (count_quotes_free v) by now apply plain_value_quote_free.
    rewrite count_quotes_q. cbn [count_quotes Nat.add Nat.even]. now apply IH.
Qed.

Lemma trim_without_words_witness :
  count_quotes (trimDoubleQuotesOnEnumField inner_quote [])
  = if Nat.even (count_quotes inner_quote) then O else 1%nat.
Proof. apply (trim_without_words inner_quote). reflexivity. Defined.

(** The fixer passes over a quote-free prefix that ends before a double
    quote when no word, with or without the letter s, is an end of it. *)
Lemma trim_through_value (ks : list string) (v x : string) :
  quote_free_words ks = true -> quote_free v = true ->
  (forall w o, In w (clauses ks) -> letter o -> ends_with (w ++ o) v = false) ->
  trimDoubleQuotesOnEnumField (v ++ q ++ x) ks
  = v ++ trimDoubleQuotesOnEnumField (q ++ x) ks.
Proof.
  intros Hks Hv Hend. induction v as [|d v IH]; [reflexivity|].
  cbn [quote_free all] in Hv. apply andb_true_iff in Hv as [Hd Hv].
  rewrite trim_no_match.
  - cbn [String.append]. f_equal. apply IH; [assumption|].
    intros w o Hw Ho. specialize (Hend w o Hw Ho). cbn [ends_with] in Hend.
    now apply orb_false_iff in Hend as [_ Hend].
  - destruct (pattern_rest ks (String d v ++ q ++ x)) as [r|] eqn:E; [|reflexivity].
    apply match_before_quote in E as (w & o & Hin & Ho & E); [|assumption|].
    + specialize (Hend w o Hin Ho). cbn [ends_with] in Hend.
      apply orb_false_iff in Hend as [Hend _].
      rewrite E, String.eqb_refl in Hend. discriminate.
    + cbn [quote_free all]. now rewrite Hd.
Qed.

Lemma ends_with_has_char (c : ascii) (w v : string) :
  has_char c w = true -> has_char c v = false -> ends_with w v = false.
Proof.
  intros Hw. induction v as [|d v IH]; intros Hv; cbn [ends_with].
  - rewrite orb_false_r. apply String.eqb_neq. intros ->. now rewrite Hw in Hv.
  - apply orb_false_iff. split.
    + apply String.eqb_neq. intros ->. now rewrite Hw in Hv.
    + apply IH. unfold has_char in *. cbn [all] in Hv.
      apply negb_false_iff in Hv. apply andb_true_iff in Hv as [_ Hv].
      now rewrite Hv.
Qed.

Lemma enum_words_colon (w o : string) :
  In w (clauses enumSearchWords) -> letter o -> has_char ":" (w ++ o) = true.
Proof.
  intros Hw Ho. rewrite has_char_append. cbn in Hw.
  destruct Hw as [<-|[<-|[<-|[<-|[]]]]]; reflexivity.
Qed.

(** One step of the fixer at a position where no search word starts. *)
Lemma trim_skip_quote (rest : string) :
  trimDoubleQuotesOnEnumField (q ++ rest) enumSearchWords
  = q ++ trimDoubleQuotesOnEnumField rest enumSearchWords.
Proof. apply (trim_skip dq rest); reflexivity. Qed.

Lemma trim_empty (ks : list string) : trimDoubleQuotesOnEnumField "" ks = "".
Proof. now apply trim_no_match_anywhere, quote_free_no_match. Qed.

(** X4: the optional character between a search word and the quoted value
    is the letter s, not a blank.  For each of the four search words of
    buildQuery and each value without double quote, line terminator or
    colon, a blank after the word keeps the fixer off and the value stays
    between its double quotes, while the letter s after the word is
    accepted and the value loses them. *)
Theorem trim_blank_or_letter (w v : string) :
  In w enumSearchWords -> plain_value v = true -> has_char ":" v = false ->
  trimDoubleQuotesOnEnumField (w ++ " " ++ q ++ v ++ q) enumSearchWords
  = w ++ " " ++ q ++ v ++ q
  /\ trimDoubleQuotesOnEnumField (w ++ "s" ++ q ++ v ++ q) enumSearchWords
     = w ++ "s" ++ v.
Proof.
  intros Hw Hv Hcolon. split.
  - assert (Hqw : quote_free w = true).
    { cbn in Hw. destruct Hw as [<-|[<-|[<-|[<-|[]]]]]; reflexivity. }
    rewrite (trim_quote_free_prefix enumSearchWords " " w " " (v ++ q));
      try reflexivity; try assumption.
    2:{ intros w' Hw'. cbn in Hw'.
        destruct Hw' as [<-|[<-|[<-|[<-|[]]]]]; reflexivity. }
    f_equal.
    change (" " ++ q ++ v ++ q) with (String " " (q ++ v ++ q ++ "")).
    rewrite trim_skip by reflexivity. f_equal.
    rewrite trim_skip_quote. f_equal.
    rewrite trim_through_value; try reflexivity.
    + now apply plain_value_quote_free.
    + intros w' o Hw' Ho. apply (ends_with_has_char ":"); [|assumption].
      now apply enum_words_colon.
  - rewrite <- (append_nil_r (w ++ "s" ++ q ++ v ++ q)), !append_assoc.
    rewrite (trim_word_value enumSearchWords w "s" v "");
      [|reflexivity | now apply In_clauses | now right | assumption].
    now rewrite trim_empty, append_nil_r.
Qed.

Lemma trim_blank_or_letter_witness :
  trimDoubleQuotesOnEnumField ("direction:" ++ " " ++ q ++ "ASC" ++ q) enumSearchWords
  = "direction:" ++ " " ++ q ++ "ASC" ++ q
  /\ trimDoubleQuotesOnEnumField ("direction:" ++ "s" ++ q ++ "ASC" ++ q) enumSearchWords
     = "direction:" ++ "s" ++ "ASC".
Proof.
  apply (trim_blank_or_letter "direction:" "ASC").
  - cbn. auto.
  - reflexivity.
  - reflexivity.
Defined.

Lemma good_item_inv (ks : list string) (item : string * string) :
  good_item ks item = true -> In (fst item) ks /\ plain_value (snd item) = true.
Proof.
  unfold good_item. intros H. apply andb_true_iff in H as [H Hv].
  split; [|assumption]. apply existsb_exists in H as (w & Hin & E).
  apply String.eqb_eq in E. now subst w.
Qed.

Lemma all_impl (p p' : ascii -> bool) (s : string) :
  (forall c, p c = true -> p' c = true) -> all p s = true -> all p' s = true.
Proof.
  intros Hp. induction s as [|c s IH]; [reflexivity|]. cbn [all]. intros H.
  apply andb_true_iff in H as [Hc H]. now rewrite (Hp c Hc), IH.
Qed.

(** The fixer passes over a separator in front of a word. *)
Lemma trim_separator (ks : list string) (sep w x : string) :
  quote_free_words ks = true -> separator ks sep = true ->
  quote_free w = true ->
  trimDoubleQuotesOnEnumField (sep ++ w ++ q ++ x) ks
  = sep ++ trimDoubleQuotesOnEnumField (w ++ q ++ x) ks.
Proof.
  intros Hks Hsep Hw. induction sep as [|c t IH]; [reflexivity|].
  assert (Hqt : quote_free (String c t) = true).
  { revert Hsep. apply all_impl. intros d Hd.
    now apply andb_true_iff in Hd as [Hd _]. }
  unfold separator in Hsep. cbn [all] in Hsep.
  apply andb_true_iff in Hsep as [Hc Ht]. apply andb_true_iff in Hc as [_ Hc].
  rewrite trim_no_match.
  - cbn [String.append]. f_equal. now apply IH.
  - destruct (pattern_rest ks (String c t ++ w ++ q ++ x)) as [r|] eqn:E;
      [|reflexivity].
    rewrite <- append_assoc in E.
    apply match_before_quote in E as (w' & o & Hw' & Ho & E); [|assumption|].
    + apply (f_equal (has_char c)) in E.
      rewrite (marker_clause ks c w' o Hc Hw' Ho) in E.
      cbn [String.append] in E. now rewrite has_char_cons, Ascii.eqb_refl in E.
    + now rewrite quote_free_append, Hqt, Hw.
Qed.

(** X5: on a well-formed list the fixer unquotes every item, also when a
    word comes several times.  The search words are free of pattern syntax
    and of double quotes; the separator is any text, the empty one
    included, whose characters are no double quote, not the letter s and in
    none of the words, as a comma is for the words of the service; each item
    is a word of the list directly followed by a value between double
    quotes, without double quote or line terminator inside.  For the items
    joined by the separator the result is the same items, in the same order
    and with the same separator, with every value bare. *)
Theorem trim_item_list (ks : list string) (sep : string)
  (items : list (string * string)) :
  plain_words ks = true -> quote_free_words ks = true ->
  separator ks sep = true ->
  forallb (good_item ks) items = true ->
  trimDoubleQuotesOnEnumField (join sep (map quoted_item items)) ks
  = join sep (map bare_item items).
Proof.
  intros _ Hks Hsep Hitems.
  assert (Hstep : forall item rest,
    good_item ks item = true ->
    trimDoubleQuotesOnEnumField (quoted_item item ++ rest) ks
    = bare_item item ++ trimDoubleQuotesOnEnumField rest ks).
  { intros [w v] rest Hi. apply good_item_inv in Hi as [Hw Hv].
    cbn [fst snd] in Hw, Hv. unfold quoted_item, bare_item. cbn [fst snd].
    rewrite !append_assoc.
    now apply (trim_word_value ks w "" v rest Hks (In_clauses _ _ Hw) (or_introl eq_refl)). }
  assert (Hpass : forall item rest,
    good_item ks item = true ->
    trimDoubleQuotesOnEnumField (sep ++ quoted_item item ++ rest) ks
    = sep ++ trimDoubleQuotesOnEnumField (quoted_item item ++ rest) ks).
  { intros [w v] rest Hi. apply good_item_inv in Hi as [Hw Hv].
    cbn [fst snd] in Hw, Hv. unfold quoted_item. cbn [fst snd].
    rewrite !append_assoc. apply trim_separator; try assumption.
    apply (clauses_quote_free ks w Hks). now apply In_clauses. }
  induction items as [|item items IH]; [apply trim_empty|].
  cbn [forallb] in Hitems. apply andb_true_iff in Hitems as [Hi Hitems].
  cbn [map]. rewrite !join_cons, Hstep by assumption. f_equal.
  destruct items as [|item' items]; [apply trim_empty|].
  specialize (IH Hitems). cbn [map] in *. rewrite !join_rest_cons.
  cbn [forallb] in Hitems. apply andb_true_iff in Hitems as [Hi' _].
  rewrite <- !join_cons in *. rewrite join_cons, Hpass, <- join_cons by assumption.
  now rewrite IH.
Qed.

Lemma trim_item_list_witness :
  trimDoubleQuotesOnEnumField
    (join ", " (map quoted_item [("sort:", "a"); ("direction:", "ASC"); ("sort:", "b")]))
    ["sort:"; "direction:"]
  = join ", " (map bare_item [("sort:", "a"); ("direction:", "ASC"); ("sort:", "b")]).
Proof.
  apply (trim_item_list ["sort:"; "direction:"] ", "
           [("sort:", "a"); ("direction:", "ASC"); ("sort:", "b")]);
    reflexivity.
Defined.

(** Why the words have to be free of double quotes: with a word that ends
    in one, the result is not the list of bare items. *)
Lemma trim_item_list_quoted_word :
  trimDoubleQuotesOnEnumField
    (join "," (map quoted_item [("a" ++ q, "x"); ("a" ++ q, "y")])) ["a" ++ q]
  <> join "," (map bare_item [("a" ++ q, "x"); ("a" ++ q, "y")]).
Proof. vm_compute. discriminate. Qed.

End FixerMore.

(** ** buildQuery: failures, frame, repetition *)

Section BuildQueryMore.

Lemma obj_set_same (o : Obj) (k : string) (v : JSValue) :
  obj_get o k = Some v -> obj_set o k v = o.
Proof.
  induction o as [|[k' v'] o IH]; cbn [obj_get obj_set]; [discriminate|].
  destruct (String.eqb k' k); [now intros [= ->] | intros H; now rewrite IH].
Qed.

Lemma written_idem (so : GraphqlServiceOption) (o : Obj) :
  written so (written so o) = written so o.
Proof.
  pose proof (written_orderBy so o) as Ho.
  pose proof (written_filterBy so o) as Hf.
  unfold written at 1. unfold with_filterBy, with_orderBy.
  destruct (truthy_object (sortingOptions so)),
           (truthy_object (filteringOptions so)).
  - rewrite (obj_set_same (written so o) "orderBy") by assumption.
    now apply obj_set_same.
  - now apply obj_set_same.
  - now apply obj_set_same.
  - reflexivity.
Qed.

Lemma written_unset (so : GraphqlServiceOption) (o : Obj) :
  truthy_object (sortingOptions so) || truthy_object (filteringOptions so) = false ->
  written so o = o.
Proof.
  intros H. apply orb_false_iff in H as [Hs Hf].
  unfold written, with_filterBy, with_orderBy. now rewrite Hs, Hf.
Qed.

Lemma state_eta (st : State) :
  {| serviceOptions := serviceOptions st; store := store st |} = st.
Proof. now destruct st. Qed.

(** X6: buildQuery has exactly two ways to fail, and a failed call leaves
    the service as it was.  It throws the requirement error exactly when the
    dataset name is missing or empty or the field selection is missing;
    on a configured service it throws a type error exactly when sorting or
    filtering options are set and no pagination object is stored; in every
    other case it returns a text. *)
Theorem buildQuery_failure_modes (st : State) :
  let so := serviceOptions st in
  let needs_object :=
    truthy_object (sortingOptions so) || truthy_object (filteringOptions so) in
  (configured so = false /\
   buildQuery st = (Throw (Error requirement_message), st))
  \/ (configured so = true /\ pagination_object st = None /\
      needs_object = true /\ buildQuery st = (Throw TypeError, st))
  \/ (configured so = true /\
      (pagination_object st = None -> needs_object = false) /\
      exists text st', buildQuery st = (Ok text, st')).
Proof.
  cbv zeta. destruct (configured (serviceOptions st)) eqn:Hc.
  2:{ left. split; [reflexivity|]. now apply buildQuery_unconfigured. }
  right. destruct (pagination_object st) as [o|] eqn:Hp.
  - right. split; [reflexivity|]. split; [discriminate|].
    unfold pagination_object in Hp.
    destruct (paginationOptions (serviceOptions st)) as [| |l] eqn:El;
      try discriminate. cbn [read] in Hp.
    rewrite (buildQuery_object st l o Hc El Hp). now eexists _, _.
  - rewrite (buildQuery_no_object st Hc Hp).
    destruct (_ || _).
    + left. now repeat split.
    + right. split; [reflexivity|]. split; [reflexivity|]. now eexists _, _.
Qed.

(** X7: a successful buildQuery changes nothing but the stored pagination
    object: the options are the same, every object stored under another
    reference is the same, and when neither sorting nor filtering options
    are set the whole state is the same. *)
Theorem buildQuery_frame (st st' : State) (text : string) :
  buildQuery st = (Ok text, st') ->
  serviceOptions st' = serviceOptions st
  /\ (forall l, paginationOptions (serviceOptions st) <> Value l ->
        store st' !! l = store st !! l)
  /\ (truthy_object (sortingOptions (serviceOptions st))
      || truthy_object (filteringOptions (serviceOptions st)) = false ->
      st' = st).
Proof.
  intros H. pose proof (buildQuery_ok_inv _ _ _ H) as (Hc & Hso & _).
  split; [exact Hso|].
  destruct (pagination_object st) as [o|] eqn:Hp.
  - unfold pagination_object in Hp.
    destruct (paginationOptions (serviceOptions st)) as [| |l0] eqn:El;
      try discriminate. cbn [read] in Hp.
    rewrite (buildQuery_object st l0 o Hc El Hp) in H. injection H as _ <-.
    cbn [store]. split.
    + intros l Hl. apply lookup_insert_ne. congruence.
    + intros Hn. rewrite (written_unset _ o Hn), (insert_id _ _ _ Hp).
      apply state_eta.
  - rewrite (buildQuery_no_object st Hc Hp) in H.
    destruct (_ || _); [discriminate|]. injection H as _ <-. now split.
Qed.

Lemma buildQuery_frame_witness :
  exists text, buildQuery users_offset = (Ok text, users_offset).
Proof.
  destruct (buildQuery users_offset) as [[text|e] st'] eqn:E;
    [|vm_compute in E; discriminate].
  destruct (buildQuery_frame users_offset st' text E) as (_ & _ & Hsame).
  rewrite (Hsame eq_refl). now exists text.
Defined.

(** X8: buildQuery can be repeated: a second call right after a successful
    one returns the same text and leaves the state of the first call as it
    is; the keys written by the first call are written again in place. *)
Theorem buildQuery_twice (st st' : State) (text : string) :
  buildQuery st = (Ok text, st') -> buildQuery st' = (Ok text, st').
Proof.
  intros H. pose proof (buildQuery_ok_inv _ _ _ H) as (Hc & Hso & _).
  destruct (pagination_object st) as [o|] eqn:Hp.
  - unfold pagination_object in Hp.
    destruct (paginationOptions (serviceOptions st)) as [| |l] eqn:El;
      try discriminate. cbn [read] in Hp.
    rewrite (buildQuery_object st l o Hc El Hp) in H. injection H as <- <-.
    rewrite (buildQuery_object _ l (written (serviceOptions st) o));
      cbn [serviceOptions store]; try assumption.
    + now rewrite written_idem, insert_insert_eq.
    + apply lookup_insert_eq.
  - rewrite (buildQuery_no_object st Hc Hp) in H.
    destruct (_ || _) eqn:En; [discriminate|]. injection H as <- <-.
    rewrite (buildQuery_no_object st Hc Hp). now rewrite En.
Qed.

Lemma buildQuery_twice_witness :
  exists text st',
    buildQuery users_sorted = (Ok text, st') /\ buildQuery st' = (Ok text, st').
Proof.
  destruct (buildQuery users_sorted) as [[text|e] st'] eqn:E;
    [|vm_compute in E; discriminate].
  exists text, st'. split; [reflexivity|].
  exact (buildQuery_twice users_sorted st' text E).
Defined.

(** X9: once a query has been built, setting the sorting options to
    undefined through updateOptions does not take the sort out of the next
    query: buildQuery returns the very same text, and the stored pagination
    object still has the orderBy key with the sorting options of the first
    call. *)
Theorem clear_sorting_keeps_orderBy (st st' : State) (text : string) :
  buildQuery st = (Ok text, st') ->
  truthy_object (sortingOptions (serviceOptions st)) = true ->
  let st2 := snd (updateOptions (Some clear_sorting) st') in
  sortingOptions (serviceOptions st2) = Undefined
  /\ buildQuery st2 = (Ok text, st2)
  /\ exists o, pagination_object st2 = Some o /\
       obj_get o "orderBy"
       = Some (list_value sorting_value (sortingOptions (serviceOptions st))).
Proof.
  intros H Hs st2. pose proof (buildQuery_ok_inv _ _ _ H) as (Hc & Hso & _).
  pose proof (buildQuery_outcome st) as Hout. rewrite H in Hout.
  cbn [fst] in Hout. destruct Hout as [_ Hnone].
  destruct (pagination_object st) as [o|] eqn:Hp.
  2:{ rewrite Hs in Hnone. specialize (Hnone eq_refl). discriminate. }
  unfold pagination_object in Hp.
  destruct (paginationOptions (serviceOptions st)) as [| |l] eqn:El;
    try discriminate. cbn [read] in Hp.
  rewrite (buildQuery_object st l o Hc El Hp) in H. injection H as <- <-.
  set (so := serviceOptions st) in *. set (W := written so o).
  assert (Hst2 : st2 = {| serviceOptions := merge so clear_sorting;
                          store := <[l := W]> (store st) |}) by reflexivity.
  assert (Hc2 : configured (serviceOptions st2) = true) by exact Hc.
  assert (El2 : paginationOptions (serviceOptions st2) = Value l).
  { rewrite Hst2. cbn [serviceOptions paginationOptions merge clear_sorting spread].
    exact El. }
  assert (Ho2 : store st2 !! l = Some W).
  { rewrite Hst2. cbn [store]. apply lookup_insert_eq. }
  assert (HW : written (serviceOptions st2) W = W).
  { pose proof (written_filterBy so o) as Hf. fold W in Hf.
    rewrite Hst2. unfold written at 1, with_filterBy, with_orderBy.
    cbn [serviceOptions sortingOptions filteringOptions merge clear_sorting
         spread truthy_object list_value].
    destruct (truthy_object (filteringOptions so)); [|reflexivity].
    now apply obj_set_same. }
  split; [reflexivity|]. split.
  - rewrite (buildQuery_object st2 l W Hc2 El2 Ho2), HW.
    rewrite (insert_id _ _ _ Ho2), state_eta. reflexivity.
  - exists W. split.
    + unfold pagination_object. now rewrite El2.
    + unfold W. now rewrite written_orderBy, Hs.
Qed.

Lemma clear_sorting_keeps_orderBy_witness :
  exists text st',
    buildQuery users_sorted = (Ok text, st') /\
    buildQuery (snd (updateOptions (Some clear_sorting) st'))
    = (Ok text, snd (updateOptions (Some clear_sorting) st')) /\
    includes "orderBy:[{sort:id,direction:ASC}]" text = true.
Proof.
  destruct (buildQuery users_sorted) as [[text|e] st'] eqn:E;
    [|vm_compute in E; discriminate].
  exists text, st'. split; [reflexivity|].
  destruct (clear_sorting_keeps_orderBy users_sorted st' text E eq_refl)
    as (_ & H2 & _).
  split; [exact H2|].
  vm_compute in E. injection E as <- _. vm_compute. reflexivity.
Defined.

End BuildQueryMore.

(** ** The filterBy argument in the returned text *)

Section FilterBy.










End FilterBy.

(** ** The options object across calls *)

Section Options.

Lemma spread_assoc {A : Type} (a b c : Slot A) :
  spread (spread a b) c = spread a (spread b c).
Proof. now destruct c. Qed.

Lemma spread_absent_l {A : Type} (a : Slot A) : spread Absent a = a.
Proof. now destruct a. Qed.

Lemma spread_twice {A : Type} (a b : Slot A) : spread (spread a b) b = spread a b.
Proof. now destruct b. Qed.

Lemma merge_assoc (so p1 p2 : GraphqlServiceOption) :
  merge (merge so p1) p2 = merge so (merge p1 p2).
Proof.
  unfold merge. cbn [datasetName dataFilters isWithCursor paginationOptions
                     sortingOptions filteringOptions].
  now rewrite !spread_assoc.
Qed.

Lemma merge_twice (so p : GraphqlServiceOption) : merge (merge so p) p = merge so p.
Proof.
  unfold merge. cbn [datasetName dataFilters isWithCursor paginationOptions
                     sortingOptions filteringOptions].
  now rewrite !spread_twice.
Qed.

Lemma merge_empty_l (p : GraphqlServiceOption) : merge emptyOptions p = p.
Proof.
  destruct p. unfold merge, emptyOptions.
  cbn [datasetName dataFilters isWithCursor paginationOptions
       sortingOptions filteringOptions].
  now rewrite !spread_absent_l.
Qed.

(** X11: two calls of updateOptions in a row are one call with the second
    partial options spread over the first, a call repeated with the same
    argument changes nothing more, and no call touches a stored object. *)
Theorem updateOptions_compose (st : State) (first second : option GraphqlServiceOption) :
  let partial (p : option GraphqlServiceOption) :=
    match p with Some o => o | None => emptyOptions end in
  (updateOptions first ;; updateOptions second) st
  = updateOptions (Some (merge (partial first) (partial second))) st
  /\ (updateOptions second ;; updateOptions second) st = updateOptions second st
  /\ store (snd ((updateOptions first ;; updateOptions second) st)) = store st.
Proof.
  cbv zeta. unfold updateOptions, bind, getOptions, setOptions.
  cbn [serviceOptions store snd].
  split; [|split]; [now rewrite merge_assoc | now rewrite merge_twice | reflexivity].
Qed.

(** X12: initOptions replaces the options whole.  What earlier calls of
    updateOptions or initOptions had set is gone, initOptions without
    argument followed by updateOptions is initOptions with the argument of
    updateOptions, and after initOptions without argument buildQuery throws
    the requirement error. *)
Theorem initOptions_replaces (st : State)
  (earlier later : option GraphqlServiceOption) :
  (updateOptions earlier ;; initOptions later) st = initOptions later st
  /\ (initOptions earlier ;; initOptions later) st = initOptions later st
  /\ (initOptions None ;; updateOptions later) st = initOptions later st
  /\ (initOptions None ;; buildQuery) st
     = (Throw (Error requirement_message),
        {| serviceOptions := emptyOptions; store := store st |}).
Proof.
  unfold updateOptions, initOptions, bind, getOptions, setOptions.
  cbn [serviceOptions store].
  split; [reflexivity|]. split; [reflexivity|]. split.
  - now rewrite merge_empty_l.
  - now rewrite buildQuery_unconfigured.
Qed.

End Options.

(** ** What the handlers leave in the state *)

Section Handlers.

Lemma fresh_unused (σ : gmap loc Obj) : σ !! fresh (dom σ) = None.
Proof. apply not_elem_of_dom, is_fresh. Qed.

Lemma stored_not_fresh (σ : gmap loc Obj) (l : loc) (o : Obj) :
  σ !! l = Some o -> l <> fresh (dom σ).
Proof. intros H ->. rewrite fresh_unused in H. discriminate. Qed.

(** [buildQuery] writes to the pagination object and to no other. *)
Lemma buildQuery_store_other (st : State) (l : loc) :
  paginationOptions (serviceOptions st) <> Value l ->
  store (snd (buildQuery st)) !! l = store st !! l.
Proof.
  intros Hl. destruct (configured (serviceOptions st)) eqn:Hc.
  2:{ now rewrite (buildQuery_unconfigured st Hc). }
  destruct (pagination_object st) as [o|] eqn:Hp.
  - unfold pagination_object in Hp.
    destruct (paginationOptions (serviceOptions st)) as [| |l0] eqn:El;
      try discriminate. cbn [read] in Hp.
    rewrite (buildQuery_object st l0 o Hc El Hp). cbn [snd store].
    apply lookup_insert_ne. congruence.
  - rewrite (buildQuery_no_object st Hc Hp). now destruct (_ || _).
Qed.

Lemma resetPaginationOptions_unfold (st : State) :
  resetPaginationOptions st
  = (Ok tt,
     {| serviceOptions :=
          merge (serviceOptions st)
            (only_paginationOptions (fresh (dom (store st))));
        store :=
          <[fresh (dom (store st))
            := reset_object (truthy_bool (isWithCursor (serviceOptions st)))]>
            (store st) |}).
Proof. reflexivity. Qed.

(** X13: resetPaginationOptions never fails and makes the pagination
    options refer to a new object: after: empty text, before and last
    undefined in cursor mode, offset: 0 otherwise.  The object has no
    first, orderBy or filterBy key, the reference was not in use, every
    object stored before is as it was, and the five other options keep
    their values. *)
Theorem resetPaginationOptions_new_object (st : State) :
  let so := serviceOptions st in
  let st' := snd (resetPaginationOptions st) in
  let so' := serviceOptions st' in
  let created :=
    if truthy_bool (isWithCursor so)
    then [("after", VString ""); ("before", VUndefined); ("last", VUndefined)]
    else [("offset", VNumber 0)] in
  fst (resetPaginationOptions st) = Ok tt
  /\ (exists l, paginationOptions so' = Value l /\ store st !! l = None /\
                store st' !! l = Some created)
  /\ obj_get created "first" = None
  /\ obj_get created "orderBy" = None
  /\ obj_get created "filterBy" = None
  /\ (forall l o, store st !! l = Some o -> store st' !! l = Some o)
  /\ datasetName so' = datasetName so
  /\ dataFilters so' = dataFilters so
  /\ isWithCursor so' = isWithCursor so
  /\ sortingOptions so' = sortingOptions so
  /\ filteringOptions so' = filteringOptions so.
Proof.
  cbv zeta. rewrite resetPaginationOptions_unfold. cbn [fst snd serviceOptions store].
  split; [reflexivity|]. split.
  { exists (fresh (dom (store st))). split; [reflexivity|].
    split; [apply fresh_unused | apply lookup_insert_eq]. }
  split; [now destruct (truthy_bool _)|]. split; [now destruct (truthy_bool _)|].
  split; [now destruct (truthy_bool _)|]. split.
  { intros l o Ho. rewrite lookup_insert_ne; [exact Ho|].
    intros E. symmetry in E. revert E. now apply (stored_not_fresh _ _ o). }
  now repeat split.
Qed.

(** X14: onPaginationChanged stores its object under a reference that was
    not in use and makes the pagination options refer to it.  Every object
    stored before, the previous pagination object among them, is as it was,
    and the five other options keep their values, whether the call returns
    a text or throws. *)
Theorem onPaginationChanged_frame (st : State) (args : PaginationChangedArgs) :
  let so := serviceOptions st in
  let st' := snd (onPaginationChanged args st) in
  let so' := serviceOptions st' in
  (exists l, paginationOptions so' = Value l /\ store st !! l = None)
  /\ (forall l o, store st !! l = Some o -> store st' !! l = Some o)
  /\ datasetName so' = datasetName so
  /\ dataFilters so' = dataFilters so
  /\ isWithCursor so' = isWithCursor so
  /\ sortingOptions so' = sortingOptions so
  /\ filteringOptions so' = filteringOptions so.
Proof.
  cbv zeta. rewrite onPaginationChanged_unfold. cbv zeta.
  set (l := fresh (dom (store st))).
  set (st1 := {| serviceOptions := _; store := _ |}).
  rewrite (buildQuery_keeps_options st1).
  split; [|split].
  - exists l. split; [reflexivity | apply fresh_unused].
  - intros l0 o Ho. rewrite buildQuery_store_other.
    + unfold st1. cbn [store]. rewrite lookup_insert_ne; [exact Ho|].
      intros E. symmetry in E. revert E. now apply (stored_not_fresh _ _ o).
    + unfold st1. cbn [serviceOptions paginationOptions merge
                       only_paginationOptions spread].
      intros [= E]. symmetry in E. revert E. now apply (stored_not_fresh _ _ o).
  - now repeat split.
Qed.

End Handlers.

(** ** Events in a row *)

Section Events.

(** Steps of the fixer over characters at which no search word matches. *)
Ltac trim_steps :=
  repeat first
    [ rewrite trim_skip by reflexivity
    | rewrite trim_skip_quote
    | rewrite (trim_no_match enumSearchWords (String _ _)) by reflexivity ].

Lemma written_reset_object (so : GraphqlServiceOption) (cursor : bool) :
  written so (reset_object cursor) = (reset_object cursor ++ extra_entries so)%list.
Proof.
  unfold written, with_filterBy, with_orderBy, extra_entries, reset_object.
  destruct cursor, (truthy_object (sortingOptions so)),
    (truthy_object (filteringOptions so)); reflexivity.
Qed.

Lemma trim_reset_keys (so : GraphqlServiceOption) (tail : string) :
  exists t,
    trimDoubleQuotesOnEnumField
      ("(after:" ++ q ++ q ++ ",before:undefined,last:undefined"
       ++ next_argument so ++ tail)
      enumSearchWords
    = "(after:" ++ q ++ q ++ ",before:undefined,last:undefined"
      ++ next_argument so ++ t.
Proof.
  unfold next_argument.
  destruct (truthy_object (sortingOptions so)),
           (truthy_object (filteringOptions so));
    cbn [String.append]; trim_steps; eexists; reflexivity.
Qed.

Lemma next_argument_quote_free (so : GraphqlServiceOption) :
  quote_free (next_argument so) = true.
Proof.
  unfold next_argument.
  now destruct (truthy_object (sortingOptions so)),
               (truthy_object (filteringOptions so)).
Qed.

(** X15: the query after a reset.  On a configured service whose dataset
    name holds no double quote, resetPaginationOptions followed by
    buildQuery returns a text whose arguments start, in cursor mode, with
    after: and an empty quoted text followed by before:undefined and
    last:undefined, the two undefined keys written out, and otherwise with
    offset:0; the sorting or filtering options come next when they are set,
    and no page size is written. *)
Theorem resetPaginationOptions_text (st : State) :
  let so := serviceOptions st in
  configured so = true -> quote_free (name_of so) = true ->
  exists text st',
    (resetPaginationOptions ;; buildQuery) st = (Ok text, st') /\
    includes
      ((if truthy_bool (isWithCursor so)
        then "(after:" ++ q ++ q ++ ",before:undefined,last:undefined"
        else "(offset:0")
       ++ next_argument so)
      text = true.
Proof.
  intros so Hc Hname. unfold bind. rewrite resetPaginationOptions_unfold.
  fold so. set (l := fresh (dom (store st))).
  set (cursor := truthy_bool (isWithCursor so)).
  set (st1 := {| serviceOptions := _; store := _ |}).
  assert (Hc1 : configured (serviceOptions st1) = true) by exact Hc.
  rewrite (buildQuery_object st1 l (reset_object cursor) Hc1 eq_refl
             (lookup_insert_eq _ _ _)).
  eexists _, _. split; [reflexivity|].
  change (written (serviceOptions st1) (reset_object cursor))
    with (written so (reset_object cursor)).
  change (name_of (serviceOptions st1)) with (name_of so).
  change (truthy_bool (isWithCursor (serviceOptions st1))) with cursor.
  rewrite written_reset_object, head_entries_app.
  destruct (head_entries_extra so) as (tail & Htail).
  destruct cursor.
  - change (head_entries (reset_object true))
      with [("after:" ++ q ++ q)%string; "before:undefined"; "last:undefined"].
    cbn [app]. unfold document_text.
    rewrite head_text_cons, 2!join_rest_cons, !append_assoc, Htail.
    set (pre := " query   {  " ++ name_of so ++ " ").
    match goal with |- includes _ (trimDoubleQuotesOnEnumField ?doc _) = true =>
      assert (Edoc : exists post,
                doc = pre ++ "(after:" ++ q
                      ++ (q ++ ",before:undefined,last:undefined"
                          ++ next_argument so ++ post)) end.
    { eexists. unfold pre. text_eq. }
    destruct Edoc as (post & ->).
    rewrite (trim_quote_free_prefix enumSearchWords "("); try reflexivity.
    + destruct (trim_reset_keys so post) as (t & ->).
      apply includes_spec. exists pre, t. text_eq.
    + intros w Hw. cbn in Hw.
      destruct Hw as [<-|[<-|[<-|[<-|[]]]]]; reflexivity.
    + unfold pre. now rewrite !quote_free_append, Hname.
  - apply includes_trim.
    { now rewrite quote_free_append, next_argument_quote_free. }
    unfold document_text. apply includes_node_body, includes_node_head.
    change (head_entries (reset_object false)) with ["offset:0"].
    cbn [app]. rewrite head_text_cons, Htail.
    apply includes_spec. exists "", tail. text_eq.
Qed.

Lemma resetPaginationOptions_text_witness :
  exists text st',
    (resetPaginationOptions ;; buildQuery) users_cursor = (Ok text, st') /\
    includes ("(after:" ++ q ++ q ++ ",before:undefined,last:undefined)")
      text = true.
Proof.
  exact (resetPaginationOptions_text users_cursor eq_refl eq_refl).
Defined.

Lemma includes_head_text (x : string) (l : list string) :
  In x l -> includes x (head_text l) = true.
Proof.
  intros H. apply List.in_split in H as (l1 & l2 & ->).
  rewrite head_text_app_cons. do 2 apply includes_skip_l. apply includes_head.
Qed.

Lemma obj_get_In (o : Obj) (k : string) (v : JSValue) :
  obj_get o k = Some v -> In (k, v) o.
Proof.
  induction o as [|[k' v'] o IH]; cbn [obj_get]; [discriminate|].
  destruct (String.eqb_spec k' k) as [->|].
  - intros [= ->]. now left.
  - intros H. right. now apply IH.
Qed.

Lemma head_entries_In (o : Obj) (k : string) (v : JSValue) :
  obj_get o k = Some v ->
  QueryBuilder.is_empty_braces (QueryBuilder.getGraphQLValue v) = false ->
  In (entry_text (k, v)) (head_entries o).
Proof.
  intros Hg Hv. unfold head_entries. apply in_map, filter_In.
  split; [now apply obj_get_In|]. cbn [snd]. now rewrite Hv.
Qed.

Lemma sortByArray_single (args : SortChangedArgs) :
  multiColumnSort args = false -> sortByArray_of args = [single_sort args].
Proof. intros H. unfold sortByArray_of, sortColumns_of. now rewrite H. Qed.

(** X16: a sort of one column.  When the event is not a multi-column sort,
    onSortChanged takes the column and the direction of the event itself,
    whatever the list of columns holds: the sorting options become the one
    entry with the field of the column, or its id when the field is missing
    or empty, and ASC or DESC; the default order is never used.  On a
    configured service whose dataset name holds no double quote and whose
    pagination arguments ahead of orderBy are numbers or undefined, and for
    a field name that needs no escape, the returned text holds this entry
    alone under orderBy. *)
Theorem onSortChanged_single_column (st : State) (args : SortChangedArgs) :
  multiColumnSort args = false ->
  let name :=
    match field (argSortCol args) with
    | Some f => if String.eqb f "" then id (argSortCol args) else f
    | None => id (argSortCol args)
    end in
  sortingOptions (serviceOptions (snd (onSortChanged args st)))
  = Value [{| sort := name;
              direction := if argSortAsc args then ASC else DESC |}]
  /\ forall l o,
       configured (serviceOptions st) = true ->
       paginationOptions (serviceOptions st) = Value l ->
       store st !! l = Some o ->
       quote_free (name_of (serviceOptions st)) = true ->
       bare_before_orderBy o = true ->
       simple_text name = true ->
       exists text,
         fst (onSortChanged args st) = Ok text /\
         includes
           ("orderBy:[{sort:" ++ name ++ ",direction:"
            ++ (if argSortAsc args then "ASC" else "DESC") ++ "}]")
           text = true.
Proof.
  intros Hm name.
  destruct (onSortChanged_sorts st args) as [Hs Ht].
  rewrite (sortByArray_single args Hm) in Hs, Ht.
  split; [exact Hs|].
  intros l o Hc El Ho Hn Hb Hsimple.
  destruct (Ht l o Hc El Ho Hn Hb) as (text & H & Hinc).
  - discriminate.
  - cbn [forallb]. now rewrite andb_true_r.
  - exists text. split; [exact H|].
    cbn [map join] in Hinc.
    unfold sorting_fixed, single_sort, sorting_of, fieldName_of in Hinc.
    cbn [sort direction sortCol sortAsc] in Hinc. unfold name.
    destruct (argSortAsc args); cbn [direction_text] in Hinc;
      match type of Hinc with
      | includes ?b _ = true =>
          match goal with
          | |- includes ?a _ = true => replace a with b; [exact Hinc | text_eq]
          end
      end.
Qed.

Lemma onSortChanged_single_column_witness :
  sortingOptions (serviceOptions (snd (onSortChanged one_column users_offset)))
  = Value [{| sort := "gender"; direction := DESC |}]
  /\ exists text,
       fst (onSortChanged one_column users_offset) = Ok text /\
       includes "orderBy:[{sort:gender,direction:DESC}]" text = true.
Proof.
  destruct (onSortChanged_single_column users_offset one_column eq_refl)
    as [Hs Ht].
  split; [exact Hs|].
  apply (Ht 0%nat [("first", VNumber 20); ("offset", VNumber 40)]);
    reflexivity.
Defined.

(** X17: a multi-column sort without a list of columns.  The sorting
    options become the empty list, not the default order.  The empty list
    still counts as set: on a configured service with a stored pagination
    object the object gets an orderBy key with the empty list and the
    returned text holds orderBy:[], and on a configured service without
    pagination object the call throws a type error. *)
Theorem onSortChanged_missing_columns (st : State) (args : SortChangedArgs) :
  multiColumnSort args = true -> sortCols args = None ->
  let so := serviceOptions st in
  sortingOptions (serviceOptions (snd (onSortChanged args st))) = Value []
  /\ (configured so = true -> pagination_object st = None ->
      fst (onSortChanged args st) = Throw TypeError)
  /\ forall l o,
       configured so = true -> paginationOptions so = Value l ->
       store st !! l = Some o ->
       exists text o',
         fst (onSortChanged args st) = Ok text /\
         includes "orderBy:[]" text = true /\
         pagination_object (snd (onSortChanged args st)) = Some o' /\
         obj_get o' "orderBy" = Some (VArray []).
Proof.
  intros Hm Hcols so.
  assert (E : sortByArray_of args = []).
  { unfold sortByArray_of, sortColumns_of. now rewrite Hm, Hcols. }
  destruct (onSortChanged_sorts st args) as [Hs _]. rewrite E in Hs.
  split; [exact Hs|]. rewrite onSortChanged_unfold, E.
  set (st1 := {| serviceOptions := _; store := store st |}).
  assert (Hord : forall o, obj_get (written (serviceOptions st1) o) "orderBy"
                           = Some (VArray [])).
  { intros o. now rewrite written_orderBy. }
  split.
  - intros Hc Hp. now rewrite (buildQuery_no_object st1 Hc Hp).
  - intros l o Hc El Ho.
    assert (El1 : paginationOptions (serviceOptions st1) = Value l) by exact El.
    rewrite (buildQuery_object st1 l o Hc El1 Ho).
    eexists _, (written (serviceOptions st1) o). cbn [fst snd].
    split; [reflexivity|]. split; [|split; [|apply Hord]].
    + apply includes_trim; [reflexivity|].
      unfold document_text. apply includes_node_body, includes_node_head.
      apply includes_head_text.
      apply (head_entries_In _ "orderBy" (VArray [])); [apply Hord | reflexivity].
    + unfold pagination_object. cbn [serviceOptions store].
      change (paginationOptions (serviceOptions st1)) with (paginationOptions so).
      rewrite El. cbn [read]. apply lookup_insert_eq.
Qed.

Lemma onSortChanged_missing_columns_witness :
  sortingOptions (serviceOptions (snd (onSortChanged missing_columns users_offset)))
  = Value []
  /\ exists text,
       fst (onSortChanged missing_columns users_offset) = Ok text /\
       includes "(first:20,offset:40,orderBy:[])" text = true.
Proof.
  destruct (onSortChanged_missing_columns users_offset missing_columns
              eq_refl eq_refl) as (Hs & _ & Ht).
  split; [exact Hs|].
  destruct (Ht 0%nat [("first", VNumber 20); ("offset", VNumber 40)]
              eq_refl eq_refl eq_refl) as (text & o' & H & _).
  exists text. split; [exact H|].
  vm_compute in H. injection H as <-. vm_compute. reflexivity.
Defined.







End Events.

(** ** A query without quoted values *)

Section Plain.

Lemma quote_free_join (sep : string) (l : list string) :
  quote_free sep = true -> forallb quote_free l = true ->
  quote_free (join sep l) = true.
Proof.
  intros Hsep. induction l as [|x l IH]; [reflexivity|].
  cbn [forallb]. intros H. apply andb_true_iff in H as [Hx Hl].
  rewrite join_cons, quote_free_append, Hx. cbn [andb].
  destruct l as [|y l]; [reflexivity|].
  unfold join_rest. rewrite quote_free_append, Hsep. now apply IH.
Qed.

Lemma bare_entry_quote_free (e : string * JSValue) :
  bare_entry e = true -> quote_free (entry_text e) = true.
Proof.
  destruct e as [k v]. unfold bare_entry, entry_text. cbn [fst snd]. intros H.
  apply andb_true_iff in H as [Hk Hv]. apply andb_true_iff in Hk as [Hk _].
  rewrite !quote_free_append, Hk.
  destruct v; try discriminate; cbn [QueryBuilder.getGraphQLValue toStr];
    [reflexivity | now rewrite quote_free_number].
Qed.

Lemma head_text_bare (o : Obj) :
  forallb bare_entry o = true -> quote_free (head_text (head_entries o)) = true.
Proof.
  intros H. destruct (head_entries_bare o H) as [-> _].
  unfold head_text. destruct (map entry_text o) eqn:E; [reflexivity|].
  rewrite <- E, !quote_free_append, quote_free_join; [reflexivity..|].
  rewrite forallb_mapped. rewrite forallb_forall in H. apply forallb_forall.
  intros e He. now apply bare_entry_quote_free, H.
Qed.

Lemma document_text_quote_free (name head : string) (cursor : bool)
  (fields : list FieldSelector) :
  quote_free name = true -> quote_free head = true ->
  quote_free (selection_text fields) = true ->
  quote_free
    (node_text "query" ""
       (node_text name head
          ("totalCount," ++ pageInfo_text cursor ++ "," ++ data_text cursor fields)))
  = true.
Proof.
  intros Hn Hh Hs. unfold data_text, pageInfo_text, node_text.
  destruct cursor; now rewrite !quote_free_append, Hn, Hh, Hs.
Qed.

(** X20: a query without quoted values comes out as the builder wrote it.
    On a configured service without sorting and filtering options, whose
    pagination object, if any, holds numbers and undefined values only, and
    whose dataset name and field selection hold no double quote, buildQuery
    returns the document with the arguments of the pagination object, the
    fixer changes no character of it, and the state stays as it was. *)
Theorem buildQuery_plain (st : State) :
  let so := serviceOptions st in
  configured so = true ->
  truthy_object (sortingOptions so) || truthy_object (filteringOptions so) = false ->
  quote_free (name_of so) = true ->
  quote_free (selection_text (fields_of so)) = true ->
  match pagination_object st with
  | Some o => forallb bare_entry o = true
  | None => True
  end ->
  buildQuery st
  = (Ok (document_text (name_of so)
           (match pagination_object st with
            | Some o => head_entries o
            | None => []
            end)
           (truthy_bool (isWithCursor so)) (fields_of so)),
     st).
Proof.
  intros so Hc Hunset Hname Hsel Hbare.
  destruct (pagination_object st) as [o|] eqn:Hp.
  - unfold pagination_object in Hp. fold so in Hp.
    destruct (paginationOptions so) as [| |l] eqn:El; try discriminate.
    cbn [read] in Hp.
    rewrite (buildQuery_object st l o Hc El Hp).
    rewrite (written_unset (serviceOptions st) o Hunset), (insert_id _ _ _ Hp),
      state_eta.
    fold so. f_equal. f_equal. apply trim_no_match_anywhere, quote_free_no_match.
    apply document_text_quote_free; try assumption. now apply head_text_bare.
  - rewrite (buildQuery_no_object st Hc Hp). fold so. rewrite Hunset.
    f_equal. f_equal. apply trim_no_match_anywhere, quote_free_no_match.
    now apply document_text_quote_free.
Qed.

Lemma buildQuery_plain_witness :
  buildQuery users_offset
  = (Ok " query   {  users (first:20,offset:40)  { totalCount, pageInfo   { hasNextPage }, nodes   { name,gender } } }",
     users_offset).
Proof.
  exact (buildQuery_plain users_offset eq_refl eq_refl eq_refl eq_refl eq_refl).
Defined.

End Plain.
